(** * PipeRelay: a shallow embedding of the webhook delivery pipeline

    The development follows the Go packages of the repository:
    [signing] (HMAC signatures), [models], [storage] (the SQLite backend seen
    as tables of rows), [delivery] (retry policy and worker) and [api]
    (the HTTP handlers).  Everything the Go code obtains from outside a
    function (the clock, generated identifiers, random draws, the outcome of
    a database call, the HTTP response of a receiver) is an explicit argument
    of the Rocq function that embeds it. *)

From Stdlib Require Import ZArith List Bool Lia Ascii String DecimalString.
From Stdlib Require Import Permutation Sorted.
Import ListNotations.

Local Open Scope Z_scope.
Local Open Scope string_scope.

(* ===================================================================== *)
(** * Part I: the embedding                                               *)
(* ===================================================================== *)

(** ** Go library functions used by the repository *)

(** Go strings are byte sequences; [string] (a list of 8-bit [ascii]) is the
    same data.  The three functions are Go's [strings.HasPrefix],
    [strings.HasSuffix] and [strings.TrimSuffix], written with slices as in
    the Go library: [s[lo:hi]] is [slice s lo hi]. *)
Module strings.

Definition slice (s : string) (lo hi : nat) : string :=
  substring lo (hi - lo) s.

Definition HasPrefix (s prefix : string) : bool :=
  (length prefix <=? length s)%nat
  && (slice s 0 (length prefix) =? prefix).

Definition HasSuffix (s suffix : string) : bool :=
  (length suffix <=? length s)%nat
  && (slice s (length s - length suffix) (length s) =? suffix).

Definition TrimSuffix (s suffix : string) : string :=
  if HasSuffix s suffix then slice s 0 (length s - length suffix) else s.

End strings.

(** Bytes are integers in [0, 256). *)
Definition byte_of_ascii (c : ascii) : Z := Z.of_nat (nat_of_ascii c).

Fixpoint bytes_of_string (s : string) : list Z :=
  match s with
  | EmptyString => []
  | String c r => byte_of_ascii c :: bytes_of_string r
  end.

(** [fmt.Sprintf("%d", n)]: decimal digits, a leading minus sign for a
    negative number, no leading zeros. *)
Definition decimal (n : Z) : string := NilZero.string_of_int (Z.to_int n).

(** [crypto/sha256] (FIPS 180-4) on 32-bit words held in [Z]. *)
Module sha256.

Definition BlockSize : nat := 64.

Definition w32 (x : Z) : Z := x mod 2 ^ 32.
Definition add32 (x y : Z) : Z := w32 (x + y).
Definition rotr (n x : Z) : Z :=
  Z.lor (Z.shiftr x n) (w32 (Z.shiftl x (32 - n))).
Definition not32 (x : Z) : Z := Z.lxor x (2 ^ 32 - 1).

Definition Ch (x y z : Z) : Z := Z.lxor (Z.land x y) (Z.land (not32 x) z).
Definition Maj (x y z : Z) : Z :=
  Z.lxor (Z.lxor (Z.land x y) (Z.land x z)) (Z.land y z).
Definition bsig0 (x : Z) : Z :=
  Z.lxor (Z.lxor (rotr 2 x) (rotr 13 x)) (rotr 22 x).
Definition bsig1 (x : Z) : Z :=
  Z.lxor (Z.lxor (rotr 6 x) (rotr 11 x)) (rotr 25 x).
Definition ssig0 (x : Z) : Z :=
  Z.lxor (Z.lxor (rotr 7 x) (rotr 18 x)) (Z.shiftr x 3).
Definition ssig1 (x : Z) : Z :=
  Z.lxor (Z.lxor (rotr 17 x) (rotr 19 x)) (Z.shiftr x 10).

(** Round constants: the first 32 bits of the fractional parts of the cube
    roots of the first 64 primes. *)
Definition K : list Z :=
  [ 1116352408; 1899447441; 3049323471; 3921009573; 961987163; 1508970993;
    2453635748; 2870763221; 3624381080; 310598401; 607225278; 1426881987;
    1925078388; 2162078206; 2614888103; 3248222580; 3835390401; 4022224774;
    264347078; 604807628; 770255983; 1249150122; 1555081692; 1996064986;
    2554220882; 2821834349; 2952996808; 3210313671; 3336571891; 3584528711;
    113926993; 338241895; 666307205; 773529912; 1294757372; 1396182291;
    1695183700; 1986661051; 2177026350; 2456956037; 2730485921; 2820302411;
    3259730800; 3345764771; 3516065817; 3600352804; 4094571909; 275423344;
    430227734; 506948616; 659060556; 883997877; 958139571; 1322822218;
    1537002063; 1747873779; 1955562222; 2024104815; 2227730452; 2361852424;
    2428436474; 2756734187; 3204031479; 3329325298 ].

(** Initial hash value: square roots of the first 8 primes. *)
Definition H0 : list Z :=
  [ 1779033703; 3144134277; 1013904242; 2773480762;
    1359893119; 2600822924; 528734635; 1541459225 ].

Definition be_bytes (width : nat) (x : Z) : list Z :=
  map (fun i => (x / 2 ^ (8 * Z.of_nat i)) mod 256) (rev (seq 0 width)).

Definition pad (msg : list Z) : list Z :=
  let n := Z.of_nat (List.length msg) in
  (msg ++ [128] ++ repeat 0 (Z.to_nat ((55 - n) mod 64))
       ++ be_bytes 8 (8 * n))%list.

Fixpoint words (bs : list Z) : list Z :=
  match bs with
  | a :: b :: c :: d :: r =>
      (a * 2 ^ 24 + b * 2 ^ 16 + c * 2 ^ 8 + d) :: words r
  | _ => []
  end.

Fixpoint blocks (n : nat) (ws : list Z) : list (list Z) :=
  match n with
  | O => []
  | S n' => firstn 16 ws :: blocks n' (skipn 16 ws)
  end.

Definition schedule (block : list Z) : list Z :=
  fold_left
    (fun w t =>
       let at_ (k : nat) := nth (t - k) w 0 in
       (w ++ [add32 (add32 (ssig1 (at_ 2%nat)) (at_ 7%nat))
                    (add32 (ssig0 (at_ 15%nat)) (at_ 16%nat))])%list)
    (seq 16 48) block.

Record regs : Type := Regs
  { ra : Z; rb : Z; rc : Z; rd : Z; re : Z; rf : Z; rg : Z; rh : Z }.

Definition round (r : regs) (kw : Z * Z) : regs :=
  let t1 := add32 (add32 (add32 (rh r) (bsig1 (re r)))
                         (add32 (Ch (re r) (rf r) (rg r)) (fst kw)))
                  (snd kw) in
  let t2 := add32 (bsig0 (ra r)) (Maj (ra r) (rb r) (rc r)) in
  Regs (add32 t1 t2) (ra r) (rb r) (rc r) (add32 (rd r) t1)
       (re r) (rf r) (rg r).

Definition regs_of (h : list Z) : regs :=
  Regs (nth 0 h 0) (nth 1 h 0) (nth 2 h 0) (nth 3 h 0)
       (nth 4 h 0) (nth 5 h 0) (nth 6 h 0) (nth 7 h 0).

Definition list_of (r : regs) : list Z :=
  [ra r; rb r; rc r; rd r; re r; rf r; rg r; rh r].

Definition compress (h : list Z) (block : list Z) : list Z :=
  let r := fold_left round (combine K (schedule block)) (regs_of h) in
  map (fun p => add32 (fst p) (snd p)) (combine h (list_of r)).

(** [sha256.Sum256]: the 32-byte digest of a byte sequence. *)
Definition Sum256 (msg : list Z) : list Z :=
  let ws := words (pad msg) in
  let h := fold_left compress (blocks (List.length ws / 16) ws) H0 in
  flat_map (be_bytes 4) h.

End sha256.

(** [crypto/hmac] with SHA-256 (RFC 2104), as [hmac.New] followed by
    [Write] and [Sum(nil)]: a key longer than the block size is replaced by
    its digest, then the key is copied into a zeroed block. *)
Module hmac.

Definition key_block (key : list Z) : list Z :=
  let k := if (sha256.BlockSize <? List.length key)%nat
           then sha256.Sum256 key else key in
  (k ++ repeat 0 (sha256.BlockSize - List.length k))%list.

Definition Sum (key msg : list Z) : list Z :=
  let kb := key_block key in
  let ipad := map (Z.lxor 54) kb in
  let opad := map (Z.lxor 92) kb in
  sha256.Sum256 (opad ++ sha256.Sum256 (ipad ++ msg)).

(** [hmac.Equal]: constant-time comparison; its result is byte equality. *)
Definition Equal (a b : string) : bool := (a =? b).

End hmac.

(** [encoding/hex]. *)
Module hex.

Definition hextable : string := "0123456789abcdef".

Definition digit (d : Z) : ascii :=
  match get (Z.to_nat d) hextable with
  | Some c => c
  | None => "0"%char
  end.

Fixpoint EncodeToString (bs : list Z) : string :=
  match bs with
  | [] => EmptyString
  | b :: r => String (digit (b / 16)) (String (digit (b mod 16))
                                              (EncodeToString r))
  end.

End hex.

(** ** Package signing *)
Module signing.

(** The string that is authenticated: [fmt.Sprintf("%d.%s", timestamp,
    string(payload))]. *)
Definition toSign (timestamp : Z) (payload : string) : string :=
  decimal timestamp ++ "." ++ payload.

(** The signature text for a given timestamp; [Sign] and [Verify] both
    compute it. *)
Definition signature (secret payload : string) (timestamp : Z) : string :=
  "v1=" ++ hex.EncodeToString
             (hmac.Sum (bytes_of_string secret)
                       (bytes_of_string (toSign timestamp payload))).

(** [Sign]; [unix_now] is the value of [time.Now().Unix()]. *)
Definition Sign (unix_now : Z) (secret payload : string) : string * Z :=
  let timestamp := unix_now in
  (signature secret payload timestamp, timestamp).

Definition Verify (secret payload : string) (timestamp : Z)
                  (sig : string) : bool :=
  let expected := signature secret payload timestamp in
  hmac.Equal expected sig.

End signing.

(** ** Package models *)
Module models.

Inductive DeliveryStatus : Type :=
  | DeliveryPending
  | DeliverySuccess
  | DeliveryRetrying
  | DeliveryFailed.

Definition DeliveryStatus_eqb (a b : DeliveryStatus) : bool :=
  match a, b with
  | DeliveryPending, DeliveryPending
  | DeliverySuccess, DeliverySuccess
  | DeliveryRetrying, DeliveryRetrying
  | DeliveryFailed, DeliveryFailed => true
  | _, _ => false
  end.

(** A [time.Time] is an instant on an integer time line (nanoseconds);
    a [time.Duration] is a number of nanoseconds. *)
Definition Time : Type := Z.
Definition Duration : Type := Z.

(** A Go slice or map that may be [nil]: [None] is [nil]. *)
Definition elems {A : Type} (sl : option (list A)) : list A :=
  match sl with
  | Some l => l
  | None => []
  end.

Record Application : Type := {
  app_ID : string;
  app_Name : string;
  app_APIKey : string;
  app_CreatedAt : Time;
  app_UpdatedAt : Time
}.

Record Endpoint : Type := {
  ep_ID : string;
  ep_AppID : string;
  ep_URL : string;
  ep_Description : string;
  ep_Secret : string;
  ep_EventTypes : option (list string);
  ep_RateLimit : Z;
  ep_Metadata : option (list (string * string));
  ep_Active : bool;
  ep_CreatedAt : Time;
  ep_UpdatedAt : Time
}.

Record Message : Type := {
  msg_ID : string;
  msg_AppID : string;
  msg_EventType : string;
  msg_Payload : string;
  msg_CreatedAt : Time
}.

Record Delivery : Type := {
  d_ID : string;
  d_MessageID : string;
  d_EndpointID : string;
  d_Status : DeliveryStatus;
  d_AttemptCount : Z;
  d_NextRetryAt : option Time;
  d_CreatedAt : Time;
  d_UpdatedAt : Time
}.

(** [att_CreatedAt] is the instant that the Go code formats as RFC 3339. *)
Record Attempt : Type := {
  att_ID : string;
  att_DeliveryID : string;
  att_AttemptNumber : Z;
  att_StatusCode : Z;
  att_ResponseBody : string;
  att_LatencyMs : Z;
  att_Error : string;
  att_CreatedAt : Time
}.

(** [NewID]: [ulid] is the text of the freshly generated ULID. *)
Definition NewID (ulid : string) (prefix : string) : string :=
  prefix ++ "_" ++ ulid.

Definition charset : string :=
  "abcdefghijklmnopqrstuvwxyzABCDEFGHIJKLMNOPQRSTUVWXYZ0123456789".

(** [rand.Int(rand.Reader, max)] yields a number in [0, max); [raw] is what
    the entropy source delivers for this draw. *)
Definition rand_Int (raw : nat) (max : nat) : nat := (raw mod max)%nat.

Definition charset_at (n : nat) : ascii :=
  match get n charset with
  | Some c => c
  | None => zero
  end.

(** The loop [for i := range b { b[i] = charset[n] }] over a buffer of
    [size] bytes; [entropy i] feeds the draw of iteration [i]. *)
Definition random_string (entropy : nat -> nat) (size : nat) : string :=
  string_of_list_ascii
    (map (fun i => charset_at (rand_Int (entropy i) (length charset)))
         (seq 0 size)).

Definition NewAPIKey (entropy : nat -> nat) : string :=
  "pk_" ++ random_string entropy 32.

Definition NewSecret (entropy : nat -> nat) : string :=
  "whsec_" ++ random_string entropy 40.

End models.
Import models.

(** Go's [int] (64 bits): the value an arithmetic result wraps to. *)
Definition wrap64 (z : Z) : Z := (z + 2 ^ 63) mod 2 ^ 64 - 2 ^ 63.

(** ** Package storage (the SQLite backend) *)
Module storage.

(** The five tables, each a list of rows in insertion order. *)
Record Store : Type := {
  applications : list Application;
  endpoints : list Endpoint;
  messages : list Message;
  deliveries : list Delivery;
  attempts : list Attempt
}.

Definition empty : Store :=
  {| applications := []; endpoints := []; messages := [];
     deliveries := []; attempts := [] |}.

(** The result of a database call: [Err] is a non-nil [error].  Whether a
    call fails (I/O, a constraint of the schema) is decided outside the Go
    code; every operation takes it as the flag [io_ok]. *)
Inductive result (A : Type) : Type :=
  | Err : result A
  | Ok : A -> result A.
Arguments Err {A}.
Arguments Ok {A} _.

(** [ORDER BY]: insertion sort, stable on the insertion order of the rows. *)
Fixpoint insert_by {A : Type} (le : A -> A -> bool) (x : A) (l : list A)
  : list A :=
  match l with
  | [] => [x]
  | y :: r => if le x y then x :: l else y :: insert_by le x r
  end.

Definition sort_by {A : Type} (le : A -> A -> bool) (l : list A) : list A :=
  fold_right (insert_by le) [] l.

(** [LIMIT ?]: SQLite reads a negative limit as no limit. *)
Definition sql_limit {A : Type} (limit : Z) (rows : list A) : list A :=
  if (limit <? 0)%Z then rows else firstn (Z.to_nat limit) rows.

(** *** Endpoints *)

Definition CreateEndpoint (io_ok : bool) (ep : Endpoint) (s : Store)
  : result Store :=
  if io_ok then
    Ok {| applications := applications s;
          endpoints := (endpoints s ++ [ep])%list;
          messages := messages s;
          deliveries := deliveries s;
          attempts := attempts s |}
  else Err.

Definition GetEndpoint (io_ok : bool) (id : string) (s : Store)
  : result (option Endpoint) :=
  if io_ok then Ok (find (fun ep => ep_ID ep =? id) (endpoints s)) else Err.

Definition set_active (a : bool) (now : Time) (ep : Endpoint) : Endpoint :=
  {| ep_ID := ep_ID ep; ep_AppID := ep_AppID ep; ep_URL := ep_URL ep;
     ep_Description := ep_Description ep; ep_Secret := ep_Secret ep;
     ep_EventTypes := ep_EventTypes ep; ep_RateLimit := ep_RateLimit ep;
     ep_Metadata := ep_Metadata ep; ep_Active := a;
     ep_CreatedAt := ep_CreatedAt ep; ep_UpdatedAt := now |}.

(** [now] is the [time.Now().UTC()] of the statement. *)
Definition ToggleEndpoint (io_ok : bool) (now : Time) (id : string)
                          (active : bool) (s : Store) : result Store :=
  if io_ok then
    Ok {| applications := applications s;
          endpoints :=
            map (fun ep => if ep_ID ep =? id then set_active active now ep
                           else ep) (endpoints s);
          messages := messages s;
          deliveries := deliveries s;
          attempts := attempts s |}
  else Err.

(** [DELETE FROM endpoints WHERE id = ?]; the schema cascades the deletion
    to the deliveries of the endpoint and to their attempts. *)
Definition DeleteEndpoint (io_ok : bool) (id : string) (s : Store)
  : result Store :=
  if io_ok then
    let gone (d : Delivery) := d_EndpointID d =? id in
    Ok {| applications := applications s;
          endpoints := filter (fun ep => negb (ep_ID ep =? id)) (endpoints s);
          messages := messages s;
          deliveries := filter (fun d => negb (gone d)) (deliveries s);
          attempts :=
            filter (fun a =>
                      negb (existsb (fun d => gone d
                                              && (d_ID d =? att_DeliveryID a))
                                    (deliveries s)))
                   (attempts s) |}
  else Err.

Fixpoint matches_any (subscribed : list string) (eventType : string)
  : bool :=
  match subscribed with
  | [] => false
  | sub :: rest =>
      if sub =? eventType then true
      else if strings.HasSuffix sub ".*"
              && strings.HasPrefix eventType
                   (strings.TrimSuffix sub ".*" ++ ".")
      then true
      else if sub =? "*" then true
      else matches_any rest eventType
  end.

(** [matches_any] is the [for _, sub := range subscribed] loop. *)
Definition matchesEventType (subscribed : list string) (eventType : string)
  : bool :=
  if (List.length subscribed =? 0)%nat then true
  else matches_any subscribed eventType.

(** [SELECT ... WHERE app_id = ? AND active = 1 ORDER BY created_at DESC],
    then the filter on the event type applied row by row. *)
Definition GetEndpointsByEventType (io_ok : bool) (appID eventType : string)
                                   (s : Store) : result (list Endpoint) :=
  if io_ok then
    let rows :=
      sort_by (fun a b => (ep_CreatedAt b <=? ep_CreatedAt a)%Z)
              (filter (fun ep => (ep_AppID ep =? appID) && ep_Active ep)
                      (endpoints s)) in
    Ok (filter (fun ep => matchesEventType (elems (ep_EventTypes ep))
                                           eventType) rows)
  else Err.

(** *** Messages *)

Definition CreateMessage (io_ok : bool) (msg : Message) (s : Store)
  : result Store :=
  if io_ok then
    Ok {| applications := applications s;
          endpoints := endpoints s;
          messages := (messages s ++ [msg])%list;
          deliveries := deliveries s;
          attempts := attempts s |}
  else Err.

Definition GetMessage (io_ok : bool) (id : string) (s : Store)
  : result (option Message) :=
  if io_ok then Ok (find (fun m => msg_ID m =? id) (messages s)) else Err.

(** *** Deliveries *)

Definition CreateDelivery (io_ok : bool) (d : Delivery) (s : Store)
  : result Store :=
  if io_ok then
    Ok {| applications := applications s;
          endpoints := endpoints s;
          messages := messages s;
          deliveries := (deliveries s ++ [d])%list;
          attempts := attempts s |}
  else Err.

Definition GetDeliveriesByMessage (io_ok : bool) (messageID : string)
                                  (s : Store) : result (list Delivery) :=
  if io_ok then
    Ok (sort_by (fun a b => (d_CreatedAt a <=? d_CreatedAt b)%Z)
                (filter (fun d => d_MessageID d =? messageID)
                        (deliveries s)))
  else Err.

(** [UPDATE deliveries SET status, attempt_count, next_retry_at, updated_at
    WHERE id = ?]: the row keeps its other columns. *)
Definition updated_row (now : Time) (d row : Delivery) : Delivery :=
  {| d_ID := d_ID row; d_MessageID := d_MessageID row;
     d_EndpointID := d_EndpointID row;
     d_Status := d_Status d; d_AttemptCount := d_AttemptCount d;
     d_NextRetryAt := d_NextRetryAt d;
     d_CreatedAt := d_CreatedAt row; d_UpdatedAt := now |}.

Definition UpdateDelivery (io_ok : bool) (now : Time) (d : Delivery)
                          (s : Store) : result Store :=
  if io_ok then
    Ok {| applications := applications s;
          endpoints := endpoints s;
          messages := messages s;
          deliveries :=
            map (fun row => if d_ID row =? d_ID d then updated_row now d row
                            else row) (deliveries s);
          attempts := attempts s |}
  else Err.

(** The [WHERE] clause of the due-queue scan. *)
Definition is_due (now : Time) (d : Delivery) : bool :=
  match d_Status d with
  | DeliveryPending | DeliveryRetrying =>
      match d_NextRetryAt d with
      | None => true
      | Some t => (t <=? now)%Z
      end
  | _ => false
  end.

(** [... ORDER BY created_at ASC LIMIT ?]; [now] is the [time.Now().UTC()]
    bound to the query. *)
Definition GetPendingDeliveries (io_ok : bool) (now : Time) (limit : Z)
                                (s : Store) : result (list Delivery) :=
  if io_ok then
    Ok (sql_limit limit
          (sort_by (fun a b => (d_CreatedAt a <=? d_CreatedAt b)%Z)
                   (filter (is_due now) (deliveries s))))
  else Err.

(** *** Attempts *)

Definition CreateAttempt (io_ok : bool) (a : Attempt) (s : Store)
  : result Store :=
  if io_ok then
    Ok {| applications := applications s;
          endpoints := endpoints s;
          messages := messages s;
          deliveries := deliveries s;
          attempts := (attempts s ++ [a])%list |}
  else Err.

End storage.
Import storage.

(** ** Package delivery *)
Module delivery.

Definition Second : Duration := 1000000000.
Definition Minute : Duration := 60 * Second.
Definition Hour : Duration := 60 * Minute.

Definition DefaultRetrySchedule : list Duration :=
  [ 30 * Second; 2 * Minute; 10 * Minute; 30 * Minute;
    2 * Hour; 8 * Hour; 24 * Hour ].

(** [NextRetryTime]; [now] is its [time.Now().UTC()], [None] is the [nil]
    pointer ("no more retries"). *)
Definition NextRetryTime (now : Time) (attemptCount : Z)
                         (schedule : list Duration) : option Time :=
  let idx := wrap64 (attemptCount - 1) in
  if (idx <? 0)%Z || (Z.of_nat (List.length schedule) <=? idx)%Z then None
  else Some (now + nth (Z.to_nat idx) schedule 0).

Definition IsSuccess (statusCode : Z) : bool :=
  (200 <=? statusCode)%Z && (statusCode <? 300)%Z.

(** *** Sender *)

Record SendResult : Type := {
  StatusCode : Z;
  ResponseBody : string;
  LatencyMs : Z;
  Error : string
}.

Record HttpRequest : Type := {
  req_URL : string;
  req_Header : list (string * string);
  req_Body : string
}.

(** What [client.Do] yields: a transport error or a response. *)
Inductive HttpOutcome : Type :=
  | DoError (err : string)
  | Responded (status : Z) (body : string).

(** The outside world of one [Send]: the clock of [signing.Sign], the error
    (if any) of [http.NewRequestWithContext], the receiver, and the elapsed
    milliseconds. *)
Record SenderEnv : Type := {
  unix_now : Z;
  new_request_error : option string;
  round_trip : HttpRequest -> HttpOutcome;
  elapsed_ms : Z
}.

Definition Sender_Send (env : SenderEnv) (url secret messageID payload : string)
  : SendResult :=
  let (signature, timestamp) := signing.Sign (unix_now env) secret payload in
  match new_request_error env with
  | Some err =>
      {| StatusCode := 0; ResponseBody := "";
         LatencyMs := elapsed_ms env;
         Error := "failed to create request: " ++ err |}
  | None =>
      let req :=
        {| req_URL := url;
           req_Header :=
             [ ("Content-Type", "application/json");
               ("User-Agent", "PipeRelay/1.0");
               ("X-PipeRelay-ID", messageID);
               ("X-PipeRelay-Timestamp", decimal timestamp);
               ("X-PipeRelay-Signature", signature) ];
           req_Body := payload |} in
      match round_trip env req with
      | DoError err =>
          {| StatusCode := 0; ResponseBody := "";
             LatencyMs := elapsed_ms env;
             Error := "request failed: " ++ err |}
      | Responded status body =>
          {| StatusCode := status;
             ResponseBody := strings.slice body 0 1024;
             LatencyMs := elapsed_ms env;
             Error := "" |}
      end
  end.

(** *** Worker *)

Record Worker : Type := {
  maxAttempts : Z;
  retrySchedule : list Duration
}.

Definition NewWorker (maxAttempts : Z) (retrySchedule : list Duration)
  : Worker :=
  {| maxAttempts := maxAttempts; retrySchedule := retrySchedule |}.

(** The outside world of one [Process]. *)
Record ProcessEnv : Type := {
  get_message_ok : bool;
  get_endpoint_ok : bool;
  sender : SenderEnv;
  attempt_now : Time;          (* [now], line 51 *)
  attempt_ulid : string;
  create_attempt_ok : bool;
  retry_now : Time;            (* the clock read by [NextRetryTime] *)
  update_ok : bool;
  update_now : Time            (* the clock read by [UpdateDelivery] *)
}.

(** A Go function either returns or panics; both leave a store behind. *)
Inductive Outcome : Type :=
  | Returned (s : Store)
  | Panicked (s : Store).

Definition store_of (o : Outcome) : Store :=
  match o with
  | Returned s => s
  | Panicked s => s
  end.

Definition set_state (d : Delivery) (st : DeliveryStatus)
                     (next : option Time) : Delivery :=
  {| d_ID := d_ID d; d_MessageID := d_MessageID d;
     d_EndpointID := d_EndpointID d; d_Status := st;
     d_AttemptCount := d_AttemptCount d; d_NextRetryAt := next;
     d_CreatedAt := d_CreatedAt d; d_UpdatedAt := d_UpdatedAt d |}.

Definition incr_AttemptCount (d : Delivery) : Delivery :=
  {| d_ID := d_ID d; d_MessageID := d_MessageID d;
     d_EndpointID := d_EndpointID d; d_Status := d_Status d;
     d_AttemptCount := wrap64 (d_AttemptCount d + 1);
     d_NextRetryAt := d_NextRetryAt d;
     d_CreatedAt := d_CreatedAt d; d_UpdatedAt := d_UpdatedAt d |}.

(** A store write whose error is only logged. *)
Definition logged (r : result Store) (s : Store) : Store :=
  match r with
  | Ok s' => s'
  | Err => s
  end.

(** The tail of [Process], lines 68-96: the local copy [d] (attempt count
    already incremented) is advanced and written back.  In the last branch
    the log statement evaluates [*d.NextRetryAt] before the write: a [nil]
    pointer there is a run-time panic. *)
Definition advance (w : Worker) (env : ProcessEnv) (result : SendResult)
                   (d : Delivery) (s : Store) : Outcome :=
  let write d := Returned (logged (UpdateDelivery (update_ok env)
                                     (update_now env) d s) s) in
  if (Error result =? "") && IsSuccess (StatusCode result) then
    write (set_state d DeliverySuccess None)
  else if (maxAttempts w <=? d_AttemptCount d)%Z then
    write (set_state d DeliveryFailed None)
  else
    let d := set_state d DeliveryRetrying
               (NextRetryTime (retry_now env) (d_AttemptCount d)
                              (retrySchedule w)) in
    match d_NextRetryAt d with
    | None => Panicked s
    | Some _ => write d
    end.

(** The [Attempt] literal of lines 53-62; [d] has its count incremented. *)
Definition new_attempt (env : ProcessEnv) (d : Delivery)
                       (result : SendResult) : Attempt :=
  let now := attempt_now env in
  {| att_ID := NewID (attempt_ulid env) "att";
     att_DeliveryID := d_ID d;
     att_AttemptNumber := d_AttemptCount d;
     att_StatusCode := StatusCode result;
     att_ResponseBody := ResponseBody result;
     att_LatencyMs := LatencyMs result;
     att_Error := Error result;
     att_CreatedAt := now |}.

Definition Worker_Process (w : Worker) (env : ProcessEnv) (d : Delivery)
                          (s : Store) : Outcome :=
  match GetMessage (get_message_ok env) (d_MessageID d) s with
  | Ok (Some msg) =>
      match GetEndpoint (get_endpoint_ok env) (d_EndpointID d) s with
      | Ok (Some ep) =>
          if negb (ep_Active ep) then Returned s
          else
            let result := Sender_Send (sender env) (ep_URL ep) (ep_Secret ep)
                                      (msg_ID msg) (msg_Payload msg) in
            let d := incr_AttemptCount d in
            let attempt := new_attempt env d result in
            let s := logged (CreateAttempt (create_attempt_ok env) attempt s)
                            s in
            advance w env result d s
      | _ => Returned s
      end
  | _ => Returned s
  end.

(** *** Pool: how the worker is configured *)

Record DeliveryConfig : Type := {
  Workers : Z;
  Timeout : Duration;
  MaxAttempts : Z;
  RetrySchedule : list Duration
}.

Record Pool : Type := {
  worker : Worker;
  workers : Z;
  pollRate : Duration
}.

Definition NewPool (cfg : DeliveryConfig) : Pool :=
  let schedule :=
    if (List.length (RetrySchedule cfg) =? 0)%nat then DefaultRetrySchedule
    else RetrySchedule cfg in
  {| worker := NewWorker (MaxAttempts cfg) schedule;
     workers := Workers cfg;
     pollRate := 1 * Second |}.

End delivery.
Import delivery.

(** [net/url]: the two components of a parsed URL that the handlers read. *)
Module url.

Record URL : Type := {
  Scheme : string;
  Host : string
}.

End url.

(** ** Package api *)
Module api.

(** What a handler writes: a status code and a JSON document. *)
Inductive Body : Type :=
  | ErrorBody (error : string)
  | AcceptedBody (message : Message) (deliveries : Z)
  | RetriedBody (retried : Z)
  | EndpointBody (ep : Endpoint).

Record Response : Type := {
  status : Z;
  body : Body
}.

Definition writeJSON (status : Z) (data : Body) : Response :=
  {| status := status; body := data |}.

Definition writeError (status : Z) (message : string) : Response :=
  writeJSON status (ErrorBody message).

(** *** MessageHandler *)

Record sendMessageRequest : Type := {
  EventType : string;
  Payload : string
}.

Definition maxPayloadSize : Z := 256 * 1024.

(** A request body as [encoding/json] reads it: [json_len] is the number of
    bytes from the start of the body to the end of its first JSON value (as
    far as [Decode] has to read), [json_req] is what [Decode] stores in the
    request struct when it can read that far ([None]: the bytes are not a
    JSON document for the struct). *)
Record SendBody : Type := {
  json_len : Z;
  json_req : option sendMessageRequest
}.

(** [json.NewDecoder(http.MaxBytesReader(w, r.Body, limit)).Decode(&req)]:
    the reader fails once more than [limit] bytes are asked of it. *)
Definition DecodeLimited (limit : Z) (b : SendBody)
  : option sendMessageRequest :=
  if (json_len b <=? limit)%Z then json_req b else None.

(** The request as the handler sees it; [ctx_app] is [AppFromContext]. *)
Record SendHttp : Type := {
  ctx_app : option Application;
  send_body : SendBody
}.

(** The outside world of one [Send]; [dlv_ulid i] and [create_delivery_ok i]
    belong to iteration [i] of the fan-out loop. *)
Record SendEnv : Type := {
  send_now : Time;
  msg_ulid : string;
  create_message_ok : bool;
  get_endpoints_ok : bool;
  dlv_ulid : nat -> string;
  create_delivery_ok : nat -> bool
}.

(** The [Message] literal of [Send]. *)
Definition new_message (env : SendEnv) (app : Application)
                       (req : sendMessageRequest) : Message :=
  let now := send_now env in
  {| msg_ID := NewID (msg_ulid env) "msg";
     msg_AppID := app_ID app;
     msg_EventType := EventType req;
     msg_Payload := Payload req;
     msg_CreatedAt := now |}.

(** The [Delivery] literal of the fan-out loop, in iteration [i]. *)
Definition new_delivery (env : SendEnv) (msg : Message) (now : Time)
                        (i : nat) (ep : Endpoint) : Delivery :=
  {| d_ID := NewID (dlv_ulid env i) "dlv";
     d_MessageID := msg_ID msg;
     d_EndpointID := ep_ID ep;
     d_Status := DeliveryPending;
     d_AttemptCount := 0;
     d_NextRetryAt := None;
     d_CreatedAt := now;
     d_UpdatedAt := now |}.

(** The loop [for _, ep := range endpoints] of [Send], from iteration [i]
    on, with the slice [deliveries] built so far. *)
Fixpoint fan_out (env : SendEnv) (msg : Message) (now : Time)
                 (endpoints : list Endpoint) (i : nat)
                 (deliveries : list Delivery) (s : Store)
  : Response * Store :=
  match endpoints with
  | [] =>
      (writeJSON 202 (AcceptedBody msg (Z.of_nat (List.length deliveries))),
       s)
  | ep :: rest =>
      let d := new_delivery env msg now i ep in
      match CreateDelivery (create_delivery_ok env i) d s with
      | Err => (writeError 500 "failed to create delivery", s)
      | Ok s' => fan_out env msg now rest (S i) (deliveries ++ [d])%list s'
      end
  end.

Definition MessageHandler_Send (env : SendEnv) (r : SendHttp) (s : Store)
  : Response * Store :=
  match ctx_app r with
  | None => (writeError 401 "unauthorized", s)
  | Some app =>
      match DecodeLimited maxPayloadSize (send_body r) with
      | None => (writeError 400 "invalid request body", s)
      | Some req =>
          if EventType req =? "" then
            (writeError 400 "event_type is required", s)
          else if (length (Payload req) =? 0)%nat then
            (writeError 400 "payload is required", s)
          else
            let now := send_now env in
            let msg := new_message env app req in
            match CreateMessage (create_message_ok env) msg s with
            | Err => (writeError 500 "failed to create message", s)
            | Ok s =>
                match GetEndpointsByEventType (get_endpoints_ok env)
                        (app_ID app) (EventType req) s with
                | Err => (writeError 500 "failed to find endpoints", s)
                | Ok endpoints => fan_out env msg now endpoints 0 [] s
                end
            end
      end
  end.

(** The outside world of one [Retry]; [retry_update_ok i] and
    [retry_update_now i] belong to iteration [i] of its loop. *)
Record RetryEnv : Type := {
  retry_get_message_ok : bool;
  retry_get_deliveries_ok : bool;
  retry_time : Time;
  retry_update_ok : nat -> bool;
  retry_update_now : nat -> Time
}.

(** The loop [for _, d := range deliveries] of [Retry]. *)
Fixpoint retry_loop (env : RetryEnv) (now : Time) (ds : list Delivery)
                    (i : nat) (retried : Z) (s : Store) : Z * Store :=
  match ds with
  | [] => (retried, s)
  | d :: rest =>
      match d_Status d with
      | DeliveryFailed =>
          let d := set_state d DeliveryRetrying (Some now) in
          match UpdateDelivery (retry_update_ok env i)
                               (retry_update_now env i) d s with
          | Err => retry_loop env now rest (S i) retried s
          | Ok s' => retry_loop env now rest (S i) (retried + 1) s'
          end
      | _ => retry_loop env now rest (S i) retried s
      end
  end.

Definition MessageHandler_Retry (env : RetryEnv) (id : string) (s : Store)
  : Response * Store :=
  match GetMessage (retry_get_message_ok env) id s with
  | Err => (writeError 500 "failed to get message", s)
  | Ok None => (writeError 404 "message not found", s)
  | Ok (Some msg) =>
      match GetDeliveriesByMessage (retry_get_deliveries_ok env) id s with
      | Err => (writeError 500 "failed to get deliveries", s)
      | Ok deliveries =>
          let now := retry_time env in
          let (retried, s') := retry_loop env now deliveries 0 0 s in
          (writeJSON 200 (RetriedBody retried), s')
      end
  end.

(** *** EndpointHandler *)

Record createEndpointRequest : Type := {
  URL : string;
  Description : string;
  EventTypes : option (list string);
  RateLimit : Z;
  Metadata : option (list (string * string))
}.

(** The JSON object a client posts.  Beside the members that the request
    struct names, a client may send members called [secret] and [active];
    [encoding/json] drops every member for which the struct has no field. *)
Record EndpointJSON : Type := {
  j_url : string;
  j_description : string;
  j_event_types : option (list string);
  j_rate_limit : Z;
  j_metadata : option (list (string * string));
  j_secret : option string;
  j_active : option bool
}.

Definition decode_createEndpointRequest (j : EndpointJSON)
  : createEndpointRequest :=
  {| URL := j_url j; Description := j_description j;
     EventTypes := j_event_types j; RateLimit := j_rate_limit j;
     Metadata := j_metadata j |}.

(** [create_body] is [None] when the body is not valid JSON. *)
Record CreateHttp : Type := {
  create_app : option Application;
  create_body : option EndpointJSON
}.

Record CreateEnv : Type := {
  create_now : Time;
  ep_ulid : string;
  secret_entropy : nat -> nat;
  create_endpoint_ok : bool
}.

Definition EndpointHandler_Create (url_Parse : string -> option url.URL)
                                  (env : CreateEnv) (r : CreateHttp)
                                  (s : Store) : Response * Store :=
  match create_app r with
  | None => (writeError 401 "unauthorized", s)
  | Some app =>
      match option_map decode_createEndpointRequest (create_body r) with
      | None => (writeError 400 "invalid request body", s)
      | Some req =>
          if URL req =? "" then (writeError 400 "url is required", s)
          else
            let valid :=
              match url_Parse (URL req) with
              | None => false
              | Some u =>
                  ((url.Scheme u =? "http") || (url.Scheme u =? "https"))
                  && negb (url.Host u =? "")
              end in
            if negb valid then
              (writeError 400 "url must be a valid HTTP or HTTPS URL", s)
            else
              let now := create_now env in
              let ep :=
                {| ep_ID := NewID (ep_ulid env) "ep";
                   ep_AppID := app_ID app;
                   ep_URL := URL req;
                   ep_Description := Description req;
                   ep_Secret := NewSecret (secret_entropy env);
                   ep_EventTypes :=
                     match EventTypes req with
                     | None => Some []
                     | Some l => Some l
                     end;
                   ep_RateLimit := RateLimit req;
                   ep_Metadata :=
                     match Metadata req with
                     | None => Some []
                     | Some m => Some m
                     end;
                   ep_Active := true;
                   ep_CreatedAt := now;
                   ep_UpdatedAt := now |} in
              match CreateEndpoint (create_endpoint_ok env) ep s with
              | Err => (writeError 500 "failed to create endpoint", s)
              | Ok s' => (writeJSON 201 (EndpointBody ep), s')
              end
      end
  end.

End api.
Import api.

(** ** The system: the operations that change the store *)
Section System.

Variable url_Parse : string -> option url.URL.
Variable w : Worker.

(** One operation.  The worker processes a delivery that the due-queue scan
    returned for the current store.  [manual] tells whether the manual
    retry is among the operations. *)
Inductive step (manual : bool) : Store -> Store -> Prop :=
  | step_create : forall env r s,
      step manual s (snd (EndpointHandler_Create url_Parse env r s))
  | step_toggle : forall now id active s s',
      ToggleEndpoint true now id active s = Ok s' ->
      step manual s s'
  | step_delete : forall id s s',
      DeleteEndpoint true id s = Ok s' ->
      step manual s s'
  | step_send : forall env r s,
      step manual s (snd (MessageHandler_Send env r s))
  | step_process : forall env now limit ds d s,
      GetPendingDeliveries true now limit s = Ok ds ->
      In d ds ->
      step manual s (store_of (Worker_Process w env d s))
  | step_retry : forall env id s,
      manual = true ->
      step manual s (snd (MessageHandler_Retry env id s)).

(** The stores the system can be in, starting from the empty database. *)
Inductive reachable (manual : bool) : Store -> Prop :=
  | reachable_empty : reachable manual storage.empty
  | reachable_step : forall s s',
      reachable manual s -> step manual s s' -> reachable manual s'.

End System.

(** ** The matching rule in the words of the specification

    [*] matches any event type; [prefix.*] matches iff the event type equals
    [prefix] or starts with [prefix.]; any other subscription matches by
    equality; the empty list matches everything. *)
Definition spec_rule (sub eventType : string) : bool :=
  if sub =? "*" then true
  else if strings.HasSuffix sub ".*" then
    let prefix := strings.TrimSuffix sub ".*" in
    (eventType =? prefix) || strings.HasPrefix eventType (prefix ++ ".")
  else sub =? eventType.

Definition spec_match (subs : list string) (eventType : string) : bool :=
  match subs with
  | [] => true
  | _ => existsb (fun sub => spec_rule sub eventType) subs
  end.

(** ** Predicates and runs that the statements use *)

(** The rules under which one subscription string accepts an event type,
    as the code has them. *)
Definition rule_fires (sub eventType : string) : Prop :=
  sub = eventType
  \/ (exists p r, sub = p ++ ".*" /\ eventType = p ++ "." ++ r)
  \/ sub = "*".

Definition NUL : string := String zero EmptyString.

(** The inverse of [hex.EncodeToString] (Go's [hex.DecodeString] on
    lowercase input); it is used to show that the encoding loses nothing. *)
Fixpoint hex_position (c : ascii) (table : string) (i : Z) : Z :=
  match table with
  | EmptyString => i
  | String x r => if Ascii.eqb x c then i else hex_position c r (i + 1)
  end.

Definition hex_value (c : ascii) : Z := hex_position c hex.hextable 0.

Fixpoint hex_decode (s : string) : list Z :=
  match s with
  | String a (String b r) => (16 * hex_value a + hex_value b) :: hex_decode r
  | _ => []
  end.

Definition is_byte (b : Z) : Prop := 0 <= b < 256.

(** The condition under which a delivery is due at [now]. *)
Definition due (now : Time) (d : Delivery) : Prop :=
  (d_Status d = DeliveryPending \/ d_Status d = DeliveryRetrying)
  /\ (d_NextRetryAt d = None
      \/ exists t, d_NextRetryAt d = Some t /\ t <= now).

(** Ascending order of a key, as [ORDER BY key ASC] gives it. *)
Definition key_le {A : Type} (key : A -> Z) (a b : A) : Prop :=
  key a <= key b.

(** One tick of the poll loop with the oldest due delivery handed to the
    worker: [GetPendingDeliveries] at [now], then [Process]. *)
Definition poll_first (w : Worker) (env : ProcessEnv) (now : Time)
                      (limit : Z) (s : Store) : Outcome :=
  match GetPendingDeliveries true now limit s with
  | Ok (d :: _) => Worker_Process w env d s
  | _ => Returned s
  end.

(** ** A concrete run

    One application with one endpoint subscribed to [order.*]; a message
    [order.created] is ingested; the receiver answers 500 to every
    delivery. *)
Module scenario.

(** A stand-in for [url.Parse] on URLs of the form [https://host...]. *)
Definition parse (u : string) : option url.URL :=
  if strings.HasPrefix u "https://" then
    Some {| url.Scheme := "https";
            url.Host := strings.slice u 8 (length u) |}
  else None.

Definition app : Application :=
  {| app_ID := "app_A"; app_Name := "shop"; app_APIKey := "pk_test";
     app_CreatedAt := 0; app_UpdatedAt := 0 |}.

Definition endpoint_json : EndpointJSON :=
  {| j_url := "https://example.com/hook";
     j_description := "orders";
     j_event_types := Some ["order.*"];
     j_rate_limit := 0;
     j_metadata := None;
     j_secret := Some "chosen-by-client";
     j_active := Some false |}.

Definition create_req : CreateHttp :=
  {| create_app := Some app; create_body := Some endpoint_json |}.

Definition create_env : CreateEnv :=
  {| create_now := 1 * Second; ep_ulid := "01E";
     secret_entropy := fun i => (7 * i + 3)%nat;
     create_endpoint_ok := true |}.

Definition send_req : SendHttp :=
  {| ctx_app := Some app;
     send_body :=
       {| json_len := 43;
          json_req := Some {| EventType := "order.created";
                              Payload := "{}" |} |} |}.

Definition send_env : SendEnv :=
  {| send_now := 10 * Second; msg_ulid := "01M";
     create_message_ok := true; get_endpoints_ok := true;
     dlv_ulid := fun i => "01D" ++ decimal (Z.of_nat i);
     create_delivery_ok := fun _ => true |}.

(** The receiver answers [code] at time [t]. *)
Definition answering (code : Z) (t : Time) : ProcessEnv :=
  {| get_message_ok := true; get_endpoint_ok := true;
     sender := {| unix_now := t / Second; new_request_error := None;
                  round_trip := fun _ => Responded code "";
                  elapsed_ms := 40 |};
     attempt_now := t; attempt_ulid := "01A" ++ decimal t;
     create_attempt_ok := true;
     retry_now := t; update_ok := true; update_now := t |}.

Definition retry_env : RetryEnv :=
  {| retry_get_message_ok := true; retry_get_deliveries_ok := true;
     retry_time := 20 * Second;
     retry_update_ok := fun _ => true;
     retry_update_now := fun _ => 20 * Second |}.

(** Two attempts at most, one second between them. *)
Definition w2 : Worker := NewWorker 2 [1 * Second].

Definition s1 : Store :=
  snd (EndpointHandler_Create parse create_env create_req storage.empty).
Definition s2 : Store := snd (MessageHandler_Send send_env send_req s1).
Definition s3 : Store :=
  store_of (poll_first w2 (answering 500 (11 * Second)) (11 * Second) 50 s2).
Definition s4 : Store :=
  store_of (poll_first w2 (answering 500 (13 * Second)) (13 * Second) 50 s3).
Definition s5 : Store := snd (MessageHandler_Retry retry_env "msg_01M" s4).
Definition s6 : Store :=
  store_of (poll_first w2 (answering 500 (21 * Second)) (21 * Second) 50 s5).

(** The default of eight attempts with a schedule of a single delay. *)
Definition cfg8 : DeliveryConfig :=
  {| Workers := 50; Timeout := 30 * Second; MaxAttempts := 8;
     RetrySchedule := [30 * Second] |}.

Definition w8 : Worker := worker (NewPool cfg8).

Definition t3 : Store :=
  store_of (poll_first w8 (answering 500 (11 * Second)) (11 * Second) 50 s2).

(** The delivery as it stands in [s4]. *)
Definition failed_twice : Delivery :=
  {| d_ID := "dlv_01D0"; d_MessageID := "msg_01M"; d_EndpointID := "ep_01E";
     d_Status := DeliveryFailed; d_AttemptCount := 2; d_NextRetryAt := None;
     d_CreatedAt := 10 * Second; d_UpdatedAt := 13 * Second |}.

(** A second endpoint, subscribed to everything, and an ingest whose
    second delivery write fails. *)
Definition create_req_all : CreateHttp :=
  {| create_app := Some app;
     create_body :=
       Some {| j_url := "https://example.org/all";
               j_description := "audit";
               j_event_types := None;
               j_rate_limit := 0;
               j_metadata := None;
               j_secret := None;
               j_active := None |} |}.

Definition create_env_all : CreateEnv :=
  {| create_now := 2 * Second; ep_ulid := "01F";
     secret_entropy := fun i => (11 * i + 5)%nat;
     create_endpoint_ok := true |}.

Definition two_endpoints : Store :=
  snd (EndpointHandler_Create parse create_env_all create_req_all s1).

Definition send_env_second_fails : SendEnv :=
  {| send_now := 10 * Second; msg_ulid := "01M";
     create_message_ok := true; get_endpoints_ok := true;
     dlv_ulid := fun i => "01D" ++ decimal (Z.of_nat i);
     create_delivery_ok := fun i => (i =? 0)%nat |}.





End scenario.

(** An attempt counts as a success when there is no error and the status
    code is a 2xx. *)
Definition successful (result : SendResult) : Prop :=
  Error result = "" /\ 200 <= StatusCode result < 300.

(** The range of a Go [int]. *)
Definition is_int (z : Z) : Prop := - 2 ^ 63 <= z < 2 ^ 63.

(** A row as the fan-out creates it. *)
Definition fresh (d : Delivery) : Prop :=
  d_Status d = DeliveryPending
  /\ d_AttemptCount d = 0
  /\ d_NextRetryAt d = None.

(** A failed row has no retry time and has used up the attempts. *)
Definition failed_ok (w : Worker) (d : Delivery) : Prop :=
  d_Status d = DeliveryFailed ->
  d_NextRetryAt d = None /\ maxAttempts w <= d_AttemptCount d.

(** The stronger condition that holds as long as nobody retries by hand. *)
Definition counted (w : Worker) (d : Delivery) : Prop :=
  0 <= d_AttemptCount d
  /\ (d_Status d = DeliveryPending \/ d_Status d = DeliveryRetrying ->
      d_AttemptCount d < maxAttempts w)
  /\ (d_Status d = DeliveryFailed ->
      d_NextRetryAt d = None /\ d_AttemptCount d = maxAttempts w).

(** The store with one more message, and with more deliveries. *)
Definition add_message (s : Store) (msg : Message) : Store :=
  {| applications := applications s;
     endpoints := endpoints s;
     messages := (messages s ++ [msg])%list;
     deliveries := deliveries s;
     attempts := attempts s |}.

Definition add_deliveries (s : Store) (ds : list Delivery) : Store :=
  {| applications := applications s;
     endpoints := endpoints s;
     messages := messages s;
     deliveries := (deliveries s ++ ds)%list;
     attempts := attempts s |}.

(** The deliveries that the fan-out loop builds for [eps], one per
    endpoint, starting at iteration [i]. *)
Fixpoint made (env : SendEnv) (msg : Message) (now : Time) (i : nat)
              (eps : list Endpoint) : list Delivery :=
  match eps with
  | [] => []
  | ep :: rest => new_delivery env msg now i ep :: made env msg now (S i) rest
  end.

(** The endpoints a message of [app] with type [eventType] is meant for. *)
Definition subscribed (appID eventType : string) (ep : Endpoint) : bool :=
  (ep_AppID ep =? appID) && ep_Active ep
  && matchesEventType (elems (ep_EventTypes ep)) eventType.


(** ASCII letters and digits. *)
Definition is_alnum (c : ascii) : bool :=
  let n := nat_of_ascii c in
  ((48 <=? n) && (n <=? 57) || (65 <=? n) && (n <=? 90)
   || (97 <=? n) && (n <=? 122))%nat.

Fixpoint all_alnum (s : string) : bool :=
  match s with
  | EmptyString => true
  | String c r => is_alnum c && all_alnum r
  end.



(** ** Package storage: the remaining operations *)
Module storage_more.

(** [strings.TrimPrefix]. *)
Definition TrimPrefix (s prefix : string) : string :=
  if strings.HasPrefix s prefix then strings.slice s (length prefix) (length s)
  else s.

(** [OFFSET ?]: SQLite reads a negative offset as zero. *)
Definition sql_offset {A : Type} (offset : Z) (rows : list A) : list A :=
  skipn (Z.to_nat offset) rows.

(** *** Applications *)

Definition CreateApplication (io_ok : bool) (app : Application) (s : Store)
  : result Store :=
  if io_ok then
    Ok {| applications := (applications s ++ [app])%list;
          endpoints := endpoints s;
          messages := messages s;
          deliveries := deliveries s;
          attempts := attempts s |}
  else Err.

Definition GetApplication (io_ok : bool) (id : string) (s : Store)
  : result (option Application) :=
  if io_ok then Ok (find (fun a => app_ID a =? id) (applications s)) else Err.

Definition GetApplicationByAPIKey (io_ok : bool) (apiKey : string)
                                  (s : Store) : result (option Application) :=
  if io_ok then Ok (find (fun a => app_APIKey a =? apiKey) (applications s))
  else Err.

Definition ListApplications (io_ok : bool) (s : Store)
  : result (list Application) :=
  if io_ok then
    Ok (sort_by (fun a b => (app_CreatedAt b <=? app_CreatedAt a)%Z)
                (applications s))
  else Err.

(** [DELETE FROM applications WHERE id = ?]; the schema cascades to the
    endpoints and messages of the application, from those to their
    deliveries, and from the deliveries to their attempts. *)
Definition DeleteApplication (io_ok : bool) (id : string) (s : Store)
  : result Store :=
  if io_ok then
    let gone_d (d : Delivery) :=
      existsb (fun ep => (ep_AppID ep =? id) && (ep_ID ep =? d_EndpointID d))
              (endpoints s)
      || existsb (fun m => (msg_AppID m =? id) && (msg_ID m =? d_MessageID d))
                 (messages s) in
    Ok {| applications :=
            filter (fun a => negb (app_ID a =? id)) (applications s);
          endpoints := filter (fun ep => negb (ep_AppID ep =? id)) (endpoints s);
          messages := filter (fun m => negb (msg_AppID m =? id)) (messages s);
          deliveries := filter (fun d => negb (gone_d d)) (deliveries s);
          attempts :=
            filter (fun a =>
                      negb (existsb (fun d => gone_d d
                                              && (d_ID d =? att_DeliveryID a))
                                    (deliveries s)))
                   (attempts s) |}
  else Err.

Definition set_APIKey (key : string) (now : Time) (a : Application)
  : Application :=
  {| app_ID := app_ID a; app_Name := app_Name a; app_APIKey := key;
     app_CreatedAt := app_CreatedAt a; app_UpdatedAt := now |}.

Definition UpdateApplicationAPIKey (io_ok : bool) (now : Time)
                                   (id newKey : string) (s : Store)
  : result Store :=
  if io_ok then
    Ok {| applications :=
            map (fun a => if app_ID a =? id then set_APIKey newKey now a
                          else a) (applications s);
          endpoints := endpoints s;
          messages := messages s;
          deliveries := deliveries s;
          attempts := attempts s |}
  else Err.

(** *** Endpoints *)

Definition ListEndpoints (io_ok : bool) (appID : string) (s : Store)
  : result (list Endpoint) :=
  if io_ok then
    Ok (sort_by (fun a b => (ep_CreatedAt b <=? ep_CreatedAt a)%Z)
                (filter (fun ep => ep_AppID ep =? appID) (endpoints s)))
  else Err.

(** [UPDATE endpoints SET url, description, event_types, rate_limit,
    metadata, active, updated_at WHERE id = ?]. *)
Definition updated_endpoint (now : Time) (ep row : Endpoint) : Endpoint :=
  {| ep_ID := ep_ID row; ep_AppID := ep_AppID row;
     ep_URL := ep_URL ep; ep_Description := ep_Description ep;
     ep_Secret := ep_Secret row;
     ep_EventTypes := ep_EventTypes ep; ep_RateLimit := ep_RateLimit ep;
     ep_Metadata := ep_Metadata ep; ep_Active := ep_Active ep;
     ep_CreatedAt := ep_CreatedAt row; ep_UpdatedAt := now |}.

Definition UpdateEndpoint (io_ok : bool) (now : Time) (ep : Endpoint)
                          (s : Store) : result Store :=
  if io_ok then
    Ok {| applications := applications s;
          endpoints :=
            map (fun row => if ep_ID row =? ep_ID ep
                            then updated_endpoint now ep row else row)
                (endpoints s);
          messages := messages s;
          deliveries := deliveries s;
          attempts := attempts s |}
  else Err.

(** *** Messages *)

Definition ListMessages (io_ok : bool) (appID : string) (limit offset : Z)
                        (s : Store) : result (list Message) :=
  let limit := if (limit <=? 0)%Z then 50 else limit in
  if io_ok then
    Ok (sql_limit limit
          (sql_offset offset
             (sort_by (fun a b => (msg_CreatedAt b <=? msg_CreatedAt a)%Z)
                      (filter (fun m => msg_AppID m =? appID) (messages s)))))
  else Err.

(** *** Deliveries and attempts *)

Definition GetDelivery (io_ok : bool) (id : string) (s : Store)
  : result (option Delivery) :=
  if io_ok then Ok (find (fun d => d_ID d =? id) (deliveries s)) else Err.

Definition GetAttemptsByDelivery (io_ok : bool) (deliveryID : string)
                                 (s : Store) : result (list Attempt) :=
  if io_ok then
    Ok (sort_by (fun a b => (att_AttemptNumber a <=? att_AttemptNumber b)%Z)
                (filter (fun a => att_DeliveryID a =? deliveryID)
                        (attempts s)))
  else Err.

(** *** Stats *)

(** [SuccessRate] is the [float64] value 100 * n / d; it is kept as the
    pair (n, d) it is computed from, [None] being the zero value. *)
Record Stats : Type := {
  TotalMessages : Z;
  TotalDeliveries : Z;
  SuccessCount : Z;
  FailedCount : Z;
  PendingCount : Z;
  SuccessRate : option (Z * Z);
  TotalEndpoints : Z;
  ActiveEndpoints : Z
}.

(** [SELECT COUNT( * )]. *)
Definition count {A : Type} (rows : list A) : Z := Z.of_nat (List.length rows).

(** [deliveries d JOIN messages m ON d.message_id = m.id WHERE m.app_id = ?
    AND ...]: the pairs of a delivery that satisfies [cond] and a message of
    the application that it belongs to. *)
Definition joined (appID : string) (cond : Delivery -> bool) (s : Store)
  : list (Delivery * Message) :=
  filter (fun p => (d_MessageID (fst p) =? msg_ID (snd p))
                   && (msg_AppID (snd p) =? appID) && cond (fst p))
         (list_prod (deliveries s) (messages s)).

(** [GetStats] drops the error of every query: a query that fails leaves
    its counter at zero, and the function never returns an error.
    [query_ok i] tells whether the [i]-th query succeeds. *)
Definition GetStats (query_ok : nat -> bool) (appID : string) (s : Store)
  : result Stats :=
  let scan (i : nat) (n : Z) := if query_ok i then n else 0 in
  let has (st : DeliveryStatus) (d : Delivery) :=
    DeliveryStatus_eqb (d_Status d) st in
  let total := scan 1%nat (count (joined appID (fun _ => true) s)) in
  let success := scan 2%nat (count (joined appID (has DeliverySuccess) s)) in
  Ok {| TotalMessages :=
          scan 0%nat
               (count (filter (fun m => msg_AppID m =? appID) (messages s)));
        TotalDeliveries := total;
        SuccessCount := success;
        FailedCount := scan 3%nat (count (joined appID (has DeliveryFailed) s));
        PendingCount :=
          scan 4%nat
               (count (joined appID
                         (fun d => has DeliveryPending d
                                   || has DeliveryRetrying d) s));
        SuccessRate := if (0 <? total)%Z then Some (success, total) else None;
        TotalEndpoints :=
          scan 5%nat
               (count (filter (fun ep => ep_AppID ep =? appID) (endpoints s)));
        ActiveEndpoints :=
          scan 6%nat
               (count (filter (fun ep => (ep_AppID ep =? appID)
                                         && ep_Active ep) (endpoints s))) |}.

End storage_more.
Import storage_more.

(** ** Package api: the remaining handlers *)
Module api_more.

(** What a handler writes: [writeError], [writeJSON] with the value of the
    handler's own type, or a bare status line. *)
Inductive Reply (A : Type) : Type :=
  | ReplyError (code : Z) (error : string)
  | ReplyJSON (code : Z) (data : A)
  | ReplyStatus (code : Z).
Arguments ReplyError {A} _ _.
Arguments ReplyJSON {A} _ _.
Arguments ReplyStatus {A} _.

(** *** Middleware *)

(** [AuthMiddleware]: either it answers itself, or it hands the request on
    with the application in its context.  [auth] is the value of the
    [Authorization] header (empty when the header is absent). *)
Inductive Auth : Type :=
  | Rejected (code : Z) (error : string)
  | Passed (app : Application).

Definition AuthMiddleware (io_ok : bool) (auth : string) (s : Store) : Auth :=
  if auth =? "" then Rejected 401 "missing authorization header"
  else
    let apiKey := TrimPrefix auth "Bearer " in
    if apiKey =? auth then
      Rejected 401 "invalid authorization format, use: Bearer <api_key>"
    else
      match GetApplicationByAPIKey io_ok apiKey s with
      | Err => Rejected 500 "internal error"
      | Ok None => Rejected 401 "invalid api key"
      | Ok (Some app) => Passed app
      end.

(** *** ApplicationHandler *)

Record createAppRequest : Type := {
  Name : string
}.

Record CreateAppEnv : Type := {
  app_now : Time;
  app_ulid : string;
  key_entropy : nat -> nat;
  create_application_ok : bool
}.

(** [body] is [None] when the request body is not valid JSON. *)
Definition ApplicationHandler_Create (env : CreateAppEnv)
                                     (body : option createAppRequest)
                                     (s : Store)
  : Reply Application * Store :=
  match body with
  | None => (ReplyError 400 "invalid request body", s)
  | Some req =>
      if Name req =? "" then (ReplyError 400 "name is required", s)
      else
        let now := app_now env in
        let app :=
          {| app_ID := NewID (app_ulid env) "app";
             app_Name := Name req;
             app_APIKey := NewAPIKey (key_entropy env);
             app_CreatedAt := now;
             app_UpdatedAt := now |} in
        match CreateApplication (create_application_ok env) app s with
        | Err => (ReplyError 500 "failed to create application", s)
        | Ok s' => (ReplyJSON 201 app, s')
        end
  end.

(** [app.APIKey = ""]. *)
Definition hide_key (a : Application) : Application :=
  {| app_ID := app_ID a; app_Name := app_Name a; app_APIKey := "";
     app_CreatedAt := app_CreatedAt a; app_UpdatedAt := app_UpdatedAt a |}.

Definition ApplicationHandler_Get (io_ok : bool) (id : string) (s : Store)
  : Reply Application :=
  match GetApplication io_ok id s with
  | Err => ReplyError 500 "failed to get application"
  | Ok None => ReplyError 404 "application not found"
  | Ok (Some app) => ReplyJSON 200 (hide_key app)
  end.

Definition ApplicationHandler_List (io_ok : bool) (s : Store)
  : Reply (list Application) :=
  match ListApplications io_ok s with
  | Err => ReplyError 500 "failed to list applications"
  | Ok apps => ReplyJSON 200 (map hide_key apps)
  end.

Definition ApplicationHandler_Delete (get_ok delete_ok : bool) (id : string)
                                     (s : Store) : Reply unit * Store :=
  match GetApplication get_ok id s with
  | Err => (ReplyError 500 "failed to get application", s)
  | Ok None => (ReplyError 404 "application not found", s)
  | Ok (Some app) =>
      match DeleteApplication delete_ok id s with
      | Err => (ReplyError 500 "failed to delete application", s)
      | Ok s' => (ReplyStatus 204, s')
      end
  end.

Record RotateEnv : Type := {
  rotate_get_ok : bool;
  rotate_entropy : nat -> nat;
  rotate_update_ok : bool;
  rotate_now : Time
}.

(** The reply carries the new key ([{"api_key": newKey}]). *)
Definition ApplicationHandler_RotateKey (env : RotateEnv) (id : string)
                                        (s : Store) : Reply string * Store :=
  match GetApplication (rotate_get_ok env) id s with
  | Err => (ReplyError 500 "failed to get application", s)
  | Ok None => (ReplyError 404 "application not found", s)
  | Ok (Some app) =>
      let newKey := NewAPIKey (rotate_entropy env) in
      match UpdateApplicationAPIKey (rotate_update_ok env) (rotate_now env)
                                    id newKey s with
      | Err => (ReplyError 500 "failed to rotate key", s)
      | Ok s' => (ReplyJSON 200 newKey, s')
      end
  end.

(** *** EndpointHandler *)

Definition EndpointHandler_Get (io_ok : bool) (id : string) (s : Store)
  : Reply Endpoint :=
  match GetEndpoint io_ok id s with
  | Err => ReplyError 500 "failed to get endpoint"
  | Ok None => ReplyError 404 "endpoint not found"
  | Ok (Some ep) => ReplyJSON 200 ep
  end.

Definition EndpointHandler_List (io_ok : bool) (ctx : option Application)
                                (s : Store) : Reply (list Endpoint) :=
  match ctx with
  | None => ReplyError 401 "unauthorized"
  | Some app =>
      match ListEndpoints io_ok (app_ID app) s with
      | Err => ReplyError 500 "failed to list endpoints"
      | Ok eps => ReplyJSON 200 eps
      end
  end.

Record updateEndpointRequest : Type := {
  upd_URL : string;
  upd_Description : string;
  upd_EventTypes : option (list string);
  upd_RateLimit : Z;
  upd_Metadata : option (list (string * string))
}.

Record UpdateEnv : Type := {
  update_get_ok : bool;
  update_endpoint_ok : bool;
  update_endpoint_now : Time
}.

Definition valid_http_url (url_Parse : string -> option url.URL)
                          (u : string) : bool :=
  match url_Parse u with
  | None => false
  | Some parsed =>
      ((url.Scheme parsed =? "http") || (url.Scheme parsed =? "https"))
      && negb (url.Host parsed =? "")
  end.

(** The fetched endpoint with the fields that [Update] assigns. *)
Definition apply_update (req : updateEndpointRequest) (ep : Endpoint)
  : Endpoint :=
  {| ep_ID := ep_ID ep; ep_AppID := ep_AppID ep;
     ep_URL := if upd_URL req =? "" then ep_URL ep else upd_URL req;
     ep_Description := upd_Description req;
     ep_Secret := ep_Secret ep;
     ep_EventTypes :=
       match upd_EventTypes req with
       | None => ep_EventTypes ep
       | Some l => Some l
       end;
     ep_RateLimit := upd_RateLimit req;
     ep_Metadata :=
       match upd_Metadata req with
       | None => ep_Metadata ep
       | Some m => Some m
       end;
     ep_Active := ep_Active ep;
     ep_CreatedAt := ep_CreatedAt ep; ep_UpdatedAt := ep_UpdatedAt ep |}.

Definition EndpointHandler_Update (url_Parse : string -> option url.URL)
                                  (env : UpdateEnv) (id : string)
                                  (body : option updateEndpointRequest)
                                  (s : Store) : Reply Endpoint * Store :=
  match GetEndpoint (update_get_ok env) id s with
  | Err => (ReplyError 500 "failed to get endpoint", s)
  | Ok None => (ReplyError 404 "endpoint not found", s)
  | Ok (Some ep) =>
      match body with
      | None => (ReplyError 400 "invalid request body", s)
      | Some req =>
          if negb (upd_URL req =? "")
             && negb (valid_http_url url_Parse (upd_URL req)) then
            (ReplyError 400 "url must be a valid HTTP or HTTPS URL", s)
          else
            let ep := apply_update req ep in
            match UpdateEndpoint (update_endpoint_ok env)
                                 (update_endpoint_now env) ep s with
            | Err => (ReplyError 500 "failed to update endpoint", s)
            | Ok s' => (ReplyJSON 200 ep, s')
            end
      end
  end.

Definition EndpointHandler_Delete (get_ok delete_ok : bool) (id : string)
                                  (s : Store) : Reply unit * Store :=
  match GetEndpoint get_ok id s with
  | Err => (ReplyError 500 "failed to get endpoint", s)
  | Ok None => (ReplyError 404 "endpoint not found", s)
  | Ok (Some ep) =>
      match DeleteEndpoint delete_ok id s with
      | Err => (ReplyError 500 "failed to delete endpoint", s)
      | Ok s' => (ReplyStatus 204, s')
      end
  end.

(** [ep.Active = newActive] on the fetched copy. *)
Definition shown_active (a : bool) (ep : Endpoint) : Endpoint :=
  {| ep_ID := ep_ID ep; ep_AppID := ep_AppID ep; ep_URL := ep_URL ep;
     ep_Description := ep_Description ep; ep_Secret := ep_Secret ep;
     ep_EventTypes := ep_EventTypes ep; ep_RateLimit := ep_RateLimit ep;
     ep_Metadata := ep_Metadata ep; ep_Active := a;
     ep_CreatedAt := ep_CreatedAt ep; ep_UpdatedAt := ep_UpdatedAt ep |}.

Definition EndpointHandler_Toggle (get_ok toggle_ok : bool) (now : Time)
                                  (id : string) (s : Store)
  : Reply Endpoint * Store :=
  match GetEndpoint get_ok id s with
  | Err => (ReplyError 500 "failed to get endpoint", s)
  | Ok None => (ReplyError 404 "endpoint not found", s)
  | Ok (Some ep) =>
      let newActive := negb (ep_Active ep) in
      match ToggleEndpoint toggle_ok now id newActive s with
      | Err => (ReplyError 500 "failed to toggle endpoint", s)
      | Ok s' => (ReplyJSON 200 (shown_active newActive ep), s')
      end
  end.

(** *** MessageHandler and DeliveryHandler: the reads *)

Definition MessageHandler_Get (get_ok deliveries_ok : bool) (id : string)
                              (s : Store)
  : Reply (Message * list Delivery) :=
  match GetMessage get_ok id s with
  | Err => ReplyError 500 "failed to get message"
  | Ok None => ReplyError 404 "message not found"
  | Ok (Some msg) =>
      match GetDeliveriesByMessage deliveries_ok id s with
      | Err => ReplyError 500 "failed to get deliveries"
      | Ok ds => ReplyJSON 200 (msg, ds)
      end
  end.

(** [limit] and [offset] are the results of [strconv.Atoi] on the query
    parameters (zero when a parameter is absent or not a number). *)
Definition MessageHandler_List (io_ok : bool) (ctx : option Application)
                               (limit offset : Z) (s : Store)
  : Reply (list Message) :=
  match ctx with
  | None => ReplyError 401 "unauthorized"
  | Some app =>
      match ListMessages io_ok (app_ID app) limit offset s with
      | Err => ReplyError 500 "failed to list messages"
      | Ok msgs => ReplyJSON 200 msgs
      end
  end.

Definition DeliveryHandler_Get (io_ok : bool) (id : string) (s : Store)
  : Reply Delivery :=
  match GetDelivery io_ok id s with
  | Err => ReplyError 500 "failed to get delivery"
  | Ok None => ReplyError 404 "delivery not found"
  | Ok (Some d) => ReplyJSON 200 d
  end.

Definition DeliveryHandler_ListAttempts (io_ok : bool) (id : string)
                                        (s : Store) : Reply (list Attempt) :=
  match GetAttemptsByDelivery io_ok id s with
  | Err => ReplyError 500 "failed to get attempts"
  | Ok attempts => ReplyJSON 200 attempts
  end.

(** *** StatsHandler *)

Definition StatsHandler_Stats (query_ok : nat -> bool)
                              (ctx : option Application) (s : Store)
  : Reply Stats :=
  match ctx with
  | None => ReplyError 401 "unauthorized"
  | Some app =>
      match GetStats query_ok (app_ID app) s with
      | Err => ReplyError 500 "failed to get stats"
      | Ok stats => ReplyJSON 200 stats
      end
  end.

End api_more.
Import api_more.

(** ** Package delivery: the request that the sender issues *)

(** The request that [Send] hands to the HTTP client when
    [http.NewRequestWithContext] succeeds. *)
Definition Sender_request (env : SenderEnv)
                          (url secret messageID payload : string)
  : HttpRequest :=
  let (signature, timestamp) := signing.Sign (unix_now env) secret payload in
  {| req_URL := url;
     req_Header :=
       [ ("Content-Type", "application/json");
         ("User-Agent", "PipeRelay/1.0");
         ("X-PipeRelay-ID", messageID);
         ("X-PipeRelay-Timestamp", decimal timestamp);
         ("X-PipeRelay-Signature", signature) ];
     req_Body := payload |}.

(** [req.Header.Get]. *)
Definition Header_Get (h : list (string * string)) (name : string) : string :=
  match find (fun kv => fst kv =? name) h with
  | Some kv => snd kv
  | None => ""
  end.

(** ** Further predicates that the statements use *)

(** What an update leaves in place: the identity of a delivery row, and
    the whole row when it is not the one that is written. *)
Definition same_delivery (id : string) (old new : Delivery) : Prop :=
  d_ID new = d_ID old
  /\ d_MessageID new = d_MessageID old
  /\ d_EndpointID new = d_EndpointID old
  /\ d_CreatedAt new = d_CreatedAt old
  /\ (d_ID old <> id -> new = old).

(** Lowercase hexadecimal digits. *)
Definition is_hex (c : ascii) : bool :=
  let n := nat_of_ascii c in
  ((48 <=? n) && (n <=? 57) || (97 <=? n) && (n <=? 102))%nat.

Fixpoint all_hex (s : string) : bool :=
  match s with
  | EmptyString => true
  | String c r => is_hex c && all_hex r
  end.

(** The delivery of the concrete run as the ingest created it. *)
Definition pending_row : Delivery :=
  {| d_ID := "dlv_01D0"; d_MessageID := "msg_01M"; d_EndpointID := "ep_01E";
     d_Status := DeliveryPending; d_AttemptCount := 0; d_NextRetryAt := None;
     d_CreatedAt := 10 * Second; d_UpdatedAt := 10 * Second |}.

(** The worker of a configuration that names no retry schedule. *)
Definition default_worker : Worker :=
  worker (NewPool {| Workers := 50; Timeout := 30 * Second;
                     MaxAttempts := 8; RetrySchedule := [] |}).

(** The same delivery after its first failed attempt (in [scenario.s3]). *)
Definition retrying_row : Delivery :=
  {| d_ID := "dlv_01D0"; d_MessageID := "msg_01M"; d_EndpointID := "ep_01E";
     d_Status := DeliveryRetrying; d_AttemptCount := 1;
     d_NextRetryAt := Some (12 * Second);
     d_CreatedAt := 10 * Second; d_UpdatedAt := 11 * Second |}.

(** Descending order of a key, as [ORDER BY key DESC] gives it. *)
Definition key_ge {A : Type} (key : A -> Z) (a b : A) : Prop :=
  key b <= key a.

(** A store with one application, and the clock and entropy of a key
    rotation. *)
Definition one_app : Store :=
  {| applications := [scenario.app]; endpoints := []; messages := [];
     deliveries := []; attempts := [] |}.

Definition rotate_env : RotateEnv :=
  {| rotate_get_ok := true; rotate_entropy := fun i => (3 * i + 2)%nat;
     rotate_update_ok := true; rotate_now := 5 * Second |}.

(** What an update of endpoint [id] leaves in place in a row. *)
Definition same_endpoint (id : string) (old new : Endpoint) : Prop :=
  ep_ID new = ep_ID old
  /\ ep_AppID new = ep_AppID old
  /\ ep_Secret new = ep_Secret old
  /\ ep_CreatedAt new = ep_CreatedAt old
  /\ (ep_ID old <> id -> new = old).

(** A change of URL and description for the endpoint of the concrete run. *)
Definition update_req : updateEndpointRequest :=
  {| upd_URL := "https://example.com/v2"; upd_Description := "orders v2";
     upd_EventTypes := None; upd_RateLimit := 10; upd_Metadata := None |}.

Definition update_env : UpdateEnv :=
  {| update_get_ok := true; update_endpoint_ok := true;
     update_endpoint_now := 3 * Second |}.

(** The references between the tables that the schema declares for
    deliveries and attempts: every delivery names a message and an endpoint
    of the store, every attempt a delivery of the store. *)
Definition consistent (s : Store) : Prop :=
  incl (map d_MessageID (deliveries s)) (map msg_ID (messages s))
  /\ incl (map d_EndpointID (deliveries s)) (map ep_ID (endpoints s))
  /\ incl (map att_DeliveryID (attempts s)) (map d_ID (deliveries s)).

(** What a manual retry does to a row it requeues: the row is due again at
    [now] and keeps its identity and its attempt count. *)
Definition requeued (now : Time) (old new : Delivery) : Prop :=
  d_ID new = d_ID old /\ d_MessageID new = d_MessageID old
  /\ d_EndpointID new = d_EndpointID old
  /\ d_CreatedAt new = d_CreatedAt old
  /\ d_AttemptCount new = d_AttemptCount old
  /\ d_Status new = DeliveryRetrying /\ d_NextRetryAt new = Some now.

Definition is_failed (d : Delivery) : bool :=
  match d_Status d with
  | DeliveryFailed => true
  | _ => false
  end.

Definition failed_of (id : string) (d : Delivery) : bool :=
  (d_MessageID d =? id) && is_failed d.

(** A manual retry either leaves a row alone or requeues it, whatever the
    store answers. *)
Definition retried_or_kept (now : Time) (old new : Delivery) : Prop :=
  new = old
  \/ (d_ID new = d_ID old /\ d_MessageID new = d_MessageID old
      /\ d_EndpointID new = d_EndpointID old
      /\ d_CreatedAt new = d_CreatedAt old
      /\ d_Status new = DeliveryRetrying /\ d_NextRetryAt new = Some now).

(* ===================================================================== *)
(** * Part II: properties                                                 *)
(* ===================================================================== *)

(** ** Strings *)
Section StringFacts.

Lemma length_append (a b : string) :
  length (a ++ b) = (length a + length b)%nat.
Proof. induction a as [|c a IH]; simpl; [reflexivity | now rewrite IH]. Qed.

Lemma append_assoc (a b c : string) : (a ++ b) ++ c = a ++ (b ++ c).
Proof. induction a as [|x a IH]; simpl; [reflexivity | now rewrite IH]. Qed.

Lemma append_nil_r (a : string) : a ++ "" = a.
Proof. induction a as [|x a IH]; simpl; [reflexivity | now rewrite IH]. Qed.

Lemma substring_head (p r : string) :
  substring 0 (length p) (p ++ r) = p.
Proof.
  induction p as [|c p IH]; simpl.
  - destruct r; reflexivity.
  - now rewrite IH.
Qed.

Lemma substring_all (s : string) : substring 0 (length s) s = s.
Proof. induction s as [|c s IH]; simpl; [reflexivity | now rewrite IH]. Qed.

Lemma substring_tail (p r : string) :
  substring (length p) (length r) (p ++ r) = r.
Proof.
  induction p as [|c p IH]; simpl.
  - apply substring_all.
  - exact IH.
Qed.

Lemma substring_split (n : nat) (s : string) :
  (n <= length s)%nat ->
  substring 0 n s ++ substring n (length s - n) s = s.
Proof.
  revert n; induction s as [|c s IH]; intros n Hn; simpl in *.
  - assert (n = 0%nat) by lia; subst; reflexivity.
  - destruct n as [|n]; simpl.
    + now rewrite substring_all.
    + now rewrite IH by lia.
Qed.

Lemma length_substring_head (n : nat) (s : string) :
  (n <= length s)%nat -> length (substring 0 n s) = n.
Proof.
  revert n; induction s as [|c s IH]; intros n Hn; simpl in *.
  - assert (n = 0%nat) by lia; subst; reflexivity.
  - destruct n as [|n]; simpl; [reflexivity | now rewrite IH by lia].
Qed.

Lemma HasPrefix_spec (s p : string) :
  strings.HasPrefix s p = true <-> exists r, s = p ++ r.
Proof.
  unfold strings.HasPrefix, strings.slice. rewrite Nat.sub_0_r.
  rewrite andb_true_iff, Nat.leb_le, String.eqb_eq. split.
  - intros [Hlen Heq]. exists (substring (length p) (length s - length p) s).
    rewrite <- Heq at 1. symmetry. now apply substring_split.
  - intros [r ->]. rewrite length_append, substring_head. split; [lia | easy].
Qed.

Lemma HasSuffix_spec (s suf : string) :
  strings.HasSuffix s suf = true <-> exists p, s = p ++ suf.
Proof.
  unfold strings.HasSuffix, strings.slice.
  rewrite andb_true_iff, Nat.leb_le, String.eqb_eq. split.
  - intros [Hlen Heq]. exists (substring 0 (length s - length suf) s).
    rewrite <- Heq at 2. symmetry. apply substring_split. lia.
  - intros [p ->]. rewrite length_append. split; [lia|].
    replace (length p + length suf - length suf)%nat with (length p) by lia.
    replace (length p + length suf - length p)%nat with (length suf) by lia.
    apply substring_tail.
Qed.

Lemma TrimSuffix_append (p suf : string) :
  strings.TrimSuffix (p ++ suf) suf = p.
Proof.
  unfold strings.TrimSuffix.
  replace (strings.HasSuffix (p ++ suf) suf) with true
    by (symmetry; apply HasSuffix_spec; now exists p).
  unfold strings.slice. rewrite length_append, Nat.sub_0_r.
  replace (length p + length suf - length suf)%nat with (length p) by lia.
  apply substring_head.
Qed.

End StringFacts.

(** ** Event-type matching *)
Section Matching.

Lemma wildcard_test (sub eventType : string) :
  strings.HasSuffix sub ".*"
  && strings.HasPrefix eventType (strings.TrimSuffix sub ".*" ++ ".") = true
  <-> exists p r, sub = p ++ ".*" /\ eventType = p ++ "." ++ r.
Proof.
  rewrite andb_true_iff, HasSuffix_spec, HasPrefix_spec. split.
  - intros [[p ->] [r Hr]]. rewrite TrimSuffix_append in Hr.
    exists p, r. split; [reflexivity|]. now rewrite Hr, append_assoc.
  - intros (p & r & -> & ->). split; [now exists p|].
    rewrite TrimSuffix_append. exists r. now rewrite append_assoc.
Qed.

Lemma matches_any_spec (subs : list string) (eventType : string) :
  matches_any subs eventType = true
  <-> Exists (fun sub => rule_fires sub eventType) subs.
Proof.
  induction subs as [|sub rest IH]; simpl.
  - split; [discriminate | intros H; inversion H].
  - rewrite Exists_cons, <- IH. unfold rule_fires.
    rewrite <- wildcard_test, <- !String.eqb_eq.
    destruct (sub =? eventType); [tauto|].
    destruct (strings.HasSuffix sub ".*"
              && strings.HasPrefix eventType
                   (strings.TrimSuffix sub ".*" ++ ".")); [tauto|].
    destruct (sub =? "*"); [tauto|].
    intuition discriminate.
Qed.

Lemma matchesEventType_iff (subs : list string) (eventType : string) :
  matchesEventType subs eventType = true
  <-> subs = [] \/ Exists (fun sub => rule_fires sub eventType) subs.
Proof.
  unfold matchesEventType. destruct subs as [|sub rest].
  - simpl. tauto.
  - cbn [List.length Nat.eqb]. rewrite matches_any_spec.
    split; [now right | intros [H|H]; [discriminate | exact H]].
Qed.

End Matching.

(** C2 (as amended).  The event-type match is true iff the subscription
    list is empty or some subscription fires one of the rules of the code:
    it equals the event type, or it is [p.*] and the event type starts with
    [p.], or it is [*].  A subscription [p.*] does not match the bare event
    type [p]: [a.*] matches [a.b], but neither [ab] nor [a]; and [a] does
    not match [a.b]. *)
Theorem matchesEventType_rules (subs : list string) (eventType : string) :
  (matchesEventType subs eventType = true
   <-> subs = [] \/ Exists (fun sub => rule_fires sub eventType) subs)
  /\ matchesEventType ["a.*"] "a.b" = true
  /\ matchesEventType ["a.*"] "ab" = false
  /\ matchesEventType ["a"] "a.b" = false
  /\ matchesEventType ["a.*"] "a" = false.
Proof.
  split; [apply matchesEventType_iff | repeat split; reflexivity].
Qed.

(** C2, the claim as written fails: the code does not match the
    subscription [a.*] against the event type [a], while the rule of the
    specification does. *)
Lemma matchesEventType_bare_prefix :
  matchesEventType ["a.*"] "a" = false /\ spec_match ["a.*"] "a" = true.
Proof. split; reflexivity. Qed.

(** Whatever the code matches, the rules of the specification match too. *)
Lemma matchesEventType_within_spec (subs : list string) (eventType : string) :
  matchesEventType subs eventType = true -> spec_match subs eventType = true.
Proof.
  intros H. destruct subs as [|sub rest]; [reflexivity|].
  apply matchesEventType_iff in H.
  destruct H as [H|H]; [discriminate|].
  unfold spec_match. apply existsb_exists. apply Exists_exists in H.
  destruct H as (x & Hin & Hx). exists x. split; [exact Hin|].
  unfold spec_rule. destruct (x =? "*") eqn:Estar; [reflexivity|].
  destruct Hx as [-> | [(p & r & -> & ->) | ->]].
  - destruct (strings.HasSuffix eventType ".*") eqn:Es.
    + apply HasSuffix_spec in Es. destruct Es as [p Hp].
      rewrite Hp at 2. rewrite Hp at 3. rewrite TrimSuffix_append.
      apply orb_true_iff. right. apply HasPrefix_spec. exists "*".
      rewrite Hp. now rewrite append_assoc.
    + apply String.eqb_refl.
  - replace (strings.HasSuffix (p ++ ".*") ".*") with true
      by (symmetry; apply HasSuffix_spec; now exists p).
    rewrite TrimSuffix_append. apply orb_true_iff. right.
    apply HasPrefix_spec. exists r. now rewrite append_assoc.
  - discriminate.
Qed.

(** ** Signatures *)

Section Signing.

Lemma hex_value_digit (d : Z) : 0 <= d < 16 -> hex_value (hex.digit d) = d.
Proof.
  intros H.
  assert (E : d = 0 \/ d = 1 \/ d = 2 \/ d = 3 \/ d = 4 \/ d = 5 \/ d = 6
              \/ d = 7 \/ d = 8 \/ d = 9 \/ d = 10 \/ d = 11 \/ d = 12
              \/ d = 13 \/ d = 14 \/ d = 15) by lia.
  repeat (destruct E as [E|E]; [subst d; reflexivity|]).
  subst d; reflexivity.
Qed.

Lemma hex_decode_encode (bs : list Z) :
  Forall is_byte bs -> hex_decode (hex.EncodeToString bs) = bs.
Proof.
  induction 1 as [|b bs Hb _ IH]; [reflexivity|].
  cbn [hex.EncodeToString hex_decode]. unfold is_byte in Hb.
  rewrite IH, !hex_value_digit.
  - f_equal. symmetry. apply Z.div_mod. lia.
  - apply Z.mod_pos_bound. lia.
  - split; [apply Z.div_pos; lia | apply Z.div_lt_upper_bound; lia].
Qed.

Lemma Sum256_bytes (msg : list Z) : Forall is_byte (sha256.Sum256 msg).
Proof.
  unfold sha256.Sum256. apply Forall_forall. intros b Hb.
  apply in_flat_map in Hb. destruct Hb as (x & _ & Hb).
  unfold sha256.be_bytes in Hb. apply in_map_iff in Hb.
  destruct Hb as (i & <- & _). apply Z.mod_pos_bound. lia.
Qed.

Lemma Verify_iff (secret payload : string) (timestamp : Z) (sig : string) :
  signing.Verify secret payload timestamp sig = true
  <-> sig = signing.signature secret payload timestamp.
Proof.
  unfold signing.Verify, hmac.Equal. rewrite String.eqb_eq.
  split; intros H; now symmetry.
Qed.

Lemma signature_inj (s1 s2 payload : string) (timestamp : Z) :
  signing.signature s1 payload timestamp
  = signing.signature s2 payload timestamp
  <-> hmac.Sum (bytes_of_string s1)
               (bytes_of_string (signing.toSign timestamp payload))
      = hmac.Sum (bytes_of_string s2)
                 (bytes_of_string (signing.toSign timestamp payload)).
Proof.
  unfold signing.signature. split; intros H.
  - simpl in H. injection H as H. apply (f_equal hex_decode) in H.
    now rewrite !hex_decode_encode in H by apply Sum256_bytes.
  - now rewrite H.
Qed.

Lemma bytes_of_string_append (a b : string) :
  bytes_of_string (a ++ b) = (bytes_of_string a ++ bytes_of_string b)%list.
Proof. induction a as [|c a IH]; simpl; [reflexivity | now rewrite IH]. Qed.

Lemma length_bytes_of_string (a : string) :
  List.length (bytes_of_string a) = length a.
Proof. induction a as [|c a IH]; simpl; [reflexivity | now rewrite IH]. Qed.

(** [hmac.New] copies the key into a zeroed block: a key shorter than the
    block and the same key followed by a zero byte give the same block. *)
Lemma key_block_zero_byte (key : list Z) :
  (List.length key < sha256.BlockSize)%nat ->
  hmac.key_block (key ++ [0]) = hmac.key_block key.
Proof.
  unfold hmac.key_block, sha256.BlockSize. intros H.
  rewrite length_app. simpl List.length.
  destruct (Nat.ltb_spec 64 (List.length key + 1)); [lia|].
  destruct (Nat.ltb_spec 64 (List.length key)); [lia|].
  rewrite length_app. simpl List.length.
  replace (64 - List.length key)%nat
    with (S (64 - (List.length key + 1)))%nat by lia.
  simpl. now rewrite <- app_assoc.
Qed.

Lemma Verify_zero_padded_secret (secret payload : string) (timestamp : Z) :
  (length secret < 64)%nat ->
  signing.Verify (secret ++ NUL) payload timestamp
    (signing.signature secret payload timestamp) = true.
Proof.
  intros H. apply Verify_iff. apply signature_inj. unfold hmac.Sum.
  rewrite bytes_of_string_append. change (bytes_of_string NUL) with [0].
  rewrite key_block_zero_byte; [reflexivity|].
  now rewrite length_bytes_of_string.
Qed.

End Signing.

(** C1 (as amended).  [Sign] at clock reading [now] returns the timestamp
    [now] and the signature ["v1="] followed by the lowercase hex of
    HMAC-SHA256 over [decimal(ts) ++ "." ++ payload]: a function of
    (secret, payload, ts) alone.  [Verify] accepts exactly that string, so
    it accepts the signature under the signing secret, and under another
    secret exactly when both secrets give the same HMAC tag; a secret
    shorter than 64 bytes followed by a zero byte is such another secret. *)
Theorem Sign_Verify (now : Z) (secret payload : string) :
  let sig := fst (signing.Sign now secret payload) in
  let ts := snd (signing.Sign now secret payload) in
  let tag (key : string) :=
    hmac.Sum (bytes_of_string key)
             (bytes_of_string (decimal ts ++ "." ++ payload)) in
  ts = now
  /\ sig = "v1=" ++ hex.EncodeToString (tag secret)
  /\ signing.Verify secret payload ts sig = true
  /\ (forall sig', signing.Verify secret payload ts sig' = true <-> sig' = sig)
  /\ (forall secret',
        signing.Verify secret' payload ts sig = false
        <-> tag secret' <> tag secret)
  /\ ((length secret < 64)%nat ->
      signing.Verify (secret ++ NUL) payload ts sig = true).
Proof.
  cbn zeta. unfold signing.Sign. cbn [fst snd].
  split; [reflexivity|]. split; [reflexivity|].
  split; [now apply Verify_iff|]. split; [intros; apply Verify_iff|].
  split; [|apply Verify_zero_padded_secret].
  intros secret'. rewrite <- not_true_iff_false, Verify_iff.
  fold (signing.toSign now payload). rewrite <- signature_inj.
  split; intros H E; apply H; now symmetry.
Qed.

(** C1, the claim as written fails: a different secret can verify.  The
    secret [a] followed by a zero byte is not the secret [a], yet it
    verifies what [a] signed. *)
Lemma Verify_accepts_other_secret :
  "a" ++ NUL <> "a"
  /\ signing.Verify ("a" ++ NUL) "{}" 1700000000
       (fst (signing.Sign 1700000000 "a" "{}")) = true.
Proof.
  split; [discriminate|]. vm_compute. reflexivity.
Qed.

Example sha256_abc :
  hex.EncodeToString (sha256.Sum256 (bytes_of_string "abc"))
  = "ba7816bf8f01cfea414140de5dae2223b00361a396177a9cb410ff61f20015ad".
Proof. vm_compute. reflexivity. Qed.

Example hmac_rfc4231_case2 :
  hex.EncodeToString (hmac.Sum (bytes_of_string "Jefe")
                        (bytes_of_string "what do ya want for nothing?"))
  = "5bdcc146bf60754e6a042426089575c75a003f089d2739839dec58b964ec3843".
Proof. vm_compute. reflexivity. Qed.

Example signature_example :
  signing.signature "a" "{}" 1700000000
  = "v1=eab98e46d6a7669b200bed581845cac2cf8e7917ea5943531e51b6b4afd6211d".
Proof. vm_compute. reflexivity. Qed.

Example decimal_examples :
  decimal (-5) = "-5" /\ decimal 0 = "0" /\ decimal 1700000000 = "1700000000".
Proof. vm_compute. auto. Qed.

(** ** Sorting and the due-queue scan *)

Section Sorting.

Context {A : Type}.

Lemma insert_by_perm (le : A -> A -> bool) (x : A) (l : list A) :
  Permutation (insert_by le x l) (x :: l).
Proof.
  induction l as [|y r IH]; simpl; [reflexivity|].
  destruct (le x y); [reflexivity|].
  rewrite IH. apply perm_swap.
Qed.

Lemma sort_by_perm (le : A -> A -> bool) (l : list A) :
  Permutation (sort_by le l) l.
Proof.
  induction l as [|x r IH]; simpl; [reflexivity|].
  rewrite insert_by_perm. now constructor.
Qed.

Lemma sort_by_In (le : A -> A -> bool) (l : list A) (x : A) :
  In x (sort_by le l) <-> In x l.
Proof.
  split; apply Permutation_in; [|symmetry]; apply sort_by_perm.
Qed.

Variable key : A -> Z.

Lemma insert_by_key_sorted (x : A) (l : list A) :
  StronglySorted (key_le key) l ->
  StronglySorted (key_le key) (insert_by (fun a b => (key a <=? key b)%Z) x l).
Proof.
  induction 1 as [|y r Hr IH Hy]; simpl.
  - repeat constructor.
  - destruct (Z.leb_spec (key x) (key y)) as [Hxy|Hxy].
    + constructor; [now constructor|]. constructor; [exact Hxy|].
      eapply Forall_impl; [|exact Hy]. unfold key_le. intros; lia.
    + constructor; [exact IH|].
      eapply Permutation_Forall; [symmetry; apply insert_by_perm|].
      constructor; [unfold key_le; lia | exact Hy].
Qed.

Lemma sort_by_key_sorted (l : list A) :
  StronglySorted (key_le key) (sort_by (fun a b => (key a <=? key b)%Z) l).
Proof.
  induction l as [|x r IH]; simpl; [constructor|].
  now apply insert_by_key_sorted.
Qed.


Lemma In_firstn (n : nat) (l : list A) (x : A) :
  In x (firstn n l) -> In x l.
Proof.
  intros H. rewrite <- (firstn_skipn n l). apply in_or_app. now left.
Qed.

Lemma StronglySorted_firstn (R : A -> A -> Prop) (n : nat) (l : list A) :
  StronglySorted R l -> StronglySorted R (firstn n l).
Proof.
  intros Hs. revert n. induction Hs as [|a l Hs IH Ha]; intros n.
  - rewrite firstn_nil. constructor.
  - destruct n as [|n]; simpl; [constructor|]. constructor; [apply IH|].
    apply Forall_forall. intros x Hx. rewrite Forall_forall in Ha.
    apply Ha. eapply In_firstn, Hx.
Qed.

End Sorting.

Lemma is_due_iff (now : Time) (d : Delivery) :
  is_due now d = true <-> due now d.
Proof.
  unfold is_due, due. split.
  - destruct (d_Status d); try discriminate;
      (destruct (d_NextRetryAt d) as [t|]; intros H;
       [apply Z.leb_le in H; split; [auto | right; now exists t]
       | split; auto]).
  - intros [Hs Hn].
    assert (E : match d_NextRetryAt d with
                | Some t => (t <=? now)%Z
                | None => true
                end = true).
    { destruct Hn as [->|(t & -> & Ht)]; [reflexivity | now apply Z.leb_le]. }
    destruct Hs as [->| ->]; exact E.
Qed.



(** ** The worker and the retry policy *)

Section Worker.

Lemma wrap64_id (z : Z) : is_int z -> wrap64 z = z.
Proof.
  unfold is_int, wrap64. intros H. rewrite Z.mod_small; lia.
Qed.

Lemma wrap64_range (z : Z) : is_int (wrap64 z).
Proof.
  unfold is_int, wrap64.
  pose proof (Z.mod_pos_bound (z + 2 ^ 63) (2 ^ 64) ltac:(lia)). lia.
Qed.

Lemma successful_iff (result : SendResult) :
  (Error result =? "") && IsSuccess (StatusCode result) = true
  <-> successful result.
Proof.
  unfold successful, IsSuccess.
  rewrite !andb_true_iff, String.eqb_eq, Z.leb_le, Z.ltb_lt. reflexivity.
Qed.

Lemma successful_dec (result : SendResult) :
  (Error result =? "") && IsSuccess (StatusCode result) = false
  <-> ~ successful result.
Proof. rewrite <- successful_iff. symmetry. apply not_true_iff_false. Qed.

(** The rows of a delivery after its update carry the written state. *)
Lemma UpdateDelivery_rows (now : Time) (d : Delivery) (s : Store)
                          (row : Delivery) :
  In row (deliveries (logged (UpdateDelivery true now d s) s)) ->
  d_ID row = d_ID d ->
  d_Status row = d_Status d
  /\ d_AttemptCount row = d_AttemptCount d
  /\ d_NextRetryAt row = d_NextRetryAt d.
Proof.
  simpl. rewrite in_map_iff. intros (r & <- & _) Hid.
  destruct (d_ID r =? d_ID d) eqn:E; [repeat split|].
  apply String.eqb_neq in E. contradiction.
Qed.

Lemma Worker_Process_sends (w : Worker) (env : ProcessEnv) (d : Delivery)
                           (s : Store) (msg : Message) (ep : Endpoint) :
  GetMessage (get_message_ok env) (d_MessageID d) s = Ok (Some msg) ->
  GetEndpoint (get_endpoint_ok env) (d_EndpointID d) s = Ok (Some ep) ->
  ep_Active ep = true ->
  let result := Sender_Send (sender env) (ep_URL ep) (ep_Secret ep)
                            (msg_ID msg) (msg_Payload msg) in
  let d1 := incr_AttemptCount d in
  Worker_Process w env d s
  = advance w env result d1
      (logged (CreateAttempt (create_attempt_ok env)
                 (new_attempt env d1 result) s) s).
Proof.
  intros Hm He Ha. unfold Worker_Process. now rewrite Hm, He, Ha.
Qed.

(** The retry branch: the attempt failed, attempts are left, and the
    schedule has an entry for the attempt that just happened. *)
Lemma advance_retry (w : Worker) (env : ProcessEnv) (result : SendResult)
                    (d : Delivery) (s : Store) :
  ~ successful result ->
  1 <= d_AttemptCount d < maxAttempts w ->
  is_int (d_AttemptCount d) ->
  d_AttemptCount d - 1 < Z.of_nat (List.length (retrySchedule w)) ->
  advance w env result d s
  = Returned
      (logged
         (UpdateDelivery (update_ok env) (update_now env)
            (set_state d DeliveryRetrying
               (Some (retry_now env
                      + nth (Z.to_nat (d_AttemptCount d - 1))
                            (retrySchedule w) 0))) s) s).
Proof.
  intros Hf Hc Hi Hs. unfold advance, is_int in *.
  apply successful_dec in Hf. rewrite Hf.
  destruct (Z.leb_spec (maxAttempts w) (d_AttemptCount d)); [lia|].
  unfold NextRetryTime. cbn [set_state d_AttemptCount d_NextRetryAt].
  rewrite wrap64_id by (unfold is_int; lia).
  destruct (Z.ltb_spec (d_AttemptCount d - 1) 0); [lia|].
  destruct (Z.leb_spec (Z.of_nat (List.length (retrySchedule w)))
                       (d_AttemptCount d - 1)); [lia|].
  reflexivity.
Qed.

(** The same branch when the schedule has no entry left: [NextRetryTime]
    returns [nil] and the worker panics before it writes the delivery. *)
Lemma advance_schedule_exhausted (w : Worker) (env : ProcessEnv)
                                 (result : SendResult) (d : Delivery)
                                 (s : Store) :
  ~ successful result ->
  1 <= d_AttemptCount d < maxAttempts w ->
  is_int (d_AttemptCount d) ->
  Z.of_nat (List.length (retrySchedule w)) <= d_AttemptCount d - 1 ->
  advance w env result d s = Panicked s.
Proof.
  intros Hf Hc Hi Hs. unfold advance, is_int in *.
  apply successful_dec in Hf. rewrite Hf.
  destruct (Z.leb_spec (maxAttempts w) (d_AttemptCount d)); [lia|].
  unfold NextRetryTime. cbn [set_state d_AttemptCount d_NextRetryAt].
  rewrite wrap64_id by (unfold is_int; lia).
  destruct (Z.ltb_spec (d_AttemptCount d - 1) 0); [lia|].
  destruct (Z.leb_spec (Z.of_nat (List.length (retrySchedule w)))
                       (d_AttemptCount d - 1)); [|lia].
  reflexivity.
Qed.

End Worker.

(** C3.  An attempt is classified as a success iff its error is empty and
    its status code is in [200, 300); the delivery is then written with
    status success and no retry time.  Every other attempt leads to the
    status failed or retrying (or to no write at all), never to success.
    The last part ties the classification to [Process]. *)
Theorem attempt_classification (w : Worker) (env : ProcessEnv)
                               (result : SendResult) (d : Delivery)
                               (s : Store) :
  let write d' :=
    Returned (logged (UpdateDelivery (update_ok env) (update_now env) d' s)
                     s) in
  ((Error result =? "") && IsSuccess (StatusCode result) = true
   <-> successful result)
  /\ (successful result ->
      advance w env result d s = write (set_state d DeliverySuccess None)
      /\ (update_ok env = true ->
          forall row,
            In row (deliveries (store_of (advance w env result d s))) ->
            d_ID row = d_ID d ->
            d_Status row = DeliverySuccess /\ d_NextRetryAt row = None))
  /\ (~ successful result ->
      advance w env result d s = write (set_state d DeliveryFailed None)
      \/ (exists t,
            advance w env result d s
            = write (set_state d DeliveryRetrying (Some t)))
      \/ advance w env result d s = Panicked s)
  /\ (forall d0 s0 msg ep,
        GetMessage (get_message_ok env) (d_MessageID d0) s0 = Ok (Some msg) ->
        GetEndpoint (get_endpoint_ok env) (d_EndpointID d0) s0
        = Ok (Some ep) ->
        ep_Active ep = true ->
        result = Sender_Send (sender env) (ep_URL ep) (ep_Secret ep)
                             (msg_ID msg) (msg_Payload msg) ->
        d = incr_AttemptCount d0 ->
        s = logged (CreateAttempt (create_attempt_ok env)
                      (new_attempt env d result) s0) s0 ->
        Worker_Process w env d0 s0 = advance w env result d s).
Proof.
  cbn zeta. split; [apply successful_iff|]. split; [|split].
  - intros Hs. assert (E : advance w env result d s
      = Returned (logged (UpdateDelivery (update_ok env) (update_now env)
                            (set_state d DeliverySuccess None) s) s)).
    { unfold advance. apply successful_iff in Hs. now rewrite Hs. }
    split; [exact E|]. intros Hok row Hrow Hid. rewrite E, Hok in Hrow.
    apply UpdateDelivery_rows in Hrow; [|exact Hid].
    destruct Hrow as (H1 & _ & H2). now split.
  - intros Hf. apply successful_dec in Hf. unfold advance. rewrite Hf.
    destruct (maxAttempts w <=? d_AttemptCount d)%Z; [now left|right].
    cbn [set_state d_NextRetryAt d_AttemptCount].
    destruct (NextRetryTime _ _ _) as [t|]; [left; now exists t | now right].
  - intros d0 s0 msg ep Hm He Ha -> -> ->.
    now apply Worker_Process_sends.
Qed.

(** C4, on the input where the code departs from the claim: eight
    attempts allowed, a schedule of one delay, and a delivery whose second
    attempt fails.  [Process] records the attempt and then panics; the
    delivery row is left as it was (retrying, one attempt), not failed. *)
Theorem Process_panics_past_schedule :
  maxAttempts scenario.w8 = 8
  /\ retrySchedule scenario.w8 = [30 * Second]
  /\ map (fun r => (d_Status r, d_AttemptCount r))
         (deliveries scenario.t3) = [(DeliveryRetrying, 1)]
  /\ match poll_first scenario.w8 (scenario.answering 500 (50 * Second))
                      (50 * Second) 50 scenario.t3 with
     | Panicked s' =>
         deliveries s' = deliveries scenario.t3
         /\ map att_AttemptNumber (attempts s') = [1; 2]
     | Returned _ => False
     end.
Proof. vm_compute. repeat split; reflexivity. Qed.

(** ** What the operations do to the deliveries table *)

Ltac break_match :=
  repeat match goal with
         | |- context [match ?x with _ => _ end] => destruct x eqn:?
         end.

Section Operations.

Lemma Create_deliveries (p : string -> option url.URL) (env : CreateEnv)
                        (r : CreateHttp) (s : Store) :
  deliveries (snd (EndpointHandler_Create p env r s)) = deliveries s.
Proof.
  unfold EndpointHandler_Create.
  destruct (create_app r); [|reflexivity].
  destruct (option_map _ _) as [req|]; [|reflexivity].
  destruct (URL req =? ""); [reflexivity|].
  destruct (negb _); [reflexivity|].
  unfold CreateEndpoint. destruct (create_endpoint_ok env); reflexivity.
Qed.

Lemma Toggle_deliveries (now : Time) (id : string) (a : bool)
                        (s s' : Store) :
  ToggleEndpoint true now id a s = Ok s' -> deliveries s' = deliveries s.
Proof. intros H. injection H as <-. reflexivity. Qed.

Lemma Delete_deliveries (id : string) (s s' : Store) (row : Delivery) :
  DeleteEndpoint true id s = Ok s' ->
  In row (deliveries s') -> In row (deliveries s).
Proof.
  intros H. injection H as <-. simpl. rewrite filter_In. tauto.
Qed.

Lemma fan_out_rows (env : SendEnv) (msg : Message) (now : Time)
                   (eps : list Endpoint) (i : nat) (acc : list Delivery)
                   (s : Store) (row : Delivery) :
  In row (deliveries (snd (fan_out env msg now eps i acc s))) ->
  In row (deliveries s) \/ fresh row.
Proof.
  revert i acc s. induction eps as [|ep rest IH]; intros i acc s; simpl.
  - now left.
  - unfold CreateDelivery. destruct (create_delivery_ok env i); simpl.
    + intros H. apply IH in H. simpl in H.
      destruct H as [H|H]; [|now right].
      apply in_app_or in H. destruct H as [H|[<-|[]]]; [now left|].
      right. repeat split.
    + now left.
Qed.

Lemma Send_rows (env : SendEnv) (r : SendHttp) (s : Store)
                (row : Delivery) :
  In row (deliveries (snd (MessageHandler_Send env r s))) ->
  In row (deliveries s) \/ fresh row.
Proof.
  unfold MessageHandler_Send.
  destruct (ctx_app r); [|now left].
  destruct (DecodeLimited _ _) as [req|]; [|now left].
  destruct (EventType req =? ""); [now left|].
  destruct (length (Payload req) =? 0)%nat; [now left|].
  unfold CreateMessage. destruct (create_message_ok env); [|now left].
  unfold GetEndpointsByEventType.
  destruct (get_endpoints_ok env); [|now left].
  intros H. apply fan_out_rows in H. exact H.
Qed.

Lemma UpdateDelivery_any_rows (ok : bool) (now : Time) (d : Delivery)
                              (s : Store) (row : Delivery) :
  In row (deliveries (logged (UpdateDelivery ok now d s) s)) ->
  In row (deliveries s)
  \/ (exists r0, In r0 (deliveries s) /\ d_ID r0 = d_ID d)
     /\ d_Status row = d_Status d
     /\ d_AttemptCount row = d_AttemptCount d
     /\ d_NextRetryAt row = d_NextRetryAt d.
Proof.
  destruct ok; simpl; [|now left].
  rewrite in_map_iff. intros (r0 & <- & Hin).
  destruct (d_ID r0 =? d_ID d) eqn:E; [|now left].
  right. apply String.eqb_eq in E. split; [now exists r0 | repeat split].
Qed.

Lemma advance_rows (w : Worker) (env : ProcessEnv) (result : SendResult)
                   (d : Delivery) (s : Store) (row : Delivery) :
  In row (deliveries (store_of (advance w env result d s))) ->
  In row (deliveries s)
  \/ d_AttemptCount row = d_AttemptCount d
     /\ (d_Status row = DeliverySuccess
         \/ (d_Status row = DeliveryFailed /\ d_NextRetryAt row = None
             /\ maxAttempts w <= d_AttemptCount d)
         \/ (d_Status row = DeliveryRetrying
             /\ d_AttemptCount d < maxAttempts w)).
Proof.
  unfold advance.
  destruct ((Error result =? "") && IsSuccess (StatusCode result)).
  { intros H. apply UpdateDelivery_any_rows in H.
    destruct H as [H|(_ & H1 & H2 & H3)]; [now left|right]. simpl in *.
    split; [exact H2 | now left]. }
  destruct (Z.leb_spec (maxAttempts w) (d_AttemptCount d)) as [Hc|Hc].
  { intros H. apply UpdateDelivery_any_rows in H.
    destruct H as [H|(_ & H1 & H2 & H3)]; [now left|right]. simpl in *.
    split; [exact H2 | right; left; now repeat split]. }
  cbn [set_state d_NextRetryAt]. destruct (NextRetryTime _ _ _) as [t|].
  - intros H. apply UpdateDelivery_any_rows in H.
    destruct H as [H|(_ & H1 & H2 & H3)]; [now left|right]. simpl in *.
    split; [exact H2 | right; right; now split].
  - now left.
Qed.

Lemma Process_rows (w : Worker) (env : ProcessEnv) (d : Delivery)
                   (s : Store) (row : Delivery) :
  In row (deliveries (store_of (Worker_Process w env d s))) ->
  In row (deliveries s)
  \/ d_AttemptCount row = wrap64 (d_AttemptCount d + 1)
     /\ (d_Status row = DeliverySuccess
         \/ (d_Status row = DeliveryFailed /\ d_NextRetryAt row = None
             /\ maxAttempts w <= d_AttemptCount row)
         \/ (d_Status row = DeliveryRetrying
             /\ d_AttemptCount row < maxAttempts w)).
Proof.
  unfold Worker_Process. break_match; try (now left).
  intros H. apply advance_rows in H.
  destruct H as [H|[H1 H2]].
  - left. revert H. unfold logged, CreateAttempt.
    destruct (create_attempt_ok env); simpl; auto.
  - right. simpl in H1, H2. rewrite H1. split; [reflexivity | exact H2].
Qed.

Lemma retry_loop_rows (env : RetryEnv) (now : Time) (ds : list Delivery)
                      (i : nat) (n : Z) (s : Store) (row : Delivery) :
  In row (deliveries (snd (retry_loop env now ds i n s))) ->
  In row (deliveries s) \/ d_Status row = DeliveryRetrying.
Proof.
  revert i n s. induction ds as [|d rest IH]; intros i n s; simpl.
  - now left.
  - destruct (d_Status d); try apply IH.
    destruct (UpdateDelivery _ _ _ s) as [|s'] eqn:E; [apply IH|].
    intros H. apply IH in H. destruct H as [H|H]; [|now right].
    assert (E' : s' = logged (UpdateDelivery (retry_update_ok env i)
                                (retry_update_now env i)
                                (set_state d DeliveryRetrying (Some now)) s)
                            s) by now rewrite E.
    rewrite E' in H. apply UpdateDelivery_any_rows in H.
    destruct H as [H|(_ & H & _)]; [now left | now right].
Qed.

Lemma Retry_rows (env : RetryEnv) (id : string) (s : Store)
                 (row : Delivery) :
  In row (deliveries (snd (MessageHandler_Retry env id s))) ->
  In row (deliveries s) \/ d_Status row = DeliveryRetrying.
Proof.
  unfold MessageHandler_Retry. break_match; simpl; try (now left).
  intros H.
  match goal with
  | E : retry_loop ?e ?t ?l ?i ?n ?s0 = (_, ?s1) |- _ =>
      replace s1 with (snd (retry_loop e t l i n s0)) in H by now rewrite E
  end.
  now apply retry_loop_rows in H.
Qed.

Lemma GetPendingDeliveries_In (now : Time) (limit : Z) (s : Store)
                              (ds : list Delivery) (d : Delivery) :
  GetPendingDeliveries true now limit s = Ok ds ->
  In d ds -> In d (deliveries s) /\ due now d.
Proof.
  intros H Hd. injection H as <-. unfold sql_limit in Hd.
  assert (Hin : In d (sort_by (fun a b => (d_CreatedAt a <=? d_CreatedAt b)%Z)
                              (filter (is_due now) (deliveries s)))).
  { destruct (limit <? 0)%Z; [exact Hd | eapply In_firstn, Hd]. }
  rewrite sort_by_In, filter_In, is_due_iff in Hin. exact Hin.
Qed.

End Operations.

(** ** The invariant of failed deliveries *)
Section FailedInvariant.

Variable url_Parse : string -> option url.URL.
Variable w : Worker.

Lemma fresh_failed_ok (row : Delivery) : fresh row -> failed_ok w row.
Proof. intros (H & _) Hf. rewrite H in Hf. discriminate. Qed.

Lemma step_failed_ok (manual : bool) (s s' : Store) :
  step url_Parse w manual s s' ->
  (forall row, In row (deliveries s) -> failed_ok w row) ->
  forall row, In row (deliveries s') -> failed_ok w row.
Proof.
  intros Hstep Hinv row Hrow. destruct Hstep.
  - rewrite Create_deliveries in Hrow. now apply Hinv.
  - erewrite Toggle_deliveries in Hrow by eassumption. now apply Hinv.
  - eapply Delete_deliveries in Hrow; [|eassumption]. now apply Hinv.
  - apply Send_rows in Hrow. destruct Hrow as [H|H];
      [now apply Hinv | now apply fresh_failed_ok].
  - apply Process_rows in Hrow. destruct Hrow as [Hold|[_ Hnew]];
      [now apply Hinv|]. intros Hf.
    destruct Hnew as [Hs|[(_ & Hn & Hc)|(Hs & _)]];
      [rewrite Hs in Hf; discriminate | now split
       | rewrite Hs in Hf; discriminate].
  - apply Retry_rows in Hrow. destruct Hrow as [Hold|Hs];
      [now apply Hinv|]. intros Hf. rewrite Hs in Hf. discriminate.
Qed.

Lemma reachable_failed_ok (manual : bool) (s : Store) :
  reachable url_Parse w manual s ->
  forall row, In row (deliveries s) -> failed_ok w row.
Proof.
  induction 1 as [|s s' _ IH Hstep].
  - intros row [].
  - now apply (step_failed_ok manual s s').
Qed.

Hypothesis maxAttempts_positive : 1 <= maxAttempts w < 2 ^ 63.

Lemma fresh_counted (row : Delivery) : fresh row -> counted w row.
Proof.
  intros (Hs & Hc & Hn). unfold counted. rewrite Hs, Hc.
  split; [lia|]. split; [lia | discriminate].
Qed.

Lemma step_counted (s s' : Store) :
  step url_Parse w false s s' ->
  (forall row, In row (deliveries s) -> counted w row) ->
  forall row, In row (deliveries s') -> counted w row.
Proof.
  intros Hstep Hinv row Hrow. destruct Hstep as
    [ | | | | env now limit ds d s Hds Hd | env id s Hm ].
  - rewrite Create_deliveries in Hrow. now apply Hinv.
  - erewrite Toggle_deliveries in Hrow by eassumption. now apply Hinv.
  - eapply Delete_deliveries in Hrow; [|eassumption]. now apply Hinv.
  - apply Send_rows in Hrow. destruct Hrow as [H|H];
      [now apply Hinv | now apply fresh_counted].
  - apply Process_rows in Hrow. destruct Hrow as [Hold|[Hc Hnew]];
      [now apply Hinv|].
    destruct (GetPendingDeliveries_In _ _ _ _ _ Hds Hd) as [Hin [Hst _]].
    destruct (Hinv d Hin) as (H0 & Hlt & _). specialize (Hlt Hst).
    rewrite wrap64_id in Hc by (unfold is_int; lia).
    unfold counted.
    destruct Hnew as [Hs|[(Hs & Hn & Hmax)|(Hs & Hless)]]; rewrite Hs.
    + split; [lia|]. split; [intros [?|?]; discriminate | discriminate].
    + split; [lia|]. split; [intros [?|?]; discriminate|].
      intros _. split; [exact Hn | lia].
    + split; [lia|]. split; [intros _; exact Hless | discriminate].
  - discriminate.
Qed.

Lemma reachable_counted (s : Store) :
  reachable url_Parse w false s ->
  forall row, In row (deliveries s) -> counted w row.
Proof.
  remember false as manual eqn:E. induction 1 as [|s s' _ IH Hstep]; subst.
  - intros row [].
  - apply (step_counted s s' Hstep). now apply IH.
Qed.

End FailedInvariant.

Section Runs.

Lemma reachable_poll_first (p : string -> option url.URL) (w : Worker)
                           (manual : bool) (env : ProcessEnv) (now : Time)
                           (limit : Z) (s : Store) :
  reachable p w manual s ->
  reachable p w manual (store_of (poll_first w env now limit s)).
Proof.
  intros H. unfold poll_first.
  destruct (GetPendingDeliveries true now limit s) as [|[|d ds]] eqn:E;
    try exact H.
  eapply reachable_step; [exact H|].
  eapply step_process; [exact E | now left].
Qed.

(** The concrete run is a run of the system. *)
Lemma scenario_reachable :
  reachable scenario.parse scenario.w2 false scenario.s4
  /\ reachable scenario.parse scenario.w2 true scenario.s6.
Proof.
  assert (H2 : forall m, reachable scenario.parse scenario.w2 m scenario.s2).
  { intros m. eapply reachable_step; [|apply step_send].
    eapply reachable_step; [|apply step_create]. constructor. }
  split.
  - do 2 apply reachable_poll_first. apply H2.
  - apply reachable_poll_first.
    eapply reachable_step; [|now apply step_retry].
    do 2 apply reachable_poll_first. apply H2.
Qed.

End Runs.

(** C5 (as amended).  In every store the system can reach, a delivery
    with status failed has no retry time and an attempt count of at least
    [maxAttempts]; the count equals [maxAttempts] as long as no manual
    retry has taken place (for a positive [maxAttempts]). *)
Theorem failed_delivery_invariant (url_Parse : string -> option url.URL)
                                  (w : Worker) (manual : bool) (s : Store)
                                  (d : Delivery) :
  reachable url_Parse w manual s ->
  In d (deliveries s) ->
  d_Status d = DeliveryFailed ->
  d_NextRetryAt d = None
  /\ maxAttempts w <= d_AttemptCount d
  /\ (manual = false -> 1 <= maxAttempts w < 2 ^ 63 ->
      d_AttemptCount d = maxAttempts w).
Proof.
  intros Hr Hd Hf.
  destruct (reachable_failed_ok url_Parse w manual s Hr d Hd Hf) as [Hn Hc].
  split; [exact Hn|]. split; [exact Hc|]. intros -> Hmax.
  destruct (reachable_counted url_Parse w Hmax s Hr d Hd) as (_ & _ & H).
  now destruct (H Hf).
Qed.

(** C5, the claim as written fails: with two attempts allowed, the
    delivery fails twice, is retried by hand and fails again; it is then
    failed with three attempts. *)
Lemma failed_with_more_attempts :
  reachable scenario.parse scenario.w2 true scenario.s6
  /\ maxAttempts scenario.w2 = 2
  /\ map (fun d => (d_Status d, d_AttemptCount d)) (deliveries scenario.s6)
     = [(DeliveryFailed, 3)].
Proof.
  split; [apply scenario_reachable|]. vm_compute. split; reflexivity.
Qed.

Lemma failed_delivery_invariant_witness :
  reachable scenario.parse scenario.w2 false scenario.s4
  /\ In scenario.failed_twice (deliveries scenario.s4)
  /\ d_Status scenario.failed_twice = DeliveryFailed
  /\ d_NextRetryAt scenario.failed_twice = None
  /\ maxAttempts scenario.w2 <= d_AttemptCount scenario.failed_twice
  /\ (false = false -> 1 <= maxAttempts scenario.w2 < 2 ^ 63 ->
      d_AttemptCount scenario.failed_twice = maxAttempts scenario.w2).
Proof.
  assert (Hr := proj1 scenario_reachable).
  assert (Hin : In scenario.failed_twice (deliveries scenario.s4))
    by (vm_compute; left; reflexivity).
  split; [exact Hr|]. split; [exact Hin|]. split; [reflexivity|].
  exact (failed_delivery_invariant scenario.parse scenario.w2 false
           scenario.s4 scenario.failed_twice Hr Hin eq_refl).
Defined.

(** ** Ingest and fan-out *)

Section FanOut.

Lemma add_deliveries_nil (s : Store) : add_deliveries s [] = s.
Proof. destruct s. unfold add_deliveries. simpl. now rewrite app_nil_r. Qed.

Lemma add_deliveries_app (s : Store) (a b : list Delivery) :
  add_deliveries (add_deliveries s a) b = add_deliveries s (a ++ b).
Proof. unfold add_deliveries. simpl. now rewrite app_assoc. Qed.

Lemma length_made (env : SendEnv) (msg : Message) (now : Time) (i : nat)
                  (eps : list Endpoint) :
  List.length (made env msg now i eps) = List.length eps.
Proof.
  revert i. induction eps as [|ep r IH]; intros i; simpl;
    [reflexivity | now rewrite IH].
Qed.



(** All writes succeed: the loop runs to its end. *)
Lemma fan_out_complete (env : SendEnv) (msg : Message) (now : Time)
                       (eps : list Endpoint) (i : nat)
                       (acc : list Delivery) (s : Store) :
  (forall j, (j < List.length eps)%nat ->
             create_delivery_ok env (i + j) = true) ->
  fan_out env msg now eps i acc s
  = (writeJSON 202
       (AcceptedBody msg (Z.of_nat (List.length acc + List.length eps))),
     add_deliveries s (made env msg now i eps)).
Proof.
  revert i acc s. induction eps as [|ep r IH]; intros i acc s Hok; simpl.
  - now rewrite add_deliveries_nil, Nat.add_0_r.
  - assert (E : create_delivery_ok env i = true)
      by (rewrite <- (Nat.add_0_r i); apply Hok; simpl; lia).
    unfold CreateDelivery. rewrite E.
    fold (add_deliveries s [new_delivery env msg now i ep]).
    rewrite IH.
    + rewrite add_deliveries_app, length_app. cbn [List.length app].
      replace (List.length acc + 1 + List.length r)%nat
        with (List.length acc + S (List.length r))%nat by lia.
      reflexivity.
    + intros j Hj. replace (S i + j)%nat with (i + S j)%nat by lia.
      apply Hok. simpl. lia.
Qed.

(** The write of iteration [i + k] fails after [k] successful ones: the
    loop stops there and what was written stays. *)
Lemma fan_out_interrupted (env : SendEnv) (msg : Message) (now : Time)
                          (eps : list Endpoint) (i k : nat)
                          (acc : list Delivery) (s : Store) :
  (k < List.length eps)%nat ->
  (forall j, (j < k)%nat -> create_delivery_ok env (i + j) = true) ->
  create_delivery_ok env (i + k) = false ->
  fan_out env msg now eps i acc s
  = (writeError 500 "failed to create delivery",
     add_deliveries s (made env msg now i (firstn k eps))).
Proof.
  revert i k acc s.
  induction eps as [|ep r IH]; intros i k acc s Hk Hok Hfail; simpl in *.
  - lia.
  - unfold CreateDelivery. destruct k as [|k].
    + rewrite Nat.add_0_r in Hfail. rewrite Hfail. simpl.
      now rewrite add_deliveries_nil.
    + assert (E : create_delivery_ok env i = true)
        by (rewrite <- (Nat.add_0_r i); apply Hok; lia).
      rewrite E.
      fold (add_deliveries s [new_delivery env msg now i ep]).
      rewrite (IH (S i) k).
      * now rewrite add_deliveries_app.
      * lia.
      * intros j Hj. replace (S i + j)%nat with (i + S j)%nat by lia.
        apply Hok. lia.
      * now replace (S i + k)%nat with (i + S k)%nat by lia.
Qed.

Lemma fan_out_status (env : SendEnv) (msg : Message) (now : Time)
                     (eps : list Endpoint) (i : nat) (acc : list Delivery)
                     (s : Store) :
  status (fst (fan_out env msg now eps i acc s)) = 202 ->
  forall j, (j < List.length eps)%nat ->
            create_delivery_ok env (i + j) = true.
Proof.
  revert i acc s. induction eps as [|ep r IH]; intros i acc s H j Hj;
    simpl in *; [lia|].
  unfold CreateDelivery in H.
  destruct (create_delivery_ok env i) eqn:E; [|discriminate].
  destruct j as [|j]; [now rewrite Nat.add_0_r|].
  replace (i + S j)%nat with (S i + j)%nat by lia.
  eapply IH; [exact H | lia].
Qed.

Lemma filter_permuted {T : Type} (keep : T -> bool) (xs ys : list T)
                       (H : Permutation xs ys) :
  Permutation (filter keep xs) (filter keep ys).
Proof.
  induction H as [|x xs ys _ IH|x y xs|xs ys zs _ IH1 _ IH2]; simpl.
  - constructor.
  - destruct (keep x); [now constructor | exact IH].
  - destruct (keep x), (keep y); try reflexivity. apply perm_swap.
  - now transitivity (filter keep ys).
Qed.

Lemma filter_both {A : Type} (f g : A -> bool) (l : list A) :
  filter g (filter f l) = filter (fun x => f x && g x) l.
Proof.
  induction l as [|x l IH]; simpl; [reflexivity|].
  destruct (f x); simpl; [|exact IH]. destruct (g x); now rewrite IH.
Qed.

Lemma GetEndpointsByEventType_subscribed (appID eventType : string)
                                         (s : Store) :
  exists eps,
    GetEndpointsByEventType true appID eventType s = Ok eps
    /\ Permutation eps (filter (subscribed appID eventType) (endpoints s)).
Proof.
  eexists. split; [reflexivity|].
  rewrite (filter_permuted _ _ _ (sort_by_perm _ _)).
  now rewrite filter_both.
Qed.

Lemma Send_fans_out (env : SendEnv) (r : SendHttp) (s : Store)
                    (app : Application) (req : sendMessageRequest)
                    (eps : list Endpoint) :
  ctx_app r = Some app ->
  DecodeLimited maxPayloadSize (send_body r) = Some req ->
  EventType req <> "" ->
  Payload req <> "" ->
  create_message_ok env = true ->
  GetEndpointsByEventType (get_endpoints_ok env) (app_ID app)
                          (EventType req) s = Ok eps ->
  MessageHandler_Send env r s
  = fan_out env (new_message env app req) (send_now env) eps 0 []
            (add_message s (new_message env app req)).
Proof.
  intros Happ Hreq Het Hpl Hmsg Heps.
  unfold MessageHandler_Send. rewrite Happ, Hreq.
  apply String.eqb_neq in Het. rewrite Het.
  destruct (Payload req) as [|c pl] eqn:Epl; [contradiction|].
  cbn [length Nat.eqb]. unfold CreateMessage. rewrite Hmsg.
  fold (add_message s (new_message env app req)).
  replace (GetEndpointsByEventType (get_endpoints_ok env) (app_ID app)
             (EventType req) (add_message s (new_message env app req)))
    with (Ok eps) by (rewrite <- Heps; reflexivity).
  reflexivity.
Qed.

Lemma Send_accepted_inv (env : SendEnv) (r : SendHttp) (s : Store) :
  status (fst (MessageHandler_Send env r s)) = 202 ->
  exists app req,
    ctx_app r = Some app
    /\ DecodeLimited maxPayloadSize (send_body r) = Some req
    /\ EventType req <> ""
    /\ Payload req <> ""
    /\ create_message_ok env = true
    /\ get_endpoints_ok env = true.
Proof.
  unfold MessageHandler_Send.
  destruct (ctx_app r) as [app|]; [|discriminate].
  destruct (DecodeLimited _ _) as [req|]; [|discriminate].
  destruct (EventType req =? "") eqn:Het; [discriminate|].
  destruct (Payload req) as [|c pl] eqn:Epl; [discriminate|].
  cbn [length Nat.eqb]. unfold CreateMessage.
  destruct (create_message_ok env); [|discriminate].
  unfold GetEndpointsByEventType.
  destruct (get_endpoints_ok env); [|discriminate].
  intros _. exists app, req. rewrite Epl. apply String.eqb_neq in Het.
  repeat split; try reflexivity; [exact Het | discriminate].
Qed.

End FanOut.



(** C9.  When the write of the delivery for the [k]-th matching endpoint
    fails, the ingest answers with an error (500), and the message row and
    the deliveries of the first [k - 1] endpoints stay in the store. *)
Theorem Send_not_atomic (env : SendEnv) (r : SendHttp) (s : Store)
                        (app : Application) (req : sendMessageRequest)
                        (eps : list Endpoint) (k : nat) :
  ctx_app r = Some app ->
  DecodeLimited maxPayloadSize (send_body r) = Some req ->
  EventType req <> "" ->
  Payload req <> "" ->
  create_message_ok env = true ->
  GetEndpointsByEventType (get_endpoints_ok env) (app_ID app)
                          (EventType req) s = Ok eps ->
  (1 <= k <= List.length eps)%nat ->
  (forall j, (j < k - 1)%nat -> create_delivery_ok env j = true) ->
  create_delivery_ok env (k - 1) = false ->
  let msg := new_message env app req in
  let written := made env msg (send_now env) 0 (firstn (k - 1) eps) in
  MessageHandler_Send env r s
  = (writeError 500 "failed to create delivery",
     add_deliveries (add_message s msg) written)
  /\ List.length written = (k - 1)%nat
  /\ messages (snd (MessageHandler_Send env r s))
     = (messages s ++ [msg])%list
  /\ deliveries (snd (MessageHandler_Send env r s))
     = (deliveries s ++ written)%list.
Proof.
  intros Happ Hreq Het Hpl Hmsg Heps Hk Hok Hfail. cbn zeta.
  rewrite (Send_fans_out env r s app req eps) by assumption.
  rewrite fan_out_interrupted with (k := (k - 1)%nat);
    [|lia | exact Hok | exact Hfail].
  split; [reflexivity|]. split; [|split; reflexivity].
  rewrite length_made, length_firstn. lia.
Qed.

Lemma Send_not_atomic_witness :
  exists (eps : list Endpoint),
    List.length eps = 2%nat
    /\ GetEndpointsByEventType true "app_A" "order.created"
         scenario.two_endpoints = Ok eps
    /\ let env := scenario.send_env_second_fails in
       let msg := new_message env scenario.app
                    {| EventType := "order.created"; Payload := "{}" |} in
       let written := made env msg (send_now env) 0 (firstn (2 - 1) eps) in
       MessageHandler_Send env scenario.send_req scenario.two_endpoints
       = (writeError 500 "failed to create delivery",
          add_deliveries (add_message scenario.two_endpoints msg) written)
       /\ List.length written = (2 - 1)%nat
       /\ messages (snd (MessageHandler_Send env scenario.send_req
                           scenario.two_endpoints))
          = (messages scenario.two_endpoints ++ [msg])%list
       /\ deliveries (snd (MessageHandler_Send env scenario.send_req
                             scenario.two_endpoints))
          = (deliveries scenario.two_endpoints ++ written)%list.
Proof.
  eexists. split; [|split; [reflexivity|]].
  - vm_compute. reflexivity.
  - apply (Send_not_atomic scenario.send_env_second_fails scenario.send_req
             scenario.two_endpoints scenario.app
             {| EventType := "order.created"; Payload := "{}" |} _ 2).
    + reflexivity.
    + reflexivity.
    + discriminate.
    + discriminate.
    + reflexivity.
    + reflexivity.
    + vm_compute. split; apply Nat.le_refl || (repeat constructor).
    + intros j Hj. assert (j = 0%nat) by (simpl in Hj; lia).
      subst j. reflexivity.
    + reflexivity.
Defined.

(** ** The size limit of an ingest *)




(** ** Endpoint creation *)

Section Endpoints.

Lemma charset_at_alnum (n : nat) :
  (n < 62)%nat -> is_alnum (charset_at n) = true.
Proof.
  intros H. do 62 (destruct n as [|n]; [reflexivity|]). lia.
Qed.

Lemma random_chars (f : nat -> ascii) (l : list nat) :
  (forall i, is_alnum (f i) = true) ->
  length (string_of_list_ascii (map f l)) = List.length l
  /\ all_alnum (string_of_list_ascii (map f l)) = true.
Proof.
  intros Hf. induction l as [|i l [IH1 IH2]]; simpl; [now split|].
  now rewrite IH1, IH2, Hf.
Qed.

Lemma random_string_spec (entropy : nat -> nat) (size : nat) :
  length (random_string entropy size) = size
  /\ all_alnum (random_string entropy size) = true.
Proof.
  unfold random_string.
  destruct (random_chars
              (fun i => charset_at (rand_Int (entropy i) (length charset)))
              (seq 0 size)) as [H1 H2].
  - intros i. apply charset_at_alnum. unfold rand_Int.
    change (length charset) with 62%nat. apply Nat.mod_upper_bound. lia.
  - rewrite length_seq in H1. now split.
Qed.

End Endpoints.



(* ===================================================================== *)
(** * Part III: further properties of the code                            *)
(* ===================================================================== *)

(** ** The worker *)
Section WorkerMore.

Lemma Forall2_map_same {A : Type} (R : A -> A -> Prop) (f : A -> A)
                       (l : list A) :
  (forall x, R x (f x)) -> Forall2 R l (map f l).
Proof. intros H. induction l; simpl; constructor; auto. Qed.

Lemma same_delivery_refl (id : string) (l : list Delivery) :
  Forall2 (same_delivery id) l l.
Proof.
  rewrite <- (map_id l) at 2. apply Forall2_map_same.
  intros x. repeat split.
Qed.

Lemma UpdateDelivery_same (ok : bool) (now : Time) (d : Delivery)
                          (s : Store) :
  let s' := logged (UpdateDelivery ok now d s) s in
  applications s' = applications s /\ endpoints s' = endpoints s
  /\ messages s' = messages s /\ attempts s' = attempts s
  /\ Forall2 (same_delivery (d_ID d)) (deliveries s) (deliveries s').
Proof.
  destruct ok; simpl; repeat split; try apply same_delivery_refl.
  apply Forall2_map_same. intros x.
  destruct (d_ID x =? d_ID d) eqn:E; repeat split.
  apply String.eqb_eq in E. intros H. contradiction.
Qed.

Lemma advance_same (w : Worker) (env : ProcessEnv) (result : SendResult)
                   (d : Delivery) (s : Store) :
  let s' := store_of (advance w env result d s) in
  applications s' = applications s /\ endpoints s' = endpoints s
  /\ messages s' = messages s /\ attempts s' = attempts s
  /\ Forall2 (same_delivery (d_ID d)) (deliveries s) (deliveries s').
Proof.
  unfold advance.
  destruct ((Error result =? "") && IsSuccess (StatusCode result));
    [apply (UpdateDelivery_same _ _ (set_state d DeliverySuccess None))|].
  destruct (maxAttempts w <=? d_AttemptCount d)%Z;
    [apply (UpdateDelivery_same _ _ (set_state d DeliveryFailed None))|].
  cbn [set_state d_NextRetryAt].
  destruct (NextRetryTime _ _ _) as [t|].
  - apply (UpdateDelivery_same _ _ (set_state d DeliveryRetrying (Some t))).
  - simpl. repeat split. apply same_delivery_refl.
Qed.

End WorkerMore.

Lemma Worker_Process_same (w : Worker) (env : ProcessEnv) (d : Delivery)
                      (s : Store) :
  let s' := store_of (Worker_Process w env d s) in
  applications s' = applications s
  /\ endpoints s' = endpoints s
  /\ messages s' = messages s
  /\ Forall2 (same_delivery (d_ID d)) (deliveries s) (deliveries s')
  /\ (attempts s' = attempts s
      \/ exists result,
           attempts s'
           = (attempts s ++ [new_attempt env (incr_AttemptCount d) result])%list).
Proof.
  cbn zeta. unfold Worker_Process.
  destruct (GetMessage _ _ s) as [|[msg|]];
    try (repeat split; [apply same_delivery_refl | now left]).
  destruct (GetEndpoint _ _ s) as [|[ep|]];
    try (repeat split; [apply same_delivery_refl | now left]).
  destruct (negb (ep_Active ep));
    [repeat split; [apply same_delivery_refl | now left]|].
  match goal with
  | |- context [advance w env ?r ?d1 ?s1] =>
      destruct (advance_same w env r d1 s1) as (Ha & He & Hm & Hat & Hd)
  end.
  rewrite Ha, He, Hm, Hat. cbn [incr_AttemptCount d_ID] in Hd.
  unfold logged, CreateAttempt in *.
  destruct (create_attempt_ok env); cbn in *;
    (repeat split; [exact Hd|]); [right; eexists; reflexivity | now left].
Qed.

(** X1.  Whatever happens to a delivery in [Process], the applications,
    endpoints and messages stay as they are, no delivery row is added or
    removed, a row keeps its identity (id, message, endpoint, creation
    time), rows of other deliveries are not touched, and the attempts
    table grows by at most the one attempt of this run. *)
Theorem Process_frame (w : Worker) (env : ProcessEnv) (d : Delivery)
                      (s : Store) :
  let s' := store_of (Worker_Process w env d s) in
  applications s' = applications s
  /\ endpoints s' = endpoints s
  /\ messages s' = messages s
  /\ Forall2 (same_delivery (d_ID d)) (deliveries s) (deliveries s')
  /\ (attempts s' = attempts s
      \/ exists result,
           attempts s'
           = (attempts s ++ [new_attempt env (incr_AttemptCount d) result])%list).
Proof. apply Worker_Process_same. Qed.

(** X2.  [Process] gives up without a trace when the message or the
    endpoint cannot be loaded or the endpoint is inactive.  Otherwise it
    sends, and the attempt it records (when that write succeeds) names the
    delivery, carries the incremented attempt number and the status code
    and error of the send; this holds whatever happens to the delivery
    update afterwards. *)
Theorem Process_attempt (w : Worker) (env : ProcessEnv) (d : Delivery)
                        (s : Store) :
  match GetMessage (get_message_ok env) (d_MessageID d) s,
        GetEndpoint (get_endpoint_ok env) (d_EndpointID d) s with
  | Ok (Some msg), Ok (Some ep) =>
      if ep_Active ep then
        let result := Sender_Send (sender env) (ep_URL ep) (ep_Secret ep)
                                  (msg_ID msg) (msg_Payload msg) in
        let a := new_attempt env (incr_AttemptCount d) result in
        attempts (store_of (Worker_Process w env d s))
        = (if create_attempt_ok env then attempts s ++ [a] else attempts s)%list
        /\ att_DeliveryID a = d_ID d
        /\ att_AttemptNumber a = wrap64 (d_AttemptCount d + 1)
        /\ att_StatusCode a = StatusCode result
        /\ att_Error a = Error result
      else Worker_Process w env d s = Returned s
  | _, _ => Worker_Process w env d s = Returned s
  end.
Proof.
  unfold Worker_Process.
  destruct (GetMessage _ _ s) as [|[msg|]]; try reflexivity;
    (destruct (GetEndpoint _ _ s) as [|[ep|]]; try reflexivity).
  destruct (ep_Active ep); [|reflexivity]. cbn [negb]. cbn zeta.
  match goal with
  | |- context [advance w env ?r ?d1 ?s1] =>
      destruct (advance_same w env r d1 s1) as (_ & _ & _ & Hat & _)
  end.
  rewrite Hat. unfold logged, CreateAttempt.
  destruct (create_attempt_ok env); repeat split.
Qed.

Section WorkerReturns.

Lemma advance_returns (w : Worker) (env : ProcessEnv) (result : SendResult)
                      (d : Delivery) (s : Store) :
  maxAttempts w - 1 <= Z.of_nat (List.length (retrySchedule w)) ->
  1 <= d_AttemptCount d < 2 ^ 63 ->
  exists s', advance w env result d s = Returned s'.
Proof.
  intros Hlen Hc. unfold advance.
  destruct ((Error result =? "") && IsSuccess (StatusCode result));
    [eexists; reflexivity|].
  destruct (Z.leb_spec (maxAttempts w) (d_AttemptCount d));
    [eexists; reflexivity|].
  unfold NextRetryTime. cbn [set_state d_NextRetryAt d_AttemptCount].
  rewrite wrap64_id by (unfold is_int; lia).
  destruct (Z.ltb_spec (d_AttemptCount d - 1) 0); [lia|].
  destruct (Z.leb_spec (Z.of_nat (List.length (retrySchedule w)))
                       (d_AttemptCount d - 1)); [lia|].
  eexists; reflexivity.
Qed.

(** What a returning [advance] has written when the write succeeds. *)
Lemma advance_returned (w : Worker) (env : ProcessEnv) (result : SendResult)
                       (d : Delivery) (s s' : Store) :
  update_ok env = true ->
  advance w env result d s = Returned s' ->
  exists st next,
    s' = logged (UpdateDelivery true (update_now env) (set_state d st next) s)
                s
    /\ (st = DeliverySuccess
        \/ st = DeliveryFailed
        \/ (st = DeliveryRetrying
            /\ ~ successful result
            /\ d_AttemptCount d < maxAttempts w
            /\ NextRetryTime (retry_now env) (d_AttemptCount d)
                             (retrySchedule w) = next
            /\ next <> None)).
Proof.
  intros Hok. unfold advance. rewrite Hok.
  destruct ((Error result =? "") && IsSuccess (StatusCode result)) eqn:Es.
  { intros H. injection H as <-. exists DeliverySuccess, None.
    split; [reflexivity | now left]. }
  destruct (Z.leb_spec (maxAttempts w) (d_AttemptCount d)) as [Hge|Hlt].
  { intros H. injection H as <-. exists DeliveryFailed, None.
    split; [reflexivity | right; now left]. }
  cbn [set_state d_NextRetryAt d_AttemptCount].
  destruct (NextRetryTime _ _ _) as [t|] eqn:En; [|discriminate].
  intros H. injection H as <-. exists DeliveryRetrying, (Some t).
  split; [reflexivity|]. right; right. apply successful_dec in Es.
  repeat split; try assumption. discriminate.
Qed.

End WorkerReturns.

(** X3.  When the retry schedule has an entry for every attempt but the
    last (at least [maxAttempts - 1] entries), [Process] returns: it does
    not panic, whatever the receiver and the store do. *)
Theorem Process_returns (w : Worker) (env : ProcessEnv) (d : Delivery)
                        (s : Store) :
  maxAttempts w - 1 <= Z.of_nat (List.length (retrySchedule w)) ->
  0 <= d_AttemptCount d < 2 ^ 63 - 1 ->
  exists s', Worker_Process w env d s = Returned s'.
Proof.
  intros Hlen Hc. unfold Worker_Process.
  destruct (GetMessage _ _ s) as [|[msg|]]; try (eexists; reflexivity).
  destruct (GetEndpoint _ _ s) as [|[ep|]]; try (eexists; reflexivity).
  destruct (negb (ep_Active ep)); [eexists; reflexivity|].
  apply advance_returns; [exact Hlen|].
  cbn [incr_AttemptCount d_AttemptCount].
  rewrite wrap64_id by (unfold is_int; lia). lia.
Qed.

Lemma Process_returns_witness :
  maxAttempts default_worker - 1
  <= Z.of_nat (List.length (retrySchedule default_worker))
  /\ 0 <= d_AttemptCount scenario.failed_twice < 2 ^ 63 - 1
  /\ exists s',
       Worker_Process default_worker (scenario.answering 500 (30 * Second))
         scenario.failed_twice scenario.s5 = Returned s'.
Proof.
  assert (H1 : maxAttempts default_worker - 1
               <= Z.of_nat (List.length (retrySchedule default_worker)))
    by (vm_compute; discriminate).
  assert (H2 : 0 <= d_AttemptCount scenario.failed_twice < 2 ^ 63 - 1)
    by (vm_compute; split; [discriminate | reflexivity]).
  split; [exact H1|]. split; [exact H2|].
  exact (Process_returns default_worker
           (scenario.answering 500 (30 * Second)) scenario.failed_twice
           scenario.s5 H1 H2).
Defined.

(** X4.  After [Process] has sent and written the delivery, the due-queue
    scan returns that delivery again only as a retry whose time has come:
    never after a success or a final failure, and never before the retry
    time [retry_now + schedule[attemptCount - 1]]. *)
Theorem processed_not_due_early (w : Worker) (env : ProcessEnv)
                                (d : Delivery) (s s' : Store)
                                (msg : Message) (ep : Endpoint) :
  GetMessage (get_message_ok env) (d_MessageID d) s = Ok (Some msg) ->
  GetEndpoint (get_endpoint_ok env) (d_EndpointID d) s = Ok (Some ep) ->
  ep_Active ep = true ->
  update_ok env = true ->
  Worker_Process w env d s = Returned s' ->
  forall now limit ds d',
    GetPendingDeliveries true now limit s' = Ok ds ->
    In d' ds ->
    d_ID d' = d_ID d ->
    d_Status d' = DeliveryRetrying
    /\ d_AttemptCount d' = wrap64 (d_AttemptCount d + 1)
    /\ d_AttemptCount d' < maxAttempts w
    /\ exists next,
         d_NextRetryAt d' = Some next
         /\ NextRetryTime (retry_now env) (d_AttemptCount d')
                          (retrySchedule w) = Some next
         /\ next <= now.
Proof.
  intros Hm He Ha Hok Hret now limit ds d' Hds Hin Hid.
  rewrite (Worker_Process_sends w env d s msg ep Hm He Ha) in Hret.
  apply advance_returned in Hret; [|exact Hok].
  destruct Hret as (st & next & -> & Hst).
  destruct (GetPendingDeliveries_In _ _ _ _ _ Hds Hin) as [Hrow Hdue].
  apply UpdateDelivery_rows in Hrow; [|exact Hid].
  cbn [set_state incr_AttemptCount d_Status d_AttemptCount d_NextRetryAt]
    in Hrow, Hst.
  destruct Hrow as (Hs & Hc & Hn). destruct Hdue as [Hpr Hnext].
  destruct Hst as [->|[->|(-> & _ & Hlt & Hnrt & Hsome)]].
  - rewrite Hs in Hpr. destruct Hpr; discriminate.
  - rewrite Hs in Hpr. destruct Hpr; discriminate.
  - split; [exact Hs|]. split; [exact Hc|]. rewrite Hc.
    split; [exact Hlt|].
    destruct Hnext as [Hnone|(t & Ht & Hle)].
    + rewrite Hn in Hnone. contradiction.
    + exists t. split; [exact Ht|]. split; [|exact Hle].
      rewrite Hnrt, <- Hn. exact Ht.
Qed.

Lemma processed_not_due_early_witness :
  GetPendingDeliveries true (12 * Second) 50 scenario.s3 = Ok [retrying_row]
  /\ d_Status retrying_row = DeliveryRetrying
  /\ d_AttemptCount retrying_row = wrap64 (d_AttemptCount pending_row + 1)
  /\ d_AttemptCount retrying_row < maxAttempts scenario.w2
  /\ exists next,
       d_NextRetryAt retrying_row = Some next
       /\ NextRetryTime (retry_now (scenario.answering 500 (11 * Second)))
                        (d_AttemptCount retrying_row)
                        (retrySchedule scenario.w2)
          = Some next
       /\ next <= 12 * Second.
Proof.
  assert (Hds : GetPendingDeliveries true (12 * Second) 50 scenario.s3
                = Ok [retrying_row]) by (vm_compute; reflexivity).
  split; [exact Hds|].
  eapply (processed_not_due_early scenario.w2
            (scenario.answering 500 (11 * Second)) pending_row
            scenario.s2 scenario.s3);
    [ reflexivity | reflexivity | reflexivity | reflexivity | reflexivity
    | exact Hds | now left | reflexivity ].
Defined.

(** ** The sender and the signature *)
Section SenderMore.

Lemma substring_prefix (n : nat) (s : string) :
  (length (substring 0 n s) <= n)%nat
  /\ (exists rest, s = substring 0 n s ++ rest)
  /\ ((length s <= n)%nat -> substring 0 n s = s).
Proof.
  revert n. induction s as [|c s IH]; intros n.
  - destruct n; simpl; repeat split; try lia; now exists "".
  - destruct n as [|n]; simpl.
    + repeat split; [lia | now exists (String c s) | lia].
    + destruct (IH n) as (H1 & [rest H2] & H3). repeat split.
      * lia.
      * exists rest. now rewrite <- H2.
      * intros H. rewrite H3 by lia. reflexivity.
Qed.

Lemma Sender_Send_request (env : SenderEnv)
                          (url secret messageID payload : string) :
  Sender_Send env url secret messageID payload
  = match new_request_error env with
    | Some err =>
        {| StatusCode := 0; ResponseBody := "";
           LatencyMs := elapsed_ms env;
           Error := "failed to create request: " ++ err |}
    | None =>
        match round_trip env
                (Sender_request env url secret messageID payload) with
        | DoError err =>
            {| StatusCode := 0; ResponseBody := "";
               LatencyMs := elapsed_ms env;
               Error := "request failed: " ++ err |}
        | Responded st body =>
            {| StatusCode := st;
               ResponseBody := strings.slice body 0 1024;
               LatencyMs := elapsed_ms env;
               Error := "" |}
        end
    end.
Proof. reflexivity. Qed.

Lemma digit_is_hex (d : Z) : is_hex (hex.digit d) = true.
Proof.
  unfold hex.digit. generalize (Z.to_nat d). intros n.
  do 16 (destruct n as [|n]; [reflexivity|]). reflexivity.
Qed.

Lemma EncodeToString_format (bs : list Z) :
  length (hex.EncodeToString bs) = (2 * List.length bs)%nat
  /\ all_hex (hex.EncodeToString bs) = true.
Proof.
  induction bs as [|b bs [IH1 IH2]]; [now split|].
  cbn [hex.EncodeToString length all_hex List.length].
  rewrite IH1, IH2, !digit_is_hex. split; [lia | reflexivity].
Qed.

Lemma length_compress (h block : list Z) :
  List.length h = 8%nat -> List.length (sha256.compress h block) = 8%nat.
Proof.
  intros H. unfold sha256.compress.
  rewrite length_map, length_combine, H. reflexivity.
Qed.

Lemma length_Sum256 (msg : list Z) :
  List.length (sha256.Sum256 msg) = 32%nat.
Proof.
  unfold sha256.Sum256.
  set (bl := sha256.blocks _ _).
  assert (H : forall h, List.length h = 8%nat ->
                        List.length (fold_left sha256.compress bl h) = 8%nat).
  { induction bl as [|b bl IH]; intros h Hh; simpl; [exact Hh|].
    apply IH. now apply length_compress. }
  specialize (H sha256.H0 eq_refl). revert H.
  generalize (fold_left sha256.compress bl sha256.H0). intros h Hh.
  do 9 (destruct h as [|? h]; try discriminate). reflexivity.
Qed.

End SenderMore.

(** X5.  The result of a send has one of two shapes.  A transport
    failure (the request cannot be built, or the client reports an error)
    gives status code 0, a non-empty error and no body, and is not a
    success.  A response gives its status code, an empty error and the
    first 1024 bytes of its body (all of it when shorter).  The send counts
    as a success exactly when a response with a 2xx status arrived. *)
Theorem Sender_Send_result (env : SenderEnv)
                           (url secret messageID payload : string) :
  let r := Sender_Send env url secret messageID payload in
  let outcome := round_trip env
                   (Sender_request env url secret messageID payload) in
  LatencyMs r = elapsed_ms env
  /\ match new_request_error env, outcome with
     | None, Responded st body =>
         StatusCode r = st
         /\ Error r = ""
         /\ (length (ResponseBody r) <= 1024)%nat
         /\ (exists rest, body = ResponseBody r ++ rest)
         /\ ((length body <= 1024)%nat -> ResponseBody r = body)
     | _, _ =>
         StatusCode r = 0 /\ Error r <> "" /\ ResponseBody r = ""
         /\ ~ successful r
     end
  /\ (successful r
      <-> new_request_error env = None
          /\ exists st body, outcome = Responded st body /\ 200 <= st < 300).
Proof.
  cbn zeta. rewrite Sender_Send_request.
  destruct (new_request_error env) as [err|].
  { cbn. split; [reflexivity|]. split.
    - repeat split; try discriminate. intros [H _]. discriminate.
    - split; [intros [H _]; discriminate | intros [H _]; discriminate]. }
  destruct (round_trip env _) as [err|st body].
  { cbn. split; [reflexivity|]. split.
    - repeat split; try discriminate. intros [H _]. discriminate.
    - split; [intros [H _]; discriminate|].
      intros (_ & st & body & H & _). discriminate. }
  unfold successful. cbn [StatusCode Error ResponseBody LatencyMs].
  unfold strings.slice. rewrite Nat.sub_0_r.
  destruct (substring_prefix 1024 body) as (H1 & H2 & H3).
  split; [reflexivity|]. split; [repeat split; assumption|].
  split.
  - intros [_ H]. split; [reflexivity|]. now exists st, body.
  - intros (_ & st' & body' & E & H). injection E as <- <-. now split.
Qed.

(** X6.  The request that the sender issues carries the payload as its
    body, the message id and the decimal timestamp in their headers, and
    a signature header that [Verify] accepts for the endpoint's secret,
    that body and that timestamp. *)
Theorem Sender_request_signed (env : SenderEnv)
                              (url secret messageID payload : string) :
  let req := Sender_request env url secret messageID payload in
  let header := Header_Get (req_Header req) in
  req_URL req = url
  /\ req_Body req = payload
  /\ header "Content-Type" = "application/json"
  /\ header "User-Agent" = "PipeRelay/1.0"
  /\ header "X-PipeRelay-ID" = messageID
  /\ header "X-PipeRelay-Timestamp" = decimal (unix_now env)
  /\ signing.Verify secret (req_Body req) (unix_now env)
       (header "X-PipeRelay-Signature") = true.
Proof.
  cbn zeta. unfold Sender_request, signing.Sign.
  cbn [req_URL req_Body req_Header]. repeat split.
  unfold Header_Get. cbn [find fst snd String.eqb Ascii.eqb Bool.eqb].
  now apply Verify_iff.
Qed.

(** X7.  A signature always has 67 characters: [v1=] and 64 lowercase
    hexadecimal digits. *)
Theorem signature_format (secret payload : string) (timestamp : Z) :
  exists digits,
    signing.signature secret payload timestamp = "v1=" ++ digits
    /\ length digits = 64%nat
    /\ all_hex digits = true
    /\ length (signing.signature secret payload timestamp) = 67%nat.
Proof.
  unfold signing.signature. eexists. split; [reflexivity|].
  destruct (EncodeToString_format
              (hmac.Sum (bytes_of_string secret)
                 (bytes_of_string (signing.toSign timestamp payload))))
    as [H1 H2].
  unfold hmac.Sum in *. rewrite length_Sum256 in H1.
  split; [exact H1|]. split; [exact H2|].
  cbn [append length]. now rewrite H1.
Qed.

(** ** Authentication and applications *)
Section AuthMore.

Lemma TrimPrefix_append (p r : string) : TrimPrefix (p ++ r) p = r.
Proof.
  unfold TrimPrefix.
  replace (strings.HasPrefix (p ++ r) p) with true
    by (symmetry; apply HasPrefix_spec; now exists r).
  unfold strings.slice. rewrite length_append.
  replace (length p + length r - length p)%nat with (length r) by lia.
  apply substring_tail.
Qed.

Lemma TrimPrefix_cases (s p : string) :
  (exists r, s = p ++ r /\ TrimPrefix s p = r)
  \/ ((forall r, s <> p ++ r) /\ TrimPrefix s p = s).
Proof.
  destruct (strings.HasPrefix s p) eqn:E.
  - apply HasPrefix_spec in E. destruct E as [r ->]. left. exists r.
    split; [reflexivity | apply TrimPrefix_append].
  - right. split.
    + intros r ->. assert (strings.HasPrefix (p ++ r) p = true)
        by (apply HasPrefix_spec; now exists r). congruence.
    + unfold TrimPrefix. now rewrite E.
Qed.

Lemma bearer_differs (key : string) : (key =? "Bearer " ++ key) = false.
Proof.
  apply String.eqb_neq. intros H. apply (f_equal length) in H.
  rewrite length_append in H. simpl in H. lia.
Qed.

Lemma AuthMiddleware_bearer (io_ok : bool) (key : string) (s : Store) :
  AuthMiddleware io_ok ("Bearer " ++ key) s
  = match GetApplicationByAPIKey io_ok key s with
    | Err => Rejected 500 "internal error"
    | Ok None => Rejected 401 "invalid api key"
    | Ok (Some app) => Passed app
    end.
Proof.
  unfold AuthMiddleware.
  change ("Bearer " ++ key =? "") with false. cbv iota.
  rewrite TrimPrefix_append, bearer_differs. reflexivity.
Qed.

(** The first row with a key is the row itself when keys are unique. *)
Lemma find_unique {A : Type} (f : A -> bool) (l : list A) (x : A) :
  In x l -> f x = true ->
  (forall y, In y l -> f y = true -> y = x) ->
  find f l = Some x.
Proof.
  intros Hin Hf Huniq. destruct (find f l) as [y|] eqn:E.
  - apply find_some in E. destruct E as [Hy Hfy].
    f_equal. now apply Huniq.
  - apply (find_none _ _ E) in Hin. congruence.
Qed.

Lemma find_last {A : Type} (f : A -> bool) (l : list A) (x : A) :
  (forall y, In y l -> f y = false) -> f x = true ->
  find f (l ++ [x]) = Some x.
Proof.
  intros Hl Hx. induction l as [|y l IH]; simpl.
  - now rewrite Hx.
  - rewrite (Hl y) by now left. apply IH. intros z Hz. apply Hl. now right.
Qed.

End AuthMore.

(** X8.  The authentication middleware hands a request on only with an
    application of the store whose API key is the bearer token of the
    [Authorization] header; and when API keys are unique, the token of a
    stored application passes with that application. *)
Theorem AuthMiddleware_sound_complete (io_ok : bool) (auth : string)
                                      (s : Store) (app : Application) :
  (AuthMiddleware io_ok auth s = Passed app ->
   io_ok = true
   /\ In app (applications s)
   /\ auth = "Bearer " ++ app_APIKey app)
  /\ (In app (applications s) ->
      (forall other, In other (applications s) ->
                     app_APIKey other = app_APIKey app -> other = app) ->
      AuthMiddleware true ("Bearer " ++ app_APIKey app) s = Passed app).
Proof.
  split.
  - unfold AuthMiddleware. destruct (auth =? ""); [discriminate|].
    destruct (TrimPrefix_cases auth "Bearer ") as [(key & -> & ->)|[_ ->]].
    + rewrite bearer_differs. unfold GetApplicationByAPIKey.
      destruct io_ok; [|discriminate].
      destruct (find _ _) as [a|] eqn:E; [|discriminate].
      intros H. injection H as ->. apply find_some in E.
      destruct E as [Hin Hkey]. apply String.eqb_eq in Hkey.
      now rewrite Hkey.
    + rewrite String.eqb_refl. discriminate.
  - intros Hin Huniq. rewrite AuthMiddleware_bearer.
    unfold GetApplicationByAPIKey. rewrite (find_unique _ _ app).
    + reflexivity.
    + exact Hin.
    + apply String.eqb_refl.
    + intros y Hy Hk. apply Huniq; [exact Hy | now apply String.eqb_eq].
Qed.

(** X9.  A created application gets an API key of the form [pk_] followed
    by 32 letters or digits and is added to the store; the reply shows the
    key; and unless an older application already has that key, the key
    authenticates as the new application. *)
Theorem Application_Create_authenticates (env : CreateAppEnv)
                                         (body : option createAppRequest)
                                         (s s' : Store) (app : Application) :
  ApplicationHandler_Create env body s = (ReplyJSON 201 app, s') ->
  (exists tail,
     app_APIKey app = "pk_" ++ tail
     /\ length tail = 32%nat /\ all_alnum tail = true)
  /\ body = Some {| Name := app_Name app |}
  /\ app_Name app <> ""
  /\ applications s' = (applications s ++ [app])%list
  /\ endpoints s' = endpoints s
  /\ messages s' = messages s
  /\ deliveries s' = deliveries s
  /\ attempts s' = attempts s
  /\ ((forall a, In a (applications s) -> app_APIKey a <> app_APIKey app) ->
      AuthMiddleware true ("Bearer " ++ app_APIKey app) s' = Passed app).
Proof.
  unfold ApplicationHandler_Create.
  destruct body as [[name]|]; [|discriminate]. cbn [Name].
  destruct (name =? "") eqn:En; [discriminate|].
  unfold CreateApplication.
  destruct (create_application_ok env); [|discriminate].
  intros H. injection H as <- <-.
  cbn [app_APIKey app_Name applications endpoints messages deliveries
       attempts].
  split.
  { exists (random_string (key_entropy env) 32).
    split; [reflexivity | apply random_string_spec]. }
  split; [reflexivity|]. split; [now apply String.eqb_neq|].
  repeat (split; [reflexivity|]).
  intros Hfresh. rewrite AuthMiddleware_bearer.
  unfold GetApplicationByAPIKey. cbn [applications].
  rewrite find_last; [reflexivity | | apply String.eqb_refl].
  intros y Hy. apply String.eqb_neq. now apply Hfresh.
Qed.

Lemma Application_Create_authenticates_witness :
  let env := {| app_now := 1 * Second; app_ulid := "01P";
                key_entropy := fun i => (5 * i + 1)%nat;
                create_application_ok := true |} in
  let app := {| app_ID := "app_01P"; app_Name := "shop";
                app_APIKey := NewAPIKey (fun i => (5 * i + 1)%nat);
                app_CreatedAt := 1 * Second;
                app_UpdatedAt := 1 * Second |} in
  let s' := {| applications := [app]; endpoints := []; messages := [];
               deliveries := []; attempts := [] |} in
  ApplicationHandler_Create env (Some {| Name := "shop" |}) storage.empty
  = (ReplyJSON 201 app, s')
  /\ (exists tail,
        app_APIKey app = "pk_" ++ tail
        /\ length tail = 32%nat /\ all_alnum tail = true)
  /\ Some {| Name := "shop" |} = Some {| Name := app_Name app |}
  /\ app_Name app <> ""
  /\ applications s' = (applications storage.empty ++ [app])%list
  /\ endpoints s' = endpoints storage.empty
  /\ messages s' = messages storage.empty
  /\ deliveries s' = deliveries storage.empty
  /\ attempts s' = attempts storage.empty
  /\ ((forall a, In a (applications storage.empty) ->
                 app_APIKey a <> app_APIKey app) ->
      AuthMiddleware true ("Bearer " ++ app_APIKey app) s' = Passed app).
Proof.
  cbn zeta. split; [reflexivity|].
  apply (Application_Create_authenticates
           {| app_now := 1 * Second; app_ulid := "01P";
              key_entropy := fun i => (5 * i + 1)%nat;
              create_application_ok := true |}
           (Some {| Name := "shop" |}) storage.empty).
  reflexivity.
Defined.

Section SortingMore.

Context {A : Type}.
Variable key : A -> Z.

Lemma insert_by_key_desc (x : A) (l : list A) :
  StronglySorted (key_ge key) l ->
  StronglySorted (key_ge key)
                 (insert_by (fun a b => (key b <=? key a)%Z) x l).
Proof.
  induction 1 as [|y r Hr IH Hy]; simpl.
  - repeat constructor.
  - destruct (Z.leb_spec (key y) (key x)) as [Hxy|Hxy].
    + constructor; [now constructor|]. constructor; [exact Hxy|].
      eapply Forall_impl; [|exact Hy]. unfold key_ge. intros; lia.
    + constructor; [exact IH|].
      eapply Permutation_Forall; [symmetry; apply insert_by_perm|].
      constructor; [unfold key_ge; lia | exact Hy].
Qed.

Lemma sort_by_key_desc (l : list A) :
  StronglySorted (key_ge key) (sort_by (fun a b => (key b <=? key a)%Z) l).
Proof.
  induction l as [|x r IH]; simpl; [constructor|].
  now apply insert_by_key_desc.
Qed.

Lemma StronglySorted_map_key (f : A -> A) (l : list A) :
  (forall a, key (f a) = key a) ->
  StronglySorted (key_ge key) l ->
  StronglySorted (key_ge key) (map f l).
Proof.
  intros Hf. induction 1 as [|y r Hr IH Hy]; simpl; constructor;
    [exact IH|].
  apply Forall_map. eapply Forall_impl; [|exact Hy].
  unfold key_ge. intros a. now rewrite !Hf.
Qed.

Lemma StronglySorted_skipn (R : A -> A -> Prop) (n : nat) (l : list A) :
  StronglySorted R l -> StronglySorted R (skipn n l).
Proof.
  intros Hs. revert n. induction Hs as [|a l Hs IH Ha]; intros n.
  - rewrite skipn_nil. constructor.
  - destruct n as [|n]; simpl; [now constructor | apply IH].
Qed.

End SortingMore.

Lemma find_absent {A : Type} (f : A -> bool) (l : list A) :
  (forall x, In x l -> f x = false) -> find f l = None.
Proof.
  intros H. destruct (find f l) as [y|] eqn:E; [|reflexivity].
  apply find_some in E. destruct E as [Hy Hf]. rewrite (H y Hy) in Hf.
  discriminate.
Qed.

(** X10.  Reading applications never shows an API key: [Get] answers with
    the stored application of that id with its key blanked (404 when there
    is none), and [List] with all stored applications, newest first, each
    with its key blanked. *)
Theorem applications_hide_keys (io_ok : bool) (id : string) (s : Store) :
  match ApplicationHandler_Get io_ok id s with
  | ReplyJSON code a =>
      code = 200 /\ io_ok = true /\ app_APIKey a = "" /\ app_ID a = id
      /\ exists stored, In stored (applications s) /\ a = hide_key stored
  | ReplyError code _ =>
      (code = 500 /\ io_ok = false)
      \/ (code = 404 /\ io_ok = true
          /\ forall a, In a (applications s) -> app_ID a <> id)
  | ReplyStatus _ => False
  end
  /\ match ApplicationHandler_List io_ok s with
     | ReplyJSON code l =>
         code = 200 /\ io_ok = true
         /\ Forall (fun a => app_APIKey a = "") l
         /\ Permutation l (map hide_key (applications s))
         /\ StronglySorted (key_ge app_CreatedAt) l
     | ReplyError code _ => code = 500 /\ io_ok = false
     | ReplyStatus _ => False
     end.
Proof.
  unfold ApplicationHandler_Get, ApplicationHandler_List, GetApplication,
    ListApplications.
  destruct io_ok; [|split; [now left | now split]]. split.
  - destruct (find _ _) as [a|] eqn:E.
    + apply find_some in E. destruct E as [Hin Hid].
      apply String.eqb_eq in Hid. repeat split; try assumption.
      now exists a.
    + right. repeat split. intros a Ha. apply String.eqb_neq.
      exact (find_none _ _ E a Ha).
  - repeat split.
    + apply Forall_map. apply Forall_forall. reflexivity.
    + apply Permutation_map, sort_by_perm.
    + apply StronglySorted_map_key; [reflexivity | apply sort_by_key_desc].
Qed.

(** X11.  After a key rotation every application with that id has the new
    key and nothing else in the store has changed; the old key no longer
    authenticates (when it differs from the new one and belonged to this
    application only), and the new key authenticates as this application
    (when no other application has it). *)
Theorem RotateKey_replaces_key (env : RotateEnv) (id : string)
                               (s s' : Store) (key : string) :
  ApplicationHandler_RotateKey env id s = (ReplyJSON 200 key, s') ->
  key = NewAPIKey (rotate_entropy env)
  /\ (exists app, In app (applications s) /\ app_ID app = id)
  /\ Forall2 (fun old new =>
                app_ID new = app_ID old /\ app_Name new = app_Name old
                /\ (app_ID old = id -> app_APIKey new = key)
                /\ (app_ID old <> id -> new = old))
             (applications s) (applications s')
  /\ endpoints s' = endpoints s
  /\ messages s' = messages s
  /\ deliveries s' = deliveries s
  /\ attempts s' = attempts s
  /\ (forall old,
        old <> key ->
        (forall a, In a (applications s) -> app_APIKey a = old ->
                   app_ID a = id) ->
        AuthMiddleware true ("Bearer " ++ old) s'
        = Rejected 401 "invalid api key")
  /\ ((forall a, In a (applications s) -> app_ID a <> id ->
                 app_APIKey a <> key) ->
      exists app, AuthMiddleware true ("Bearer " ++ key) s' = Passed app
                  /\ app_ID app = id).
Proof.
  unfold ApplicationHandler_RotateKey, GetApplication.
  destruct (rotate_get_ok env); [|discriminate].
  destruct (find _ _) as [app|] eqn:E; [|discriminate].
  unfold UpdateApplicationAPIKey.
  destruct (rotate_update_ok env); [|discriminate].
  intros H. injection H as <- <-.
  apply find_some in E. destruct E as [Hin Hid]. apply String.eqb_eq in Hid.
  cbn [applications endpoints messages deliveries attempts].
  set (key := NewAPIKey (rotate_entropy env)).
  set (g := fun a => if app_ID a =? id
                     then set_APIKey key (rotate_now env) a else a).
  assert (Hg : forall a, In a (map g (applications s)) ->
                         exists a0, In a0 (applications s)
                                    /\ ((app_ID a0 = id /\ app_ID a = id
                                         /\ app_APIKey a = key)
                                        \/ (app_ID a0 <> id /\ a = a0))).
  { intros a Ha. apply in_map_iff in Ha. destruct Ha as (a0 & <- & Ha0).
    exists a0. split; [exact Ha0|]. unfold g.
    destruct (app_ID a0 =? id) eqn:E0.
    - apply String.eqb_eq in E0. left. now repeat split.
    - apply String.eqb_neq in E0. right. now split. }
  split; [reflexivity|]. split; [now exists app|]. split.
  { apply Forall2_map_same. intros a. unfold g.
    destruct (app_ID a =? id) eqn:E0.
    - apply String.eqb_eq in E0. repeat split. intros Hne. contradiction.
    - apply String.eqb_neq in E0. repeat split. intros He. contradiction. }
  repeat (split; [reflexivity|]). split.
  - intros old Hne Honly. rewrite AuthMiddleware_bearer.
    unfold GetApplicationByAPIKey. cbn [applications].
    rewrite find_absent; [reflexivity|].
    intros a Ha. apply String.eqb_neq. intros Hk.
    destruct (Hg a Ha) as (a0 & Ha0 & [(_ & _ & Hk')|(Hid0 & ->)]).
    + congruence.
    + apply Hid0. now apply Honly.
  - intros Hfree. rewrite AuthMiddleware_bearer.
    unfold GetApplicationByAPIKey. cbn [applications].
    destruct (find _ (map g (applications s))) as [a|] eqn:Ef.
    + exists a. split; [reflexivity|]. apply find_some in Ef.
      destruct Ef as [Ha Hk]. apply String.eqb_eq in Hk.
      destruct (Hg a Ha) as (a0 & Ha0 & [(_ & Hida & _)|(Hid0 & ->)]);
        [exact Hida|].
      exfalso. exact (Hfree a0 Ha0 Hid0 Hk).
    + exfalso. assert (Hm : In (g app) (map g (applications s)))
        by now apply in_map.
      apply (find_none _ _ Ef) in Hm.
      assert (Eg : g app = set_APIKey key (rotate_now env) app)
        by (unfold g; now rewrite Hid, String.eqb_refl).
      rewrite Eg in Hm. cbn [set_APIKey app_APIKey] in Hm.
      rewrite String.eqb_refl in Hm. discriminate.
Qed.

Lemma RotateKey_replaces_key_witness :
  let key := NewAPIKey (rotate_entropy rotate_env) in
  let s' := snd (ApplicationHandler_RotateKey rotate_env "app_A" one_app) in
  ApplicationHandler_RotateKey rotate_env "app_A" one_app
  = (ReplyJSON 200 key, s')
  /\ key = NewAPIKey (rotate_entropy rotate_env)
  /\ (exists app, In app (applications one_app) /\ app_ID app = "app_A")
  /\ Forall2 (fun old new =>
                app_ID new = app_ID old /\ app_Name new = app_Name old
                /\ (app_ID old = "app_A" -> app_APIKey new = key)
                /\ (app_ID old <> "app_A" -> new = old))
             (applications one_app) (applications s')
  /\ endpoints s' = endpoints one_app
  /\ messages s' = messages one_app
  /\ deliveries s' = deliveries one_app
  /\ attempts s' = attempts one_app
  /\ (forall old,
        old <> key ->
        (forall a, In a (applications one_app) -> app_APIKey a = old ->
                   app_ID a = "app_A") ->
        AuthMiddleware true ("Bearer " ++ old) s'
        = Rejected 401 "invalid api key")
  /\ ((forall a, In a (applications one_app) -> app_ID a <> "app_A" ->
                 app_APIKey a <> key) ->
      exists app, AuthMiddleware true ("Bearer " ++ key) s' = Passed app
                  /\ app_ID app = "app_A").
Proof.
  cbn zeta. split; [reflexivity|].
  apply (RotateKey_replaces_key rotate_env "app_A" one_app). reflexivity.
Defined.

(** ** Endpoints *)
Section EndpointsMore.

Lemma find_map {A : Type} (p : A -> bool) (g : A -> A) (l : list A) :
  (forall x, p (g x) = p x) ->
  find p (map g l) = option_map g (find p l).
Proof.
  intros H. induction l as [|x l IH]; simpl; [reflexivity|].
  rewrite H. destruct (p x); [reflexivity | exact IH].
Qed.

Lemma same_endpoint_refl (id : string) (l : list Endpoint) :
  Forall2 (same_endpoint id) l l.
Proof.
  rewrite <- (map_id l) at 2. apply Forall2_map_same.
  intros x. repeat split.
Qed.

(** A delivery row that an ingest adds is pending, belongs to the message
    and is for one of the endpoints of the fan-out. *)
Lemma fan_out_new_rows (env : SendEnv) (msg : Message) (now : Time)
                       (eps : list Endpoint) (i : nat)
                       (acc : list Delivery) (s : Store) (row : Delivery) :
  In row (deliveries (snd (fan_out env msg now eps i acc s))) ->
  In row (deliveries s)
  \/ (fresh row /\ d_MessageID row = msg_ID msg
      /\ exists ep, In ep eps /\ d_EndpointID row = ep_ID ep).
Proof.
  revert i acc s. induction eps as [|ep rest IH]; intros i acc s; simpl.
  - now left.
  - unfold CreateDelivery. destruct (create_delivery_ok env i); simpl.
    + intros H. apply IH in H. simpl in H.
      destruct H as [H|(Hf & Hm & ep' & Hep & Hid)].
      * apply in_app_or in H. destruct H as [H|[<-|[]]]; [now left|].
        right. split; [repeat split|]. split; [reflexivity|].
        exists ep. split; [now left | reflexivity].
      * right. split; [exact Hf|]. split; [exact Hm|].
        exists ep'. split; [now right | exact Hid].
    + now left.
Qed.

Lemma Send_new_rows (env : SendEnv) (r : SendHttp) (s : Store)
                    (row : Delivery) :
  In row (deliveries (snd (MessageHandler_Send env r s))) ->
  In row (deliveries s)
  \/ (fresh row
      /\ exists app req ep,
           ctx_app r = Some app
           /\ DecodeLimited maxPayloadSize (send_body r) = Some req
           /\ In ep (endpoints s)
           /\ d_EndpointID row = ep_ID ep
           /\ subscribed (app_ID app) (EventType req) ep = true).
Proof.
  unfold MessageHandler_Send.
  destruct (ctx_app r) as [app|]; [|now left].
  destruct (DecodeLimited _ _) as [req|]; [|now left].
  destruct (EventType req =? ""); [now left|].
  destruct (length (Payload req) =? 0)%nat; [now left|].
  unfold CreateMessage. destruct (create_message_ok env); [|now left].
  unfold GetEndpointsByEventType.
  destruct (get_endpoints_ok env); [|now left].
  intros H. apply fan_out_new_rows in H.
  destruct H as [H|(Hf & _ & ep & Hep & Hid)]; [now left|].
  right. split; [exact Hf|]. exists app, req, ep.
  repeat split; try assumption.
  - apply filter_In in Hep. destruct Hep as [Hep _].
    apply sort_by_In, filter_In in Hep. apply Hep.
  - apply filter_In in Hep. destruct Hep as [Hep Hm].
    apply sort_by_In, filter_In in Hep. destruct Hep as [_ Ha].
    unfold subscribed. cbn [endpoints] in *. now rewrite Ha, Hm.
Qed.

(** What an accepted ingest leaves in the store. *)
Lemma Send_accepted_store (env : SendEnv) (r : SendHttp) (s : Store) :
  status (fst (MessageHandler_Send env r s)) = 202 ->
  exists app req eps,
    ctx_app r = Some app
    /\ DecodeLimited maxPayloadSize (send_body r) = Some req
    /\ Permutation eps (filter (subscribed (app_ID app) (EventType req))
                               (endpoints s))
    /\ snd (MessageHandler_Send env r s)
       = add_deliveries (add_message s (new_message env app req))
           (made env (new_message env app req) (send_now env) 0 eps).
Proof.
  intros H202.
  destruct (Send_accepted_inv env r s H202)
    as (app & req & Happ & Hreq & Het & Hpl & Hmsg & Hget).
  destruct (GetEndpointsByEventType_subscribed (app_ID app) (EventType req) s)
    as (eps & Heps & Hperm).
  exists app, req, eps. repeat (split; [assumption|]).
  assert (E : MessageHandler_Send env r s
              = fan_out env (new_message env app req) (send_now env) eps 0 []
                  (add_message s (new_message env app req)))
    by (apply Send_fans_out; try assumption; now rewrite Hget).
  rewrite E in H202 |- *.
  now rewrite fan_out_complete
    by (apply (fan_out_status _ _ _ _ _ _ _ H202)).
Qed.

End EndpointsMore.

(** X12.  An endpoint update keeps the id, the owner, the secret, the
    active flag and the creation time; it takes the URL from the request
    only when the request has one (which must then be a valid http or
    https URL) and the event types only when the request has some, while
    the description and the rate limit always come from the request.
    Reading the endpoint back gives what was written, with the update time
    (the reply still shows the old one); other endpoints and the other
    tables are untouched. *)
Theorem Update_endpoint (url_Parse : string -> option url.URL)
                        (env : UpdateEnv) (id : string)
                        (body : option updateEndpointRequest)
                        (s s' : Store) (shown : Endpoint) :
  EndpointHandler_Update url_Parse env id body s = (ReplyJSON 200 shown, s') ->
  exists ep req stored,
    GetEndpoint true id s = Ok (Some ep)
    /\ body = Some req
    /\ GetEndpoint true id s' = Ok (Some stored)
    /\ ep_ID stored = id /\ ep_ID shown = id
    /\ ep_AppID stored = ep_AppID ep /\ ep_AppID shown = ep_AppID ep
    /\ ep_Secret stored = ep_Secret ep /\ ep_Secret shown = ep_Secret ep
    /\ ep_CreatedAt stored = ep_CreatedAt ep
    /\ ep_Active shown = ep_Active ep /\ ep_Active stored = ep_Active ep
    /\ ((upd_URL req = "" /\ ep_URL stored = ep_URL ep)
        \/ (valid_http_url url_Parse (upd_URL req) = true
            /\ ep_URL stored = upd_URL req))
    /\ ep_URL shown = ep_URL stored
    /\ ep_Description stored = upd_Description req
    /\ ep_RateLimit stored = upd_RateLimit req
    /\ ep_EventTypes stored
       = match upd_EventTypes req with
         | None => ep_EventTypes ep
         | Some l => Some l
         end
    /\ ep_EventTypes shown = ep_EventTypes stored
    /\ ep_UpdatedAt stored = update_endpoint_now env
    /\ ep_UpdatedAt shown = ep_UpdatedAt ep
    /\ Forall2 (same_endpoint id) (endpoints s) (endpoints s')
    /\ applications s' = applications s
    /\ messages s' = messages s
    /\ deliveries s' = deliveries s
    /\ attempts s' = attempts s.
Proof.
  unfold EndpointHandler_Update, GetEndpoint.
  destruct (update_get_ok env); [|discriminate].
  destruct (find _ (endpoints s)) as [ep|] eqn:E; [|discriminate].
  destruct body as [req|]; [|discriminate].
  destruct (negb (upd_URL req =? "")
            && negb (valid_http_url url_Parse (upd_URL req))) eqn:Eurl;
    [discriminate|].
  unfold UpdateEndpoint. destruct (update_endpoint_ok env); [|discriminate].
  intros H. injection H as <- <-.
  pose proof (find_some _ _ E) as [Hin Hid]. apply String.eqb_eq in Hid.
  cbn [applications endpoints messages deliveries attempts].
  exists ep, req,
    (updated_endpoint (update_endpoint_now env) (apply_update req ep) ep).
  split; [reflexivity|]. split; [reflexivity|]. split.
  { rewrite find_map.
    - rewrite E. cbn [option_map apply_update ep_ID].
      now rewrite String.eqb_refl.
    - intros x. cbn [apply_update ep_ID].
      now destruct (ep_ID x =? ep_ID ep). }
  split; [exact Hid|]. split; [exact Hid|].
  repeat (split; [reflexivity|]). split.
  { cbn [updated_endpoint apply_update ep_URL].
    destruct (upd_URL req =? "") eqn:Eu.
    - left. apply String.eqb_eq in Eu. now split.
    - right. cbn in Eurl. apply negb_false_iff in Eurl. now split. }
  repeat (split; [reflexivity|]). split; [|repeat split].
  apply Forall2_map_same. intros x. cbn [apply_update ep_ID].
  destruct (ep_ID x =? ep_ID ep) eqn:Ex; repeat split.
  apply String.eqb_eq in Ex. rewrite Ex, Hid. intros Hn. contradiction.
Qed.

Lemma Update_endpoint_witness :
  exists shown s',
    EndpointHandler_Update scenario.parse update_env "ep_01E"
      (Some update_req) scenario.s1 = (ReplyJSON 200 shown, s')
    /\ exists ep req stored,
         GetEndpoint true "ep_01E" scenario.s1 = Ok (Some ep)
         /\ Some update_req = Some req
         /\ GetEndpoint true "ep_01E" s' = Ok (Some stored)
         /\ ep_ID stored = "ep_01E" /\ ep_ID shown = "ep_01E"
         /\ ep_AppID stored = ep_AppID ep /\ ep_AppID shown = ep_AppID ep
         /\ ep_Secret stored = ep_Secret ep /\ ep_Secret shown = ep_Secret ep
         /\ ep_CreatedAt stored = ep_CreatedAt ep
         /\ ep_Active shown = ep_Active ep /\ ep_Active stored = ep_Active ep
         /\ ((upd_URL req = "" /\ ep_URL stored = ep_URL ep)
             \/ (valid_http_url scenario.parse (upd_URL req) = true
                 /\ ep_URL stored = upd_URL req))
         /\ ep_URL shown = ep_URL stored
         /\ ep_Description stored = upd_Description req
         /\ ep_RateLimit stored = upd_RateLimit req
         /\ ep_EventTypes stored
            = match upd_EventTypes req with
              | None => ep_EventTypes ep
              | Some l => Some l
              end
         /\ ep_EventTypes shown = ep_EventTypes stored
         /\ ep_UpdatedAt stored = update_endpoint_now update_env
         /\ ep_UpdatedAt shown = ep_UpdatedAt ep
         /\ Forall2 (same_endpoint "ep_01E") (endpoints scenario.s1)
                    (endpoints s')
         /\ applications s' = applications scenario.s1
         /\ messages s' = messages scenario.s1
         /\ deliveries s' = deliveries scenario.s1
         /\ attempts s' = attempts scenario.s1.
Proof.
  eexists. eexists. split; [reflexivity|].
  apply (Update_endpoint scenario.parse update_env "ep_01E"
           (Some update_req) scenario.s1).
  reflexivity.
Defined.

(** X13.  A toggle flips the active flag of the endpoint and shows the
    new value; a second toggle brings the flag back, so that reading the
    endpoint gives the original endpoint except for its update time.  The
    deliveries are not touched. *)
Theorem Toggle_twice (now1 now2 : Time) (id : string) (s s1 : Store)
                     (shown1 : Endpoint) :
  EndpointHandler_Toggle true true now1 id s = (ReplyJSON 200 shown1, s1) ->
  exists ep,
    GetEndpoint true id s = Ok (Some ep)
    /\ shown1 = shown_active (negb (ep_Active ep)) ep
    /\ GetEndpoint true id s1
       = Ok (Some (set_active (negb (ep_Active ep)) now1 ep))
    /\ deliveries s1 = deliveries s
    /\ exists s2,
         EndpointHandler_Toggle true true now2 id s1
         = (ReplyJSON 200
              (shown_active (ep_Active ep)
                 (set_active (negb (ep_Active ep)) now1 ep)), s2)
         /\ GetEndpoint true id s2
            = Ok (Some (set_active (ep_Active ep) now2 ep))
         /\ deliveries s2 = deliveries s.
Proof.
  unfold EndpointHandler_Toggle at 1. unfold GetEndpoint at 1.
  destruct (find _ (endpoints s)) as [ep|] eqn:E; [|discriminate].
  cbn [ToggleEndpoint]. intros H. injection H as <- <-.
  assert (Hfind : forall a t l,
            find (fun e => ep_ID e =? id)
                 (map (fun e => if ep_ID e =? id then set_active a t e else e)
                      l)
            = option_map (set_active a t) (find (fun e => ep_ID e =? id) l)).
  { intros a t l. induction l as [|x l IH]; simpl; [reflexivity|].
    destruct (ep_ID x =? id) eqn:Ex; cbn [set_active ep_ID]; rewrite Ex;
      [reflexivity | exact IH]. }
  exists ep. split; [unfold GetEndpoint; now rewrite E|].
  split; [reflexivity|].
  assert (E1 : GetEndpoint true id
                 {| applications := applications s;
                    endpoints :=
                      map (fun e => if ep_ID e =? id
                                    then set_active (negb (ep_Active ep)) now1 e
                                    else e) (endpoints s);
                    messages := messages s;
                    deliveries := deliveries s;
                    attempts := attempts s |}
               = Ok (Some (set_active (negb (ep_Active ep)) now1 ep))).
  { unfold GetEndpoint. cbn [endpoints]. now rewrite Hfind, E. }
  split; [exact E1|]. split; [reflexivity|].
  eexists. unfold EndpointHandler_Toggle. rewrite E1.
  cbn [ToggleEndpoint set_active ep_Active]. rewrite negb_involutive.
  split; [reflexivity|]. split; [|reflexivity].
  unfold GetEndpoint. cbn [endpoints]. rewrite !Hfind, E. reflexivity.
Qed.

Lemma Toggle_twice_witness :
  exists shown1 s1,
    EndpointHandler_Toggle true true (4 * Second) "ep_01E" scenario.s1
    = (ReplyJSON 200 shown1, s1)
    /\ exists ep,
         GetEndpoint true "ep_01E" scenario.s1 = Ok (Some ep)
         /\ shown1 = shown_active (negb (ep_Active ep)) ep
         /\ GetEndpoint true "ep_01E" s1
            = Ok (Some (set_active (negb (ep_Active ep)) (4 * Second) ep))
         /\ deliveries s1 = deliveries scenario.s1
         /\ exists s2,
              EndpointHandler_Toggle true true (5 * Second) "ep_01E" s1
              = (ReplyJSON 200
                   (shown_active (ep_Active ep)
                      (set_active (negb (ep_Active ep)) (4 * Second) ep)), s2)
              /\ GetEndpoint true "ep_01E" s2
                 = Ok (Some (set_active (ep_Active ep) (5 * Second) ep))
              /\ deliveries s2 = deliveries scenario.s1.
Proof.
  eexists. eexists. split; [reflexivity|].
  apply (Toggle_twice (4 * Second) (5 * Second) "ep_01E" scenario.s1).
  reflexivity.
Defined.

(** X14.  Whatever the outcome of an ingest, every delivery row it adds is
    pending with no attempt, and is for an endpoint of the store that is
    active, belongs to the caller's application and matches the event
    type; so an endpoint that has been toggled to inactive gets no
    delivery from any later ingest. *)
Theorem ingest_spares_inactive (env : SendEnv) (r : SendHttp) (s : Store) :
  (forall row,
     In row (deliveries (snd (MessageHandler_Send env r s))) ->
     In row (deliveries s)
     \/ (fresh row
         /\ exists app req ep,
              ctx_app r = Some app
              /\ DecodeLimited maxPayloadSize (send_body r) = Some req
              /\ In ep (endpoints s)
              /\ d_EndpointID row = ep_ID ep
              /\ subscribed (app_ID app) (EventType req) ep = true))
  /\ (forall now id s0 shown,
        EndpointHandler_Toggle true true now id s0 = (ReplyJSON 200 shown, s) ->
        ep_Active shown = false ->
        forall row,
          In row (deliveries (snd (MessageHandler_Send env r s))) ->
          d_EndpointID row = id ->
          In row (deliveries s)).
Proof.
  split; [intros row; apply Send_new_rows|].
  intros now id s0 shown Ht Hoff row Hrow Hid.
  apply Send_new_rows in Hrow.
  destruct Hrow as [H|(_ & app & req & ep & _ & _ & Hep & He & Hsub)];
    [exact H|]. exfalso.
  unfold EndpointHandler_Toggle, GetEndpoint in Ht.
  destruct (find _ (endpoints s0)) as [ep0|]; [|discriminate].
  cbn [ToggleEndpoint] in Ht. injection Ht as <- <-.
  cbn [shown_active ep_Active] in Hoff. cbn [endpoints] in Hep.
  apply in_map_iff in Hep. destruct Hep as (e0 & Heq & _).
  rewrite Hid in He. unfold subscribed in Hsub.
  destruct (ep_ID e0 =? id) eqn:E0.
  - rewrite <- Heq in Hsub. cbn [set_active ep_Active ep_AppID] in Hsub.
    rewrite Hoff in Hsub. rewrite andb_false_r in Hsub. discriminate.
  - apply String.eqb_neq in E0. subst ep. congruence.
Qed.

Lemma made_In (env : SendEnv) (msg : Message) (now : Time) (i : nat)
              (eps : list Endpoint) (ep : Endpoint) :
  In ep eps ->
  exists d, In d (made env msg now i eps)
            /\ d_EndpointID d = ep_ID ep
            /\ d_MessageID d = msg_ID msg
            /\ fresh d.
Proof.
  revert i. induction eps as [|e r IH]; intros i H; [contradiction|].
  destruct H as [->|H].
  - exists (new_delivery env msg now i ep). simpl.
    split; [now left | repeat split].
  - destruct (IH (S i) H) as (d & Hd & Hrest).
    exists d. split; [now right | exact Hrest].
Qed.

(** X15.  An endpoint created without event types receives everything:
    every later ingest of the same application that is accepted, whatever
    its event type, creates a pending delivery for that endpoint. *)
Theorem endpoint_without_event_types (url_Parse : string -> option url.URL)
                                     (cenv : CreateEnv) (creq : CreateHttp)
                                     (s s1 : Store) (ep : Endpoint)
                                     (senv : SendEnv) (sreq : SendHttp) :
  EndpointHandler_Create url_Parse cenv creq s
  = (writeJSON 201 (EndpointBody ep), s1) ->
  option_map j_event_types (create_body creq) = Some None ->
  ctx_app sreq = create_app creq ->
  status (fst (MessageHandler_Send senv sreq s1)) = 202 ->
  ep_EventTypes ep = Some []
  /\ exists d,
       In d (deliveries (snd (MessageHandler_Send senv sreq s1)))
       /\ d_EndpointID d = ep_ID ep
       /\ d_MessageID d = NewID (msg_ulid senv) "msg"
       /\ fresh d.
Proof.
  intros Hc Hnone Hctx H202.
  assert (Hep : exists app,
            create_app creq = Some app /\ In ep (endpoints s1)
            /\ ep_AppID ep = app_ID app /\ ep_Active ep = true
            /\ ep_EventTypes ep = Some []).
  { unfold EndpointHandler_Create in Hc.
    destruct (create_app creq) as [app|] eqn:Happ; [|discriminate].
    destruct (create_body creq) as [j|] eqn:Hj; [|discriminate].
    cbn [option_map] in Hc, Hnone. injection Hnone as Hnone.
    destruct (URL (decode_createEndpointRequest j) =? ""); [discriminate|].
    destruct (negb _); [discriminate|].
    unfold CreateEndpoint in Hc.
    destruct (create_endpoint_ok cenv); [|discriminate].
    injection Hc as <- <-. exists app.
    cbn [decode_createEndpointRequest EventTypes ep_EventTypes ep_AppID
         ep_Active endpoints].
    rewrite Hnone. repeat split. apply in_or_app. right. now left. }
  destruct Hep as (app & Happ & Hin1 & Hown & Hact & Hall).
  split; [exact Hall|].
  destruct (Send_accepted_store senv sreq s1 H202)
    as (app' & req & eps & Happ' & _ & Hperm & ->).
  rewrite Hctx, Happ in Happ'. injection Happ' as <-.
  assert (Hin : In ep eps).
  { eapply Permutation_in; [symmetry; exact Hperm|].
    apply filter_In. split; [exact Hin1|].
    unfold subscribed. rewrite Hown, Hact, Hall, String.eqb_refl.
    reflexivity. }
  destruct (made_In senv (new_message senv app req) (send_now senv) 0 eps ep
              Hin) as (d & Hd & Hid & Hm & Hf).
  exists d. split; [cbn [add_deliveries deliveries]; apply in_or_app; now right|].
  split; [exact Hid|]. split; [exact Hm | exact Hf].
Qed.

Lemma endpoint_without_event_types_witness :
  exists ep,
    EndpointHandler_Create scenario.parse scenario.create_env_all
      scenario.create_req_all scenario.s1
    = (writeJSON 201 (EndpointBody ep), scenario.two_endpoints)
    /\ status (fst (MessageHandler_Send scenario.send_env scenario.send_req
                      scenario.two_endpoints)) = 202
    /\ ep_EventTypes ep = Some []
    /\ exists d,
         In d (deliveries (snd (MessageHandler_Send scenario.send_env
                                  scenario.send_req scenario.two_endpoints)))
         /\ d_EndpointID d = ep_ID ep
         /\ d_MessageID d = NewID (msg_ulid scenario.send_env) "msg"
         /\ fresh d.
Proof.
  eexists. split; [reflexivity|].
  assert (H : status (fst (MessageHandler_Send scenario.send_env
                             scenario.send_req scenario.two_endpoints)) = 202)
    by (vm_compute; reflexivity).
  split; [exact H|].
  apply (endpoint_without_event_types scenario.parse scenario.create_env_all
           scenario.create_req_all scenario.s1 scenario.two_endpoints _
           scenario.send_env scenario.send_req);
    [reflexivity | reflexivity | reflexivity | exact H].
Defined.

(** X16.  Deleting an endpoint answers 404 when there is none with that
    id and changes nothing on any error.  After a deletion (204) no
    endpoint has the id and no delivery refers to it, the other endpoints
    and deliveries are all still there, and deleting again answers 404. *)
Theorem Delete_endpoint (get_ok delete_ok : bool) (id : string) (s : Store) :
  match EndpointHandler_Delete get_ok delete_ok id s with
  | (ReplyStatus code, s') =>
      code = 204
      /\ (forall ep, In ep (endpoints s')
                     <-> In ep (endpoints s) /\ ep_ID ep <> id)
      /\ (forall d, In d (deliveries s')
                    <-> In d (deliveries s) /\ d_EndpointID d <> id)
      /\ (forall a, In a (attempts s') -> In a (attempts s))
      /\ applications s' = applications s
      /\ messages s' = messages s
      /\ EndpointHandler_Delete true true id s'
         = (ReplyError 404 "endpoint not found", s')
  | (ReplyError code _, s') =>
      s' = s
      /\ (code = 500
          \/ (code = 404
              /\ forall ep, In ep (endpoints s) -> ep_ID ep <> id))
  | (ReplyJSON _ _, _) => False
  end.
Proof.
  unfold EndpointHandler_Delete at 1. unfold GetEndpoint at 1.
  destruct get_ok; [|split; [reflexivity | now left]].
  destruct (find _ (endpoints s)) as [ep|] eqn:E.
  - unfold DeleteEndpoint. destruct delete_ok;
      [|split; [reflexivity | now left]].
    cbn [applications endpoints messages deliveries attempts].
    split; [reflexivity|]. split.
    { intros e. rewrite filter_In, negb_true_iff, String.eqb_neq.
      reflexivity. }
    split.
    { intros d. rewrite filter_In, negb_true_iff, String.eqb_neq.
      reflexivity. }
    split; [intros a Ha; apply filter_In in Ha; apply Ha|].
    split; [reflexivity|]. split; [reflexivity|].
    unfold EndpointHandler_Delete, GetEndpoint. cbn [endpoints].
    rewrite find_absent; [reflexivity|].
    intros x Hx. apply filter_In in Hx. destruct Hx as [_ Hx].
    now apply negb_true_iff in Hx.
  - split; [reflexivity|]. right. split; [reflexivity|].
    intros e He. apply String.eqb_neq. exact (find_none _ _ E e He).
Qed.

(** ** References between the tables *)
Section Consistency.

Lemma same_delivery_refs (id : string) (l l' : list Delivery) :
  Forall2 (same_delivery id) l l' ->
  map d_ID l' = map d_ID l
  /\ map d_MessageID l' = map d_MessageID l
  /\ map d_EndpointID l' = map d_EndpointID l.
Proof.
  induction 1 as [|x y l l' (H1 & H2 & H3 & _) _ (IH1 & IH2 & IH3)]; simpl;
    [repeat split|].
  now rewrite H1, H2, H3, IH1, IH2, IH3.
Qed.

Lemma UpdateDelivery_refs (ok : bool) (now : Time) (d : Delivery)
                          (s : Store) :
  let s' := logged (UpdateDelivery ok now d s) s in
  endpoints s' = endpoints s /\ messages s' = messages s
  /\ attempts s' = attempts s
  /\ map d_ID (deliveries s') = map d_ID (deliveries s)
  /\ map d_MessageID (deliveries s') = map d_MessageID (deliveries s)
  /\ map d_EndpointID (deliveries s') = map d_EndpointID (deliveries s).
Proof.
  destruct (UpdateDelivery_same ok now d s) as (_ & He & Hm & Ha & Hd).
  apply same_delivery_refs in Hd. cbn zeta. tauto.
Qed.

Lemma retry_loop_refs (env : RetryEnv) (now : Time) (ds : list Delivery)
                      (i : nat) (n : Z) (s : Store) :
  let s' := snd (retry_loop env now ds i n s) in
  endpoints s' = endpoints s /\ messages s' = messages s
  /\ attempts s' = attempts s
  /\ map d_ID (deliveries s') = map d_ID (deliveries s)
  /\ map d_MessageID (deliveries s') = map d_MessageID (deliveries s)
  /\ map d_EndpointID (deliveries s') = map d_EndpointID (deliveries s).
Proof.
  cbn zeta. revert i n s. induction ds as [|d rest IH]; intros i n s; simpl.
  - repeat split.
  - destruct (d_Status d); try apply IH.
    destruct (UpdateDelivery _ _ _ s) as [|s1] eqn:E; [apply IH|].
    pose proof (UpdateDelivery_refs (retry_update_ok env i)
                  (retry_update_now env i)
                  (set_state d DeliveryRetrying (Some now)) s) as H.
    rewrite E in H. cbn [logged] in H.
    destruct H as (H1 & H2 & H3 & H4 & H5 & H6).
    destruct (IH (S i) (n + 1) s1) as (I1 & I2 & I3 & I4 & I5 & I6).
    repeat split; congruence.
Qed.

Lemma fan_out_store (env : SendEnv) (msg : Message) (now : Time)
                    (eps : list Endpoint) (i : nat) (acc : list Delivery)
                    (s : Store) :
  exists l,
    snd (fan_out env msg now eps i acc s) = add_deliveries s l
    /\ Forall (fun d => d_MessageID d = msg_ID msg
                        /\ exists ep, In ep eps /\ d_EndpointID d = ep_ID ep)
              l.
Proof.
  revert i acc s. induction eps as [|ep rest IH]; intros i acc s; simpl.
  - exists []. split; [now rewrite add_deliveries_nil | constructor].
  - unfold CreateDelivery. destruct (create_delivery_ok env i).
    + fold (add_deliveries s [new_delivery env msg now i ep]).
      destruct (IH (S i) (acc ++ [new_delivery env msg now i ep])%list
                   (add_deliveries s [new_delivery env msg now i ep]))
        as (l & -> & Hl).
      exists (new_delivery env msg now i ep :: l).
      split; [now rewrite add_deliveries_app|]. constructor.
      * split; [reflexivity|]. exists ep. split; [now left | reflexivity].
      * eapply Forall_impl; [|exact Hl].
        intros d (Hm & e & He & Hid). split; [exact Hm|].
        exists e. split; [now right | exact Hid].
    + exists []. split; [now rewrite add_deliveries_nil | constructor].
Qed.

Lemma Send_consistent (env : SendEnv) (r : SendHttp) (s : Store) :
  consistent s -> consistent (snd (MessageHandler_Send env r s)).
Proof.
  intros Hc. unfold MessageHandler_Send.
  destruct (ctx_app r) as [app|]; [|exact Hc].
  destruct (DecodeLimited _ _) as [req|]; [|exact Hc].
  destruct (EventType req =? ""); [exact Hc|].
  destruct (length (Payload req) =? 0)%nat; [exact Hc|].
  unfold CreateMessage. destruct (create_message_ok env); [|exact Hc].
  fold (add_message s (new_message env app req)).
  assert (Hc1 : consistent (add_message s (new_message env app req))).
  { destruct Hc as (H1 & H2 & H3). repeat split; cbn; try assumption.
    rewrite map_app. intros x Hx. apply in_or_app. left. now apply H1. }
  unfold GetEndpointsByEventType.
  destruct (get_endpoints_ok env); [|exact Hc1].
  match goal with
  | |- context [fan_out env ?m ?t ?eps 0 [] ?s1] =>
      destruct (fan_out_store env m t eps 0 [] s1) as (l & -> & Hl);
      assert (Heps : forall ep, In ep eps -> In ep (endpoints s))
  end.
  { intros ep Hep. apply filter_In in Hep. destruct Hep as [Hep _].
    apply sort_by_In, filter_In in Hep. apply Hep. }
  destruct Hc1 as (H1 & H2 & H3). repeat split; cbn in *.
  - rewrite map_app. intros x Hx. apply in_app_or in Hx.
    destruct Hx as [Hx|Hx]; [now apply H1|].
    apply in_map_iff in Hx. destruct Hx as (d & <- & Hd).
    rewrite Forall_forall in Hl. destruct (Hl d Hd) as [-> _].
    rewrite map_app. apply in_or_app. right. now left.
  - rewrite map_app. intros x Hx. apply in_app_or in Hx.
    destruct Hx as [Hx|Hx]; [now apply H2|].
    apply in_map_iff in Hx. destruct Hx as (d & <- & Hd).
    rewrite Forall_forall in Hl. destruct (Hl d Hd) as (_ & ep & Hep & ->).
    apply in_map. now apply Heps.
  - rewrite map_app. intros x Hx. apply in_or_app. left. now apply H3.
Qed.

Lemma Process_consistent (w : Worker) (env : ProcessEnv) (d : Delivery)
                         (s : Store) :
  In d (deliveries s) -> consistent s ->
  consistent (store_of (Worker_Process w env d s)).
Proof.
  intros Hd (H1 & H2 & H3).
  destruct (Worker_Process_same w env d s) as (_ & He & Hm & Hrows & Hat).
  apply same_delivery_refs in Hrows. destruct Hrows as (R1 & R2 & R3).
  unfold consistent. rewrite He, Hm, R1, R2, R3.
  split; [exact H1|]. split; [exact H2|].
  destruct Hat as [->|(result & ->)]; [exact H3|].
  rewrite map_app. intros x Hx. apply in_app_or in Hx.
  destruct Hx as [Hx|[<-|[]]]; [now apply H3|].
  cbn. now apply in_map.
Qed.

Lemma Delete_consistent (id : string) (s s' : Store) :
  DeleteEndpoint true id s = Ok s' -> consistent s -> consistent s'.
Proof.
  intros H (H1 & H2 & H3). injection H as <-. repeat split; cbn.
  - intros x Hx. apply in_map_iff in Hx. destruct Hx as (d & <- & Hd).
    apply filter_In in Hd. apply H1. apply in_map. apply Hd.
  - intros x Hx. apply in_map_iff in Hx. destruct Hx as (d & <- & Hd).
    apply filter_In in Hd. destruct Hd as [Hd Hkeep].
    assert (Hx : In (d_EndpointID d) (map ep_ID (endpoints s)))
      by (apply H2; now apply in_map).
    apply in_map_iff in Hx. destruct Hx as (ep & Hid & Hep).
    apply in_map_iff. exists ep. split; [exact Hid|].
    apply filter_In. split; [exact Hep|]. now rewrite Hid.
  - intros x Hx. apply in_map_iff in Hx. destruct Hx as (a & <- & Ha).
    apply filter_In in Ha. destruct Ha as [Ha Hkeep].
    assert (Hx : In (att_DeliveryID a) (map d_ID (deliveries s)))
      by (apply H3; now apply in_map).
    apply in_map_iff in Hx. destruct Hx as (d & Hid & Hd).
    apply in_map_iff. exists d. split; [exact Hid|].
    apply filter_In. split; [exact Hd|].
    apply negb_true_iff in Hkeep.
    destruct (d_EndpointID d =? id) eqn:E; [|reflexivity].
    exfalso. assert (Hex : existsb (fun d0 => (d_EndpointID d0 =? id)
                                              && (d_ID d0 =? att_DeliveryID a))
                                   (deliveries s) = true).
    { apply existsb_exists. exists d. split; [exact Hd|].
      rewrite E, Hid. apply String.eqb_refl. }
    congruence.
Qed.

Lemma step_consistent (p : string -> option url.URL) (w : Worker)
                      (manual : bool) (s s' : Store) :
  step p w manual s s' -> consistent s -> consistent s'.
Proof.
  intros Hstep Hc. destruct Hstep as
    [ env r s | now id a s s' Ht | id s s' Hdel | env r s
    | env now limit ds d s Hds Hd | env id s Hm ].
  - unfold EndpointHandler_Create.
    destruct (create_app r); [|exact Hc].
    destruct (option_map _ _) as [req|]; [|exact Hc].
    destruct (URL req =? ""); [exact Hc|].
    destruct (negb _); [exact Hc|].
    unfold CreateEndpoint. destruct (create_endpoint_ok env); [|exact Hc].
    destruct Hc as (H1 & H2 & H3). repeat split; cbn; try assumption.
    rewrite map_app. intros x Hx. apply in_or_app. left. now apply H2.
  - injection Ht as <-. destruct Hc as (H1 & H2 & H3).
    repeat split; cbn; try assumption. rewrite map_map.
    replace (map (fun x => ep_ID (if ep_ID x =? id
                                  then set_active a now x else x))
                 (endpoints s))
      with (map ep_ID (endpoints s)); [exact H2|].
    apply map_ext. intros x. now destruct (ep_ID x =? id).
  - now apply (Delete_consistent id s s').
  - now apply Send_consistent.
  - apply Process_consistent; [|exact Hc].
    now destruct (GetPendingDeliveries_In _ _ _ _ _ Hds Hd).
  - destruct Hc as (H1 & H2 & H3). unfold MessageHandler_Retry.
    destruct (GetMessage _ _ s) as [|[msg|]]; try (now repeat split).
    destruct (GetDeliveriesByMessage _ _ s) as [|ds];
      try (now repeat split).
    destruct (retry_loop env (retry_time env) ds 0 0 s) as [n s'] eqn:E.
    pose proof (retry_loop_refs env (retry_time env) ds 0 0 s) as H.
    rewrite E in H. cbn [snd] in H.
    destruct H as (R1 & R2 & R3 & R4 & R5 & R6).
    unfold consistent. cbn [snd]. rewrite R1, R2, R3, R4, R5, R6.
    now repeat split.
Qed.

Lemma reachable_is_consistent (p : string -> option url.URL) (w : Worker)
                              (manual : bool) (s : Store) :
  reachable p w manual s -> consistent s.
Proof.
  induction 1 as [|s s' _ IH Hstep].
  - repeat split; intros x [].
  - now apply (step_consistent p w manual s s').
Qed.

End Consistency.

(** X17.  In every store the system can reach, the references hold that
    the schema declares: each delivery names a message and an endpoint of
    the store, each attempt a delivery of the store.  No handler and no
    worker run writes a row that would dangle. *)
Theorem reachable_consistent (url_Parse : string -> option url.URL)
                             (w : Worker) (manual : bool) (s : Store) :
  reachable url_Parse w manual s -> consistent s.
Proof. apply reachable_is_consistent. Qed.

Lemma reachable_consistent_witness :
  reachable scenario.parse scenario.w2 true scenario.s6
  /\ consistent scenario.s6.
Proof.
  split; [apply scenario_reachable|].
  apply (reachable_consistent scenario.parse scenario.w2 true scenario.s6).
  apply scenario_reachable.
Defined.

(** ** Manual retry *)
Section ManualRetry.

Lemma NoDup_map_inj {A B : Type} (f : A -> B) (l : list A) (a b : A) :
  NoDup (map f l) -> In a l -> In b l -> f a = f b -> a = b.
Proof.
  induction l as [|x l IH]; simpl; [contradiction|].
  intros Hn Ha Hb E. inversion Hn as [|? ? Hx Hl]; subst.
  destruct Ha as [->|Ha], Hb as [->|Hb]; auto.
  - exfalso. apply Hx. rewrite E. now apply in_map.
  - exfalso. apply Hx. rewrite <- E. now apply in_map.
Qed.

Lemma NoDup_map_filter {A B : Type} (f : A -> B) (keep : A -> bool)
                       (l : list A) :
  NoDup (map f l) -> NoDup (map f (filter keep l)).
Proof.
  induction l as [|x l IH]; simpl; [auto|].
  intros Hn. inversion Hn as [|? ? Hx Hl]; subst.
  destruct (keep x); simpl; [|auto]. constructor; [|auto].
  intros H. apply Hx. apply in_map_iff in H. destruct H as (y & E & Hy).
  apply filter_In in Hy. rewrite <- E. apply in_map. apply Hy.
Qed.

Lemma Forall2_map_left {A : Type} (R : A -> A -> Prop) (g : A -> A)
                       (l l' : list A) :
  Forall2 R (map g l) l' -> Forall2 (fun a b => R (g a) b) l l'.
Proof.
  revert l'. induction l as [|x l IH]; intros l' H; inversion H; subst;
    constructor; auto.
Qed.

Lemma Forall2_impl_In {A : Type} (R R' : A -> A -> Prop) (l l' : list A) :
  (forall a b, In a l -> R a b -> R' a b) ->
  Forall2 R l l' -> Forall2 R' l l'.
Proof.
  intros H F. induction F as [|a b l l' Hab F IH]; constructor.
  - apply H; [now left | exact Hab].
  - apply IH. intros x y Hx. apply H. now right.
Qed.

Lemma Forall2_refl_eq {A : Type} (R : A -> A -> Prop) (l : list A) :
  (forall a, R a a) -> Forall2 R l l.
Proof. intros H. induction l; constructor; auto. Qed.

Lemma retry_loop_requeues (env : RetryEnv) (now : Time) (ds : list Delivery)
                          (i : nat) (n : Z) (s : Store) :
  (forall j, retry_update_ok env j = true) ->
  NoDup (map d_ID ds) ->
  (forall d row, In d ds -> In row (deliveries s) ->
                 d_ID row = d_ID d -> row = d) ->
  fst (retry_loop env now ds i n s)
    = n + Z.of_nat (List.length (filter is_failed ds))
  /\ Forall2 (fun old new =>
                if existsb (fun d => (d_ID d =? d_ID old) && is_failed d) ds
                then requeued now old new else new = old)
             (deliveries s) (deliveries (snd (retry_loop env now ds i n s))).
Proof.
  intros Hok. revert i n s.
  induction ds as [|d rest IH]; intros i n s Hn Hinv.
  - simpl. split; [lia|]. now apply Forall2_refl_eq.
  - inversion Hn as [|? ? Hd Hrest]; subst.
    assert (Skip : is_failed d = false ->
      fst (retry_loop env now rest (S i) n s)
        = n + Z.of_nat (List.length (filter is_failed (d :: rest)))
      /\ Forall2 (fun old new =>
                if existsb (fun d0 => (d_ID d0 =? d_ID old) && is_failed d0)
                           (d :: rest)
                then requeued now old new else new = old)
             (deliveries s)
             (deliveries (snd (retry_loop env now rest (S i) n s)))).
    { intros Ef. cbn [filter existsb]. rewrite Ef.
      destruct (IH (S i) n s Hrest) as [I1 I2].
      - intros d0 row H0. apply Hinv. now right.
      - split; [exact I1|]. eapply Forall2_impl; [|exact I2].
        intros a b. cbn beta. now rewrite andb_false_r. }
    cbn [retry_loop]. unfold is_failed in Skip.
    destruct (d_Status d) eqn:Es; try (apply Skip; reflexivity).
    clear Skip. unfold UpdateDelivery. rewrite Hok.
    match goal with
    | |- context [retry_loop env now rest (S i) (n + 1) ?s1] =>
        set (s1' := s1)
    end.
    assert (Ef : is_failed d = true) by (unfold is_failed; now rewrite Es).
    destruct (IH (S i) (n + 1) s1' Hrest) as [I1 I2].
    { intros d2 row H2 Hrow E. cbn in Hrow. apply in_map_iff in Hrow.
      destruct Hrow as (row0 & <- & Hrow0).
      assert (Hne : d_ID d2 <> d_ID d).
      { intros Eid. apply Hd. rewrite <- Eid. now apply in_map. }
      destruct (d_ID row0 =? d_ID d) eqn:E0.
      - apply String.eqb_eq in E0. cbn in E. congruence.
      - apply Hinv; [now right | exact Hrow0 | exact E]. }
    split.
    + rewrite I1. cbn [filter]. rewrite Ef. cbn [List.length]. lia.
    + cbn [deliveries] in I2. subst s1'. cbn [deliveries] in I2.
      apply Forall2_map_left in I2.
      eapply Forall2_impl_In; [|exact I2].
      intros old new Hold. cbn beta. cbn [existsb]. rewrite Ef, andb_true_r.
      cbn [set_state d_ID].
      destruct (d_ID old =? d_ID d) eqn:E0.
      * apply String.eqb_eq in E0.
        assert (Eold : old = d) by (apply Hinv; [now left | exact Hold | exact E0]).
        rewrite E0, String.eqb_refl. cbn [orb].
        assert (Ex : existsb (fun d0 => (d_ID d0 =? d_ID (updated_row
                                 (retry_update_now env i)
                                 (set_state d DeliveryRetrying (Some now))
                                 old)) && is_failed d0) rest = false).
        { apply not_true_iff_false. intros Hex.
          apply existsb_exists in Hex. destruct Hex as (d2 & H2 & E2).
          apply andb_prop in E2. destruct E2 as [E2 _].
          apply String.eqb_eq in E2. cbn in E2.
          apply Hd. rewrite <- E0, <- E2. now apply in_map. }
        rewrite Ex. intros ->. subst old. now repeat split.
      * rewrite String.eqb_sym in E0. rewrite E0. cbn [andb orb].
        auto.
Qed.

Lemma retried_or_kept_trans (now : Time) (a b c : Delivery) :
  retried_or_kept now a b -> retried_or_kept now b c ->
  retried_or_kept now a c.
Proof.
  intros [->|H1] [->|H2]; [now left | now right | now right|].
  right. destruct H1 as (A1 & A2 & A3 & A4 & _), H2 as (B1 & B2 & B3 & B4 & B5).
  repeat split; try congruence; apply B5.
Qed.

Lemma Forall2_compose {A : Type} (R : A -> A -> Prop) (l1 l2 l3 : list A) :
  (forall a b c, R a b -> R b c -> R a c) ->
  Forall2 R l1 l2 -> Forall2 R l2 l3 -> Forall2 R l1 l3.
Proof.
  intros Ht F. revert l3. induction F; intros l3 G; inversion G; subst;
    constructor; eauto.
Qed.

Lemma retry_loop_kept (env : RetryEnv) (now : Time) (ds : list Delivery)
                      (i : nat) (n : Z) (s : Store) :
  let r := retry_loop env now ds i n s in
  applications (snd r) = applications s
  /\ endpoints (snd r) = endpoints s /\ messages (snd r) = messages s
  /\ attempts (snd r) = attempts s
  /\ n <= fst r <= n + Z.of_nat (List.length (filter is_failed ds))
  /\ Forall2 (retried_or_kept now) (deliveries s) (deliveries (snd r)).
Proof.
  cbn zeta. revert i n s. induction ds as [|d rest IH]; intros i n s.
  - simpl. repeat split; try lia. apply Forall2_refl_eq. now left.
  - cbn [retry_loop filter]. unfold is_failed at 1.
    destruct (d_Status d) eqn:Es; try apply IH.
    unfold UpdateDelivery. destruct (retry_update_ok env i).
    + match goal with
      | |- context [retry_loop env now rest (S i) (n + 1) ?s1] =>
          destruct (IH (S i) (n + 1) s1) as (I0 & I1 & I2 & I3 & I4 & I5)
      end.
      cbn [List.length]. repeat split; try assumption; try lia.
      eapply Forall2_compose; [apply retried_or_kept_trans| |exact I5].
      cbn [deliveries]. apply Forall2_map_same. intros x.
      destruct (d_ID x =? d_ID _); [right; now repeat split | now left].
    + destruct (IH (S i) n s) as (I0 & I1 & I2 & I3 & I4 & I5).
      cbn [List.length]. repeat split; try assumption; lia.
Qed.

End ManualRetry.

(** X18.  [Retry] on a known message, with a store that answers and in
    which delivery ids are unique: every failed delivery of the message
    becomes [retrying] and due at the time of the call, keeping its
    identity and its attempt count; every other row of the table is
    untouched, as are the other tables; the reply is 200 with the number of
    failed deliveries the message had. *)
Theorem Retry_requeues (env : RetryEnv) (id : string) (s : Store) :
  retry_get_message_ok env = true ->
  retry_get_deliveries_ok env = true ->
  (forall i, retry_update_ok env i = true) ->
  NoDup (map d_ID (deliveries s)) ->
  In id (map msg_ID (messages s)) ->
  let s' := snd (MessageHandler_Retry env id s) in
  fst (MessageHandler_Retry env id s)
    = writeJSON 200 (RetriedBody
        (Z.of_nat (List.length (filter (failed_of id) (deliveries s)))))
  /\ applications s' = applications s /\ endpoints s' = endpoints s
  /\ messages s' = messages s /\ attempts s' = attempts s
  /\ Forall2 (fun old new =>
                if failed_of id old then requeued (retry_time env) old new
                else new = old)
             (deliveries s) (deliveries s').
Proof.
  intros Hm Hds Hok Hn Hid. cbn zeta. unfold MessageHandler_Retry.
  unfold GetMessage, GetDeliveriesByMessage. rewrite Hm, Hds.
  destruct (find _ (messages s)) as [msg|] eqn:Ef.
  2:{ exfalso. apply in_map_iff in Hid. destruct Hid as (m & E & Hin).
      pose proof (find_none _ _ Ef m Hin) as H. cbn in H.
      rewrite E, String.eqb_refl in H. discriminate. }
  set (ds := sort_by _ _).
  assert (Hperm : Permutation ds
                    (filter (fun d => d_MessageID d =? id) (deliveries s)))
    by apply sort_by_perm.
  assert (Hsub : forall d, In d ds ->
                   In d (deliveries s) /\ (d_MessageID d =? id) = true).
  { intros d Hd. apply (Permutation_in _ Hperm) in Hd.
    now apply filter_In in Hd. }
  destruct (retry_loop_requeues env (retry_time env) ds 0 0 s Hok)
    as [H1 H2].
  { apply (Permutation_NoDup (Permutation_sym (Permutation_map d_ID Hperm))).
    now apply NoDup_map_filter. }
  { intros d row Hd Hrow E.
    apply (NoDup_map_inj d_ID (deliveries s)); auto. now apply Hsub. }
  destruct (retry_loop_kept env (retry_time env) ds 0 0 s)
    as (K0 & K1 & K2 & K3 & _).
  destruct (retry_loop env (retry_time env) ds 0 0 s) as [k s'] eqn:E.
  cbn [fst snd] in *. subst k. split; [|repeat split; try assumption].
  - do 2 f_equal. cbn [Z.add].
    rewrite (Permutation_length (filter_permuted is_failed _ _ Hperm)).
    now rewrite filter_both.
  - eapply Forall2_impl_In; [|exact H2]. intros old new Hold. cbn beta.
    replace (existsb (fun d => (d_ID d =? d_ID old) && is_failed d) ds)
      with (failed_of id old); [auto|].
    unfold failed_of. symmetry.
    destruct ((d_MessageID old =? id) && is_failed old) eqn:Eo.
    + apply existsb_exists. exists old. apply andb_prop in Eo.
      destruct Eo as [Eo1 Eo2]. split.
      * apply (Permutation_in _ (Permutation_sym Hperm)).
        apply filter_In. now split.
      * now rewrite String.eqb_refl.
    + apply not_true_iff_false. intros Hex.
      apply existsb_exists in Hex. destruct Hex as (d & Hd & Ed).
      apply andb_prop in Ed. destruct Ed as [Ed1 Ed2].
      apply String.eqb_eq in Ed1. destruct (Hsub d Hd) as [Hin Hmsg].
      assert (d = old)
        by (apply (NoDup_map_inj d_ID (deliveries s)); auto).
      subst d. rewrite Hmsg, Ed2 in Eo. discriminate.
Qed.

Lemma Retry_requeues_witness :
  let s' := snd (MessageHandler_Retry scenario.retry_env "msg_01M"
                                      scenario.s4) in
  fst (MessageHandler_Retry scenario.retry_env "msg_01M" scenario.s4)
    = writeJSON 200 (RetriedBody
        (Z.of_nat (List.length (filter (failed_of "msg_01M")
                                  (deliveries scenario.s4)))))
  /\ applications s' = applications scenario.s4
  /\ endpoints s' = endpoints scenario.s4
  /\ messages s' = messages scenario.s4
  /\ attempts s' = attempts scenario.s4
  /\ Forall2 (fun old new =>
                if failed_of "msg_01M" old
                then requeued (retry_time scenario.retry_env) old new
                else new = old)
             (deliveries scenario.s4) (deliveries s').
Proof.
  apply (Retry_requeues scenario.retry_env "msg_01M" scenario.s4).
  - reflexivity.
  - reflexivity.
  - intros i. reflexivity.
  - vm_compute. constructor; [intros [] | constructor].
  - vm_compute. now left.
Defined.

(** X19.  Whatever the store answers, [Retry] adds and removes no row and
    touches no table but the deliveries; each delivery row is either left
    as it was or requeued ([retrying], due at the time of the call) with
    its identity kept; the count it reports is at most the number of failed
    deliveries of the message.  A message that does not exist gives 404, a
    failing read 500, and both leave the store as it was. *)
Theorem Retry_frame (env : RetryEnv) (id : string) (s : Store) :
  let s' := snd (MessageHandler_Retry env id s) in
  applications s' = applications s /\ endpoints s' = endpoints s
  /\ messages s' = messages s /\ attempts s' = attempts s
  /\ Forall2 (retried_or_kept (retry_time env))
             (deliveries s) (deliveries s')
  /\ ((exists k,
         fst (MessageHandler_Retry env id s) = writeJSON 200 (RetriedBody k)
         /\ 0 <= k
              <= Z.of_nat (List.length (filter (failed_of id) (deliveries s)))
         /\ In id (map msg_ID (messages s)))
      \/ (fst (MessageHandler_Retry env id s)
             = writeError 404 "message not found"
          /\ s' = s /\ ~ In id (map msg_ID (messages s)))
      \/ (status (fst (MessageHandler_Retry env id s)) = 500
          /\ s' = s
          /\ (retry_get_message_ok env = false
              \/ retry_get_deliveries_ok env = false))).
Proof.
  cbn zeta. unfold MessageHandler_Retry, GetMessage, GetDeliveriesByMessage.
  assert (Hrefl : Forall2 (retried_or_kept (retry_time env))
                          (deliveries s) (deliveries s))
    by (apply Forall2_refl_eq; now left).
  destruct (retry_get_message_ok env);
    [|cbn; repeat split; auto; right; right; auto].
  destruct (find _ (messages s)) as [msg|] eqn:Ef.
  2:{ cbn. repeat split; auto. right. left. repeat split.
      intros Hid. apply in_map_iff in Hid.
      destruct Hid as (m & E & Hin).
      pose proof (find_none _ _ Ef m Hin) as H. cbn in H.
      rewrite E, String.eqb_refl in H. discriminate. }
  destruct (retry_get_deliveries_ok env);
    [|cbn; repeat split; auto; right; right; auto].
  set (ds := sort_by _ _).
  destruct (retry_loop_kept env (retry_time env) ds 0 0 s)
    as (K0 & K1 & K2 & K3 & K4 & K5).
  destruct (retry_loop env (retry_time env) ds 0 0 s) as [k s'] eqn:E.
  cbn [fst snd] in *. repeat split; try assumption.
  left. exists k. split; [reflexivity|]. split.
  - replace (List.length (filter (failed_of id) (deliveries s)))
      with (List.length (filter is_failed ds)); [lia|].
    unfold failed_of. rewrite <- filter_both. apply Permutation_length.
    apply filter_permuted. apply sort_by_perm.
  - apply find_some in Ef. destruct Ef as [Hin Eid].
    apply String.eqb_eq in Eid. rewrite <- Eid. now apply in_map.
Qed.

(** ** Reads: pages, counts and listings *)
Section Reads.

Lemma In_skipn_In {A : Type} (n : nat) (l : list A) (x : A) :
  In x (skipn n l) -> In x l.
Proof.
  intros H. rewrite <- (firstn_skipn n l). apply in_or_app. now right.
Qed.



Lemma filter_none {A : Type} (f : A -> bool) (l : list A) :
  (forall x, In x l -> f x = false) -> filter f l = [].
Proof.
  induction l as [|x l IH]; intros H; simpl; [reflexivity|].
  rewrite (H x (or_introl eq_refl)). apply IH. intros y Hy. apply H.
  now right.
Qed.


Lemma find_In_map {A : Type} (key : A -> string) (id : string)
                  (l : list A) :
  find (fun x => key x =? id) l = None <-> ~ In id (map key l).
Proof.
  split.
  - intros Ef Hin. apply in_map_iff in Hin. destruct Hin as (x & E & Hx).
    pose proof (find_none _ _ Ef x Hx) as H. cbn in H.
    rewrite E, String.eqb_refl in H. discriminate.
  - intros Hn. apply find_absent. intros x Hx.
    apply not_true_iff_false. intros E. apply String.eqb_eq in E.
    apply Hn. rewrite <- E. now apply in_map.
Qed.

End Reads.

(** X20.  A page of [ListMessages]: a limit of zero or less means 50; the
    page has at most that many messages, all of the asking application,
    newest first; with no offset and a limit that covers them it is all of
    the application's messages.  The call fails only when the store
    does. *)
Theorem ListMessages_page (io_ok : bool) (appID : string)
                          (limit offset : Z) (s : Store) :
  let page := if (limit <=? 0)%Z then 50 else limit in
  let mine := filter (fun m => msg_AppID m =? appID) (messages s) in
  match ListMessages io_ok appID limit offset s with
  | Err => io_ok = false
  | Ok msgs =>
      io_ok = true
      /\ Z.of_nat (List.length msgs) <= page
      /\ (forall m, In m msgs -> In m (messages s) /\ msg_AppID m = appID)
      /\ StronglySorted (key_ge msg_CreatedAt) msgs
      /\ (offset <= 0 -> count mine <= page -> Permutation msgs mine)
  end.
Proof.
  cbn zeta. unfold ListMessages. destruct io_ok; [|reflexivity].
  set (page := if (limit <=? 0)%Z then 50 else limit).
  assert (Hpage : 0 < page).
  { subst page. destruct (Z.leb_spec limit 0); lia. }
  unfold sql_limit, sql_offset.
  destruct (Z.ltb_spec page 0) as [Hneg|_]; [lia|].
  set (sorted := sort_by _ _).
  split; [reflexivity|]. split; [|split; [|split]].
  - pose proof (firstn_le_length (Z.to_nat page)
                  (skipn (Z.to_nat offset) sorted)). lia.
  - intros m Hm. apply In_firstn, In_skipn_In in Hm.
    apply sort_by_In, filter_In in Hm. destruct Hm as [Hin E].
    apply String.eqb_eq in E. now split.
  - apply StronglySorted_firstn, StronglySorted_skipn.
    apply sort_by_key_desc.
  - intros Hoff Hcount.
    replace (Z.to_nat offset) with 0%nat by lia. cbn [skipn].
    rewrite firstn_all2; [apply sort_by_perm|].
    unfold count in Hcount. subst sorted.
    rewrite (Permutation_length (sort_by_perm _ _)). lia.
Qed.


(** X22.  [ListAttempts] answers 200 with the attempts recorded for the
    delivery, in the order of their attempt numbers, and 500 only when the
    store fails.  It does not look the delivery up: for an id that no
    delivery of a consistent store has, the answer is 200 with an empty
    list, where [DeliveryHandler.Get] answers 404. *)
Theorem ListAttempts_sorted (io_ok : bool) (id : string) (s : Store) :
  match DeliveryHandler_ListAttempts io_ok id s with
  | ReplyJSON code l =>
      code = 200 /\ io_ok = true
      /\ Permutation l (filter (fun a => att_DeliveryID a =? id)
                               (attempts s))
      /\ StronglySorted (key_le att_AttemptNumber) l
      /\ (consistent s -> ~ In id (map d_ID (deliveries s)) ->
          l = []
          /\ DeliveryHandler_Get io_ok id s
             = ReplyError 404 "delivery not found")
  | ReplyError code _ => code = 500 /\ io_ok = false
  | ReplyStatus _ => False
  end.
Proof.
  unfold DeliveryHandler_ListAttempts, GetAttemptsByDelivery.
  destruct io_ok; [|now split].
  split; [reflexivity|]. split; [reflexivity|].
  split; [apply sort_by_perm|]. split; [apply sort_by_key_sorted|].
  intros (_ & _ & H3) Hid. split.
  - rewrite filter_none; [reflexivity|].
    intros a Ha. apply not_true_iff_false. intros E.
    apply String.eqb_eq in E. apply Hid. rewrite <- E.
    apply H3. now apply in_map.
  - unfold DeliveryHandler_Get, GetDelivery.
    now rewrite (proj2 (find_In_map d_ID id (deliveries s)) Hid).
Qed.

(** X23.  [MessageHandler.Get] answers 200 with the message of that id and
    all of its deliveries, oldest first; 404 exactly when the store
    answers and holds no message of that id; 500 only when a read
    fails. *)
Theorem Message_Get (get_ok deliveries_ok : bool) (id : string)
                    (s : Store) :
  match MessageHandler_Get get_ok deliveries_ok id s with
  | ReplyJSON code (m, ds) =>
      code = 200 /\ In m (messages s) /\ msg_ID m = id
      /\ Permutation ds (filter (fun d => d_MessageID d =? id)
                                (deliveries s))
      /\ StronglySorted (key_le d_CreatedAt) ds
  | ReplyError code _ =>
      (code = 404 /\ get_ok = true /\ ~ In id (map msg_ID (messages s)))
      \/ (code = 500 /\ (get_ok = false \/ deliveries_ok = false))
  | ReplyStatus _ => False
  end.
Proof.
  unfold MessageHandler_Get, GetMessage, GetDeliveriesByMessage.
  destruct get_ok; [|right; auto].
  destruct (find _ (messages s)) as [m|] eqn:Ef.
  - destruct deliveries_ok; [|right; auto].
    apply find_some in Ef. destruct Ef as [Hin E].
    apply String.eqb_eq in E. repeat split; auto.
    + apply sort_by_perm.
    + apply sort_by_key_sorted.
  - left. repeat split. now apply (find_In_map msg_ID).
Qed.

(** ** Deleting an application *)
Section DeleteApplication.

Lemma DeleteApplication_consistent (id : string) (s s' : Store) :
  DeleteApplication true id s = Ok s' -> consistent s -> consistent s'.
Proof.
  intros H (H1 & H2 & H3). injection H as <-.
  repeat split; cbn [deliveries messages endpoints attempts].
  - intros x Hx. apply in_map_iff in Hx. destruct Hx as (d & <- & Hd).
    apply filter_In in Hd. destruct Hd as [Hd Hkeep].
    apply negb_true_iff, orb_false_elim in Hkeep.
    destruct Hkeep as [_ Hkeep].
    assert (Hx : In (d_MessageID d) (map msg_ID (messages s)))
      by (apply H1; now apply in_map).
    apply in_map_iff in Hx. destruct Hx as (m & Hid & Hm).
    apply in_map_iff. exists m. split; [exact Hid|].
    apply filter_In. split; [exact Hm|].
    destruct (msg_AppID m =? id) eqn:E; [|reflexivity].
    exfalso. apply not_true_iff_false in Hkeep. apply Hkeep.
    apply existsb_exists. exists m. split; [exact Hm|].
    rewrite E, Hid. apply String.eqb_refl.
  - intros x Hx. apply in_map_iff in Hx. destruct Hx as (d & <- & Hd).
    apply filter_In in Hd. destruct Hd as [Hd Hkeep].
    apply negb_true_iff, orb_false_elim in Hkeep.
    destruct Hkeep as [Hkeep _].
    assert (Hx : In (d_EndpointID d) (map ep_ID (endpoints s)))
      by (apply H2; now apply in_map).
    apply in_map_iff in Hx. destruct Hx as (ep & Hid & Hep).
    apply in_map_iff. exists ep. split; [exact Hid|].
    apply filter_In. split; [exact Hep|].
    destruct (ep_AppID ep =? id) eqn:E; [|reflexivity].
    exfalso. apply not_true_iff_false in Hkeep. apply Hkeep.
    apply existsb_exists. exists ep. split; [exact Hep|].
    rewrite E, Hid. apply String.eqb_refl.
  - intros x Hx. apply in_map_iff in Hx. destruct Hx as (a & <- & Ha).
    apply filter_In in Ha. destruct Ha as [Ha Hkeep].
    apply negb_true_iff in Hkeep.
    assert (Hx : In (att_DeliveryID a) (map d_ID (deliveries s)))
      by (apply H3; now apply in_map).
    apply in_map_iff in Hx. destruct Hx as (d & Hid & Hd).
    apply in_map_iff. exists d. split; [exact Hid|].
    apply filter_In. split; [exact Hd|].
    match goal with
    | |- negb ?g = true => destruct g eqn:Eg; [|reflexivity]
    end.
    exfalso. apply not_true_iff_false in Hkeep. apply Hkeep.
    apply existsb_exists. exists d. split; [exact Hd|].
    rewrite Eg, Hid. apply String.eqb_refl.
Qed.

End DeleteApplication.

(** X24.  Deleting an application answers 204 only for one that exists,
    and then removes it together with all of its endpoints and messages
    and nothing of another application; deliveries and attempts are only
    removed, never added or changed, and a consistent store stays
    consistent (the cascade leaves no dangling row).  Deleting it again
    answers 404.  On 404 and 500 the store is as it was. *)
Theorem Delete_application (get_ok delete_ok : bool) (id : string)
                           (s : Store) :
  match ApplicationHandler_Delete get_ok delete_ok id s with
  | (ReplyStatus code, s') =>
      code = 204 /\ In id (map app_ID (applications s))
      /\ (forall a, In a (applications s') <->
                    In a (applications s) /\ app_ID a <> id)
      /\ (forall ep, In ep (endpoints s') <->
                     In ep (endpoints s) /\ ep_AppID ep <> id)
      /\ (forall m, In m (messages s') <->
                    In m (messages s) /\ msg_AppID m <> id)
      /\ incl (deliveries s') (deliveries s)
      /\ incl (attempts s') (attempts s)
      /\ (consistent s -> consistent s')
      /\ fst (ApplicationHandler_Delete get_ok delete_ok id s')
         = ReplyError 404 "application not found"
  | (ReplyError code _, s') =>
      s' = s
      /\ ((code = 404 /\ ~ In id (map app_ID (applications s)))
          \/ (code = 500 /\ (get_ok = false \/ delete_ok = false)))
  | (ReplyJSON _ _, _) => False
  end.
Proof.
  unfold ApplicationHandler_Delete, GetApplication.
  destruct get_ok; [|split; [reflexivity | right; auto]].
  destruct (find _ (applications s)) as [app|] eqn:Ef.
  2:{ split; [reflexivity|]. left. split; [reflexivity|].
      now apply (find_In_map app_ID). }
  destruct (DeleteApplication delete_ok id s) as [|s'] eqn:Ed.
  { split; [reflexivity|]. right. split; [reflexivity|]. right.
    unfold DeleteApplication in Ed. now destruct delete_ok. }
  assert (Hdel : delete_ok = true)
    by (unfold DeleteApplication in Ed; now destruct delete_ok).
  subst delete_ok.
  assert (Hne : forall x y : string, negb (x =? y) = true <-> x <> y).
  { intros x y. rewrite negb_true_iff. apply String.eqb_neq. }
  split; [reflexivity|]. split.
  { apply find_some in Ef. destruct Ef as [Hin E].
    apply String.eqb_eq in E. rewrite <- E. now apply in_map. }
  split; [|split; [|split; [|split; [|split; [|split]]]]].
  - injection Ed as <-. intros a. cbn. rewrite filter_In. now rewrite Hne.
  - injection Ed as <-. intros ep. cbn. rewrite filter_In. now rewrite Hne.
  - injection Ed as <-. intros m. cbn. rewrite filter_In. now rewrite Hne.
  - injection Ed as <-. intros d Hd. cbn in Hd. now apply filter_In in Hd.
  - injection Ed as <-. intros a Ha. cbn in Ha. now apply filter_In in Ha.
  - now apply (DeleteApplication_consistent id s s').
  - replace (find (fun a => app_ID a =? id) (applications s'))
      with (@None Application); [reflexivity|].
    symmetry. apply find_absent. intros a Ha.
    injection Ed as <-. cbn in Ha. apply filter_In in Ha.
    now apply negb_true_iff.
Qed.
